(** * Passport MRZ extraction: a shallow embedding of the App component

    The development follows the pure core of the React component that
    turns an OCR transcript into a passport record:

      - [extractMRZ]      locates the two MRZ lines in a transcript,
      - [cleanMRZLine1]   repairs filler characters misread as letters,
      - [parseMRZ]        decodes the fixed-offset fields,
      - [otsuThreshold]   picks the binarisation threshold,
      - [extractData]     drives pages and OCR passes around one worker.

    JavaScript strings are sequences of UTF-16 code units; they are
    modelled as lists of code units ([N]).  Regular expressions of the
    source are modelled by a matcher that says what the expression
    matches when anchored at the head of a suffix, and by the generic
    leftmost-match drivers [test], [replaceFirst] and [findFirst]. *)

From Stdlib Require Import Strings.String Strings.Ascii Numbers.DecimalString.
From Stdlib Require Import List Bool Arith NArith ZArith QArith Lia.
From Stdlib Require Import Sorting.Permutation.
From Stdlib Require Floats Uint63.
Import ListNotations.

Close Scope Q_scope.

(* ------------------------------------------------------------------ *)
(** ** JavaScript strings *)
(* ------------------------------------------------------------------ *)

Module JS.

Abbreviation codeunit := N (only parsing).
Definition jsstring := list codeunit.

(** A literal of the source, written as a Rocq string of ASCII characters. *)
Definition lit (s : String.string) : jsstring :=
  List.map Ascii.N_of_ascii (String.list_ascii_of_string s).

Arguments lit s%_string.

Definition ch (a : ascii) : codeunit := N_of_ascii a.

Arguments ch a%_char.

Definition FILLER : codeunit := 60%N.   (* '<' *)
Definition SPACE  : codeunit := 32%N.   (* ' ' *)
Definition NEWLINE : codeunit := 10%N.  (* '\n' *)

Definition jsstring_eqb (a b : jsstring) : bool :=
  if list_eq_dec N.eq_dec a b then true else false.

(** Character classes of the regular expressions in the source. *)
Definition isUpper (c : codeunit) : bool := (65 <=? c)%N && (c <=? 90)%N.   (* [A-Z] *)
Definition isDigit (c : codeunit) : bool := (48 <=? c)%N && (c <=? 57)%N.   (* [0-9] *)
Definition isFiller (c : codeunit) : bool := (c =? FILLER)%N.
Definition isMrzChar (c : codeunit) : bool :=                               (* [A-Z0-9<] *)
  isUpper c || isDigit c || isFiller c.

(** [\s], which is also the set that [trim] and [parseInt] strip:
    WhiteSpace and LineTerminator of ECMAScript. *)
Definition isSpace (c : codeunit) : bool :=
  ((9 <=? c) && (c <=? 13) || (c =? 32) || (c =? 160) || (c =? 5760)
   || (8192 <=? c) && (c <=? 8202) || (c =? 8232) || (c =? 8233)
   || (c =? 8239) || (c =? 8287) || (c =? 12288) || (c =? 65279))%N.

(** [s.substring(a, b)]: indices are clamped to the length and swapped
    when [a > b]. *)
Definition substring (a b : nat) (s : jsstring) : jsstring :=
  let lo := Nat.min a b in
  let hi := Nat.max a b in
  firstn (hi - lo) (skipn lo s).

(** [s.substring(a)]. *)
Definition substringFrom (a : nat) (s : jsstring) : jsstring := skipn a s.

(** [s.startsWith(p)] and [s.includes(p)]. *)
Fixpoint startsWith (p s : jsstring) : bool :=
  match p, s with
  | [], _ => true
  | _ :: _, [] => false
  | a :: p', b :: s' => (a =? b)%N && startsWith p' s'
  end.

(** Leftmost-match drivers.  A matcher is given the suffix that starts at
    the candidate position. *)
Fixpoint test (m : jsstring -> bool) (s : jsstring) {struct s} : bool :=
  m s || match s with
         | [] => false
         | _ :: t => test m t
         end.

Fixpoint findFirst {A : Type} (m : jsstring -> option A) (s : jsstring)
  {struct s} : option A :=
  match m s with
  | Some x => Some x
  | None => match s with
            | [] => None
            | _ :: t => findFirst m t
            end
  end.

(** [s.replace(re, ...)] for a regular expression without the [g] flag: the
    matcher returns the length of the match at the head of the suffix and
    the text that replaces it. *)
Fixpoint replaceFirst (m : jsstring -> option (nat * jsstring)) (s : jsstring)
  {struct s} : jsstring :=
  match m s with
  | Some (n, r) => r ++ skipn n s
  | None => match s with
            | [] => []
            | c :: t => c :: replaceFirst m t
            end
  end.

Definition includes (p s : jsstring) : bool := test (startsWith p) s.

(** A matcher is length preserving when every replacement is as long as
    the text it replaces and the match fits in the suffix. *)
Definition lengthPreserving (m : jsstring -> option (nat * jsstring)) : Prop :=
  forall s n r, m s = Some (n, r) -> length r = n /\ n <= length s.

(** The positions at which a replacing matcher matches. *)
Definition matches (m : jsstring -> option (nat * jsstring)) (s : jsstring) : bool :=
  match m s with
  | Some _ => true
  | None => false
  end.

(** [s.replace(/c/g, r)] for a pattern that is one character class. *)
Definition replaceAll (p : codeunit -> bool) (r : jsstring) (s : jsstring) : jsstring :=
  flat_map (fun c => if p c then r else [c]) s.

(** [s.padEnd(n, '<')]. *)
Definition padEnd (n : nat) (c : codeunit) (s : jsstring) : jsstring :=
  s ++ repeat c (n - length s).

(** [s.split(sep)] for a non-empty separator: occurrences are taken from
    left to right and do not overlap.  [skip] counts the characters of the
    separator that remain to be consumed; [cur] is the current piece,
    reversed. *)
Fixpoint split_from (sep : jsstring) (skip : nat) (cur s : jsstring) {struct s}
  : list jsstring :=
  match s with
  | [] => [rev cur]
  | c :: t =>
      match skip with
      | S k => split_from sep k cur t
      | O => if startsWith sep s
             then rev cur :: split_from sep (pred (length sep)) [] t
             else split_from sep O (c :: cur) t
      end
  end.

Definition split (sep s : jsstring) : list jsstring := split_from sep 0 [] s.

(** [s.trim()]. *)
Fixpoint trimStart (s : jsstring) : jsstring :=
  match s with
  | c :: t => if isSpace c then trimStart t else s
  | [] => []
  end.

Definition trim (s : jsstring) : jsstring := rev (trimStart (rev (trimStart s))).

(** [parts.join(sep)]. *)
Fixpoint join (sep : jsstring) (parts : list jsstring) : jsstring :=
  match parts with
  | [] => []
  | [p] => p
  | p :: rest => p ++ sep ++ join sep rest
  end.

(** [a || b] on strings: the empty string is falsy. *)
Definition orElse (a b : jsstring) : jsstring :=
  match a with
  | [] => b
  | _ => a
  end.

(** [parseInt(s, 10)]: leading white space is skipped, one sign is
    accepted, and the longest prefix of decimal digits is read; [None] is
    NaN (no digit at all). *)
Fixpoint digitsPrefix (s : jsstring) : jsstring :=
  match s with
  | c :: t => if isDigit c then c :: digitsPrefix t else []
  | [] => []
  end.

Definition digitValue (c : codeunit) : Z := Z.of_N c - 48.

Definition decimalValue (ds : jsstring) : Z :=
  fold_left (fun acc c => 10 * acc + digitValue c)%Z ds 0%Z.

Definition parseInt10 (s : jsstring) : option Z :=
  let s1 := trimStart s in
  let '(neg, s2) :=
    match s1 with
    | c :: t => if (c =? 45)%N then (true, t)
                else if (c =? 43)%N then (false, t)
                else (false, s1)
    | [] => (false, s1)
    end in
  match digitsPrefix s2 with
  | [] => None
  | ds => Some (if neg then (- decimalValue ds)%Z else decimalValue ds)
  end.

(** Conversion of an integral number to a string, as a template literal
    does it. *)
Definition numberToString (z : Z) : jsstring :=
  lit (DecimalString.NilZero.string_of_int (Z.to_int z)).

End JS.

Import JS.

(* ------------------------------------------------------------------ *)
(** ** MRZ corrector *)
(* ------------------------------------------------------------------ *)

Definition isCELA (c : codeunit) : bool :=                                  (* [CELA] *)
  ((c =? 67) || (c =? 69) || (c =? 76) || (c =? 65))%N.

Definition LETTER_C : codeunit := 67%N.   (* 'C' *)

(** [/[A-Z]<<[A-Z]/] at the head of a suffix. *)
Definition sepAt (s : jsstring) : bool :=
  match s with
  | a :: b :: c :: d :: _ => isUpper a && isFiller b && isFiller c && isUpper d
  | _ => false
  end.

(** [/[A-Z]<<$/] at the head of a suffix: the suffix is the whole match. *)
Definition sepEndAt (s : jsstring) : bool :=
  match s with
  | [a; b; c] => isUpper a && isFiller b && isFiller c
  | _ => false
  end.

(** [/[CELA]{3,}$/] at the head of a suffix: the run has to reach the end
    of the string, so the match is the whole suffix; the replacement
    callback returns as many fillers as the match is long. *)
Definition trailingRunAt (s : jsstring) : option (nat * jsstring) :=
  if (3 <=? length s) && forallb isCELA s
  then Some (length s, repeat FILLER (length s))
  else None.

(** [/([A-Z])CC([A-Z])/] at the head of a suffix, replaced by ['$1<<$2']. *)
Definition letterCCAt (s : jsstring) : option (nat * jsstring) :=
  match s with
  | a :: b :: c :: d :: _ =>
      if isUpper a && (b =? LETTER_C)%N && (c =? LETTER_C)%N && isUpper d
      then Some (4, [a; FILLER; FILLER; d])
      else None
  | _ => None
  end.

Definition cleanMRZLine1 (line : jsstring) : jsstring :=
  if length line <? 44 then line else
  let nameSection := substringFrom 5 line in
  if test sepAt nameSection then line else
  if test sepEndAt nameSection || startsWith (lit "<<") nameSection then line else
  let cleaned := replaceFirst trailingRunAt nameSection in
  let cleaned :=
    if negb (test sepAt cleaned) then replaceFirst letterCCAt cleaned else cleaned in
  substring 0 5 line ++ cleaned.

(** The two steps of the repair, on a name section. *)
Definition repairName (nameSection : jsstring) : jsstring :=
  let cleaned := replaceFirst trailingRunAt nameSection in
  if negb (test sepAt cleaned) then replaceFirst letterCCAt cleaned else cleaned.

(** The guards of the corrector, on a name section. *)
Definition fillerEvidence (nameSection : jsstring) : bool :=
  test sepAt nameSection
  || (test sepEndAt nameSection || startsWith (lit "<<") nameSection).

(* ------------------------------------------------------------------ *)
(** ** MRZ field decoder *)
(* ------------------------------------------------------------------ *)

Record PassportData := {
  passportNumber : jsstring;
  fullName : jsstring;
  surname : jsstring;
  givenNames : jsstring;
  nationality : jsstring;
  dateOfBirth : jsstring;
  sex : jsstring;
  dateOfExpiry : jsstring;
  mrzLine1 : jsstring;
  mrzLine2 : jsstring
}.

Definition isChar (k : codeunit) (c : codeunit) : bool := (c =? k)%N.

Definition stripFiller (s : jsstring) : jsstring := replaceAll isFiller [] s.
Definition fillerToSpace (s : jsstring) : jsstring := replaceAll isFiller [SPACE] s.

(** The four global replacements of [formatMRZDate], in source order. *)
Definition fixDigits (s : jsstring) : jsstring :=
  replaceAll (isChar (ch "Z")) (lit "2")        (* Z -> 2 *)
    (replaceAll (isChar (ch "S")) (lit "5")     (* S -> 5 *)
      (replaceAll (isChar (ch "I")) (lit "1")   (* I -> 1 *)
        (replaceAll (isChar (ch "O")) (lit "0") (* O -> 0 *) s))).

(** The digit-confusion table that the four replacements implement. *)
Definition ocrDigit (c : codeunit) : codeunit :=
  if (c =? ch "O")%N then ch "0"
  else if (c =? ch "I")%N then ch "1"
  else if (c =? ch "S")%N then ch "5"
  else if (c =? ch "Z")%N then ch "2"
  else c.

(** [getFullYear] is the year of the clock at the time of the call; [%] is
    the remainder that takes the sign of the dividend. *)
Definition formatMRZDate (getFullYear : Z) (yymmdd : jsstring) : jsstring :=
  if negb (length yymmdd =? 6) || existsb isFiller yymmdd then [] else
  let clean := fixDigits yymmdd in
  let month := substring 2 4 clean in
  let day := substring 4 6 clean in
  match parseInt10 (substring 0 2 clean) with
  | None => clean
  | Some year =>
      let currentYear := Z.rem getFullYear 100 in
      let fullYear := if (year >? currentYear + 10)%Z then (1900 + year)%Z
                      else (2000 + year)%Z in
      numberToString fullYear ++ lit "-" ++ month ++ lit "-" ++ day
  end.

Definition sexOf (sexRaw : jsstring) : jsstring :=
  if jsstring_eqb sexRaw (lit "M") then lit "Male"
  else if jsstring_eqb sexRaw (lit "F") then lit "Female"
  else lit "Unspecified".

(** The pieces of [parseMRZ] that depend on the corrected first line and on
    the second line; the array of two lines is a pair. *)
Definition decodeLines (getFullYear : Z) (line1 line2 : jsstring) : PassportData :=
  let issuingCountry := stripFiller (substring 2 5 line1) in
  let nameString := split (lit "<<") (substringFrom 5 line1) in
  let surname := trim (fillerToSpace (nth 0 nameString [])) in
  let givenNames := trim (fillerToSpace (nth 1 nameString [])) in
  let passportNumber := stripFiller (substring 0 9 line2) in
  let nationality := stripFiller (substring 10 13 line2) in
  let dobRaw := substring 13 19 line2 in
  let sexRaw := substring 20 21 line2 in
  let expiryRaw := substring 21 27 line2 in
  let fullName :=
    join [SPACE] (filter (fun p => negb (length p =? 0)) [givenNames; surname]) in
  {| passportNumber := passportNumber;
     fullName := fullName;
     surname := surname;
     givenNames := givenNames;
     nationality := orElse nationality issuingCountry;
     dateOfBirth := formatMRZDate getFullYear dobRaw;
     sex := sexOf sexRaw;
     dateOfExpiry := formatMRZDate getFullYear expiryRaw;
     mrzLine1 := line1;
     mrzLine2 := line2 |}.

Definition parseMRZ (getFullYear : Z) (lines : jsstring * jsstring) : PassportData :=
  let '(line1Raw, line2) := lines in
  let line1 := cleanMRZLine1 line1Raw in
  decodeLines getFullYear line1 line2.

Definition icaoLine1 : jsstring := lit "P<UTOERIKSSON<<ANNA<MARIA<<<<<<<<<<<<<<<<<<<".
Definition icaoLine2 : jsstring := lit "L898902C36UTO7408122F1204159ZE184226B<<<<<10".

(** The record expected for the ICAO specimen. *)
Definition icaoDecoded (r : PassportData) : Prop :=
  passportNumber r = lit "L898902C3"
  /\ surname r = lit "ERIKSSON"
  /\ givenNames r = lit "ANNA MARIA"
  /\ nationality r = lit "UTO"
  /\ dateOfBirth r = lit "1974-08-12"
  /\ sex r = lit "Female"
  /\ dateOfExpiry r = lit "2012-04-15".



(* ------------------------------------------------------------------ *)
(** ** MRZ locator *)
(* ------------------------------------------------------------------ *)

Definition LETTER_P : codeunit := 80%N.   (* 'P' *)

Definition startsWithP (s : jsstring) : bool := startsWith [LETTER_P] s.

(** [l.padEnd(44, '<').substring(0, 44)]. *)
Definition pad44 (l : jsstring) : jsstring := substring 0 44 (padEnd 44 FILLER l).

(** [(l.match(/[0-9]/g) || []).length]. *)
Definition countDigits (l : jsstring) : nat := length (filter isDigit l).

(** The test that the line-pair scan applies to two adjacent lines. *)
Definition qualifies (l1 l2 : jsstring) : bool :=
  startsWithP l1 && (40 <=? length l1) && (40 <=? length l2)
  && (5 <? countDigits (pad44 l2)).

(** The [for] loop over adjacent lines. *)
Fixpoint scanPairs (lines : list jsstring) : option (jsstring * jsstring) :=
  match lines with
  | l1 :: ((l2 :: _) as rest) =>
      if startsWithP l1 && (40 <=? length l1) && (40 <=? length l2) then
        let l1' := pad44 l1 in
        let l2' := pad44 l2 in
        if 5 <? countDigits l2' then Some (l1', l2') else scanPairs rest
      else scanPairs rest
  | _ => None
  end.

(** Adjacent lines [k] and [k+1] do not pass the test. *)
Definition rejected (lines : list jsstring) (k : nat) : Prop :=
  forall a b, nth_error lines k = Some a -> nth_error lines (S k) = Some b ->
              qualifies a b = false.

(** [/(P[A-Z<][A-Z0-9<]{42})([A-Z0-9<]{44})/] at the head of a suffix; the
    result holds the two capture groups. *)
Definition mrzBlockAt (s : jsstring) : option (jsstring * jsstring) :=
  let block := firstn 88 s in
  match block with
  | p :: q :: rest =>
      if (length block =? 88) && (p =? LETTER_P)%N && (isUpper q || isFiller q)
         && forallb isMrzChar rest
      then Some (firstn 44 block, skipn 44 block)
      else None
  | _ => None
  end.

(** Both passes, on the normalised lines. *)
Definition locate (lines : list jsstring) : option (jsstring * jsstring) :=
  match scanPairs lines with
  | Some found => Some found
  | None => findFirst mrzBlockAt (concat lines)
  end.

Definition GUILLEMET : codeunit := 171%N.   (* U+00AB *)

Section Locator.

(** [String.prototype.toUpperCase], whose Unicode case tables are not part
    of the program. *)
Variable toUpperCase : jsstring -> jsstring.

Definition normalizeLine (l : jsstring) : jsstring :=
  replaceAll (isChar (ch ")")) (lit "<")
    (replaceAll (isChar (ch "(")) (lit "<")
      (replaceAll (isChar (ch "]")) (lit "<")
        (replaceAll (isChar (ch "[")) (lit "<")
          (replaceAll (isChar GUILLEMET) (lit "<<")
            (replaceAll isSpace [] (toUpperCase l)))))).

Definition normalizedLines (text : jsstring) : list jsstring :=
  map normalizeLine (split [NEWLINE] text).

Definition extractMRZ (text : jsstring) : option (jsstring * jsstring) :=
  locate (normalizedLines text).

End Locator.

(** What an OCR engine restricted to the MRZ whitelist may emit: the
    whitelisted characters and white space. *)
Definition isWhitelisted (c : codeunit) : bool := isMrzChar c || isSpace c.

(** Upper-casing of the ASCII letters; every other code unit is kept.  On
    ASCII text this is what [toUpperCase] does. *)
Definition asciiToUpperCase (s : jsstring) : jsstring :=
  map (fun c => if (97 <=? c) && (c <=? 122) then c - 32 else c)%N s.

(* ------------------------------------------------------------------ *)
(** ** The earlier copy of the component (src/App.tsx) *)
(* ------------------------------------------------------------------ *)

Module Legacy.

(** The guillemet is written there as the two code units U+00C2 U+00AB;
    a global replacement of a literal is a split followed by a join. *)
Definition normalizeLine (toUpperCase : jsstring -> jsstring) (l : jsstring) : jsstring :=
  replaceAll (isChar (ch ")")) (lit "<")
    (replaceAll (isChar (ch "(")) (lit "<")
      (replaceAll (isChar (ch "]")) (lit "<")
        (replaceAll (isChar (ch "[")) (lit "<")
          (join (lit "<<") (split [194%N; GUILLEMET]
            (replaceAll isSpace [] (toUpperCase l))))))).

Definition normalizedLines (toUpperCase : jsstring -> jsstring) (text : jsstring)
  : list jsstring :=
  map (normalizeLine toUpperCase) (split [NEWLINE] text).

Definition extractMRZ (toUpperCase : jsstring -> jsstring) (text : jsstring)
  : option (jsstring * jsstring) :=
  locate (normalizedLines toUpperCase text).

Definition isCorFiller (c : codeunit) : bool := (c =? LETTER_C)%N || isFiller c.   (* [C<] *)
Definition isCELAorFiller (c : codeunit) : bool := isCELA c || isFiller c.         (* [CELA<] *)

(** [/[C<]{2,}[CELA<]*$/] at the head of a suffix: the match is the whole
    suffix, and [[C<]] is contained in [[CELA<]]. *)
Definition fillerTailAt (s : jsstring) : option (nat * jsstring) :=
  match s with
  | a :: b :: rest =>
      if isCorFiller a && isCorFiller b && forallb isCELAorFiller rest
      then Some (length s, repeat FILLER (length s))
      else None
  | _ => None
  end.

(** [/[A-Z]+<+$/] on a whole string. *)
Fixpoint allFiller1 (s : jsstring) : bool :=            (* <+$ *)
  match s with
  | [] => false
  | [c] => isFiller c
  | c :: t => isFiller c && allFiller1 t
  end.

Fixpoint upperThenFiller (s : jsstring) : bool :=       (* [A-Z]*<+$ *)
  match s with
  | [] => false
  | c :: t => (isUpper c && upperThenFiller t) || allFiller1 s
  end.

Definition givenTail (s : jsstring) : bool :=           (* [A-Z]+<+$ *)
  match s with
  | c :: t => isUpper c && upperThenFiller t
  | [] => false
  end.

(** [.] does not match a line terminator. *)
Definition isLineTerminator (c : codeunit) : bool :=
  ((c =? 10) || (c =? 13) || (c =? 8232) || (c =? 8233))%N.

(** The greedy [(.+)] ends at the last [CC] that the rest of the pattern
    accepts: a later position is preferred, and it needs the current
    character to be matched by [.]. *)
Fixpoint lastCC (s : jsstring) : option jsstring :=
  match s with
  | [] => None
  | c :: t =>
      match (if isLineTerminator c then None else lastCC t) with
      | Some t' => Some (c :: t')
      | None =>
          if startsWith (lit "CC") s && givenTail (skipn 2 s)
          then Some (lit "<<" ++ skipn 2 s)
          else None
      end
  end.

(** [cleaned.replace(/^(.+)CC([A-Z]+<+)$/, '$1<<$2')]. *)
Definition restoreSeparator (s : jsstring) : jsstring :=
  match s with
  | c :: t =>
      if isLineTerminator c then s
      else match lastCC t with
           | Some t' => c :: t'
           | None => s
           end
  | [] => s
  end.

Definition cleanMRZLine1 (line : jsstring) : jsstring :=
  if length line <? 44 then line else
  let nameSection := substringFrom 5 line in
  if includes (lit "<<") nameSection then line else
  let cleaned := replaceFirst fillerTailAt nameSection in
  let cleaned :=
    if negb (includes (lit "<<") cleaned) then restoreSeparator cleaned else cleaned in
  substring 0 5 line ++ cleaned.

Record PassportData := {
  passportNumber : jsstring;
  surname : jsstring;
  givenNames : jsstring;
  nationality : jsstring;
  dateOfBirth : jsstring;
  sex : jsstring;
  dateOfExpiry : jsstring;
  mrzLine1 : jsstring;
  mrzLine2 : jsstring
}.

Definition parseMRZ (getFullYear : Z) (lines : jsstring * jsstring) : PassportData :=
  let '(line1Raw, line2) := lines in
  let line1 := cleanMRZLine1 line1Raw in
  let issuingCountry := stripFiller (substring 2 5 line1) in
  let nameString := split (lit "<<") (substringFrom 5 line1) in
  let surname := trim (fillerToSpace (nth 0 nameString [])) in
  let givenNames := trim (fillerToSpace (nth 1 nameString [])) in
  let passportNumber := stripFiller (substring 0 9 line2) in
  let nationality := stripFiller (substring 10 13 line2) in
  let dobRaw := substring 13 19 line2 in
  let sexRaw := substring 20 21 line2 in
  let expiryRaw := substring 21 27 line2 in
  {| passportNumber := passportNumber;
     surname := surname;
     givenNames := givenNames;
     nationality := orElse nationality issuingCountry;
     dateOfBirth := formatMRZDate getFullYear dobRaw;
     sex := sexOf sexRaw;
     dateOfExpiry := formatMRZDate getFullYear expiryRaw;
     mrzLine1 := line1;
     mrzLine2 := line2 |}.

Definition icaoDecoded (r : PassportData) : Prop :=
  passportNumber r = lit "L898902C3"
  /\ surname r = lit "ERIKSSON"
  /\ givenNames r = lit "ANNA MARIA"
  /\ nationality r = lit "UTO"
  /\ dateOfBirth r = lit "1974-08-12"
  /\ sex r = lit "Female"
  /\ dateOfExpiry r = lit "2012-04-15".

(** The two steps of the repair, on a name section. *)
Definition repairName (nameSection : jsstring) : jsstring :=
  let cleaned := replaceFirst fillerTailAt nameSection in
  if negb (includes (lit "<<") cleaned) then restoreSeparator cleaned else cleaned.

End Legacy.

(* ------------------------------------------------------------------ *)
(** ** Otsu threshold *)
(* ------------------------------------------------------------------ *)

(** Numbers of the source are IEEE doubles.  Counts and sums of pixel
    values are integers (exact in a double below 2^53) and are modelled in
    [Z]; the two means and the variance are modelled as exact rationals
    here, for what does not depend on their rounding, and as doubles in
    [Double] below. *)

(** [histogram[v]++] on the array of 256 counters.  An index outside the
    array creates a property that the loops over [0..255] never read. *)
Fixpoint bump (v : nat) (histogram : list Z) {struct histogram} : list Z :=
  match histogram with
  | [] => []
  | h :: rest =>
      match v with
      | O => (h + 1)%Z :: rest
      | S v' => h :: bump v' rest
      end
  end.

Definition histogramOf (values : list nat) : list Z :=
  fold_left (fun histogram v => bump v histogram) values (repeat 0%Z 256).

(** [for (let i = 0; i < 256; i++) sumAll += i * histogram[i]], from index [i]. *)
Fixpoint weightedSum (i : nat) (histogram : list Z) : Z :=
  match histogram with
  | [] => 0%Z
  | h :: rest => (Z.of_nat i * h + weightedSum (S i) rest)%Z
  end.

Record OtsuState := {
  sumBg : Z;
  weightBg : Z;
  maxVariance : Q;
  best : nat
}.

Definition Qgtb (a b : Q) : bool := negb (Qle_bool a b).

Definition betweenClassVariance (sumAll sumBg weightBg weightFg : Z) : Q :=
  let meanBg := (inject_Z sumBg / inject_Z weightBg)%Q in
  let meanFg := (inject_Z (sumAll - sumBg) / inject_Z weightFg)%Q in
  (inject_Z weightBg * inject_Z weightFg * ((meanBg - meanFg) * (meanBg - meanFg)))%Q.

(** The loop over the thresholds, from [t] on; [rest] holds
    [histogram[t..255]]. *)
Fixpoint otsuLoop (total sumAll : Z) (t : nat) (rest : list Z) (st : OtsuState) : nat :=
  match rest with
  | [] => best st
  | h :: rest' =>
      let weightBg' := (weightBg st + h)%Z in
      if (weightBg' =? 0)%Z then                                   (* continue *)
        otsuLoop total sumAll (S t) rest'
          {| sumBg := sumBg st; weightBg := weightBg';
             maxVariance := maxVariance st; best := best st |}
      else
        let weightFg := (total - weightBg')%Z in
        if (weightFg =? 0)%Z then best st                          (* break *)
        else
          let sumBg' := (sumBg st + Z.of_nat t * h)%Z in
          let variance := betweenClassVariance sumAll sumBg' weightBg' weightFg in
          if Qgtb variance (maxVariance st) then
            otsuLoop total sumAll (S t) rest'
              {| sumBg := sumBg'; weightBg := weightBg';
                 maxVariance := variance; best := t |}
          else
            otsuLoop total sumAll (S t) rest'
              {| sumBg := sumBg'; weightBg := weightBg';
                 maxVariance := maxVariance st; best := best st |}
  end.

Definition otsuInit : OtsuState :=
  {| sumBg := 0; weightBg := 0; maxVariance := 0%Q; best := 128 |}.

(** The threshold as a function of the histogram and the pixel count. *)
Definition otsuOfHistogram (histogram : list Z) (total : Z) : nat :=
  otsuLoop total (weightedSum 0 histogram) 0 histogram otsuInit.

Definition otsuThreshold (values : list nat) : nat :=
  otsuOfHistogram (histogramOf values) (Z.of_nat (length values)).

(** The score of a threshold as the method describes it: the pixels of
    intensity at most [t] are the background, the others the foreground;
    a threshold with an empty side has no score. *)
Definition sumZ (l : list Z) : Z := fold_right Z.add 0%Z l.

Definition weightUpTo (histogram : list Z) (t : nat) : Z :=
  sumZ (firstn (S t) histogram).

Definition sumUpTo (histogram : list Z) (t : nat) : Z :=
  weightedSum 0 (firstn (S t) histogram).

Definition scoreAt (histogram : list Z) (total : Z) (t : nat) : option Q :=
  let weightBg := weightUpTo histogram t in
  let weightFg := (total - weightBg)%Z in
  if (weightBg =? 0)%Z || (weightFg =? 0)%Z then None
  else Some (betweenClassVariance (weightedSum 0 histogram) (sumUpTo histogram t)
               weightBg weightFg).

(** [r] is the lowest threshold of maximal score, or 128 when no
    threshold scores above zero. *)
Definition leastArgmax (histogram : list Z) (total : Z) (r : nat) : Prop :=
  (r = 128
   /\ forall t v, t < length histogram -> scoreAt histogram total t = Some v -> (v <= 0)%Q)
  \/ (r < length histogram
      /\ exists vr, scoreAt histogram total r = Some vr /\ (0 < vr)%Q
         /\ (forall t v, t < length histogram ->
                         scoreAt histogram total t = Some v -> (v <= vr)%Q)
         /\ (forall t v, t < r -> scoreAt histogram total t = Some v -> (v < vr)%Q)).

(** What the loop has established after the thresholds below
    [length done]. *)
Definition loopInv (histogram : list Z) (total : Z) (done : list Z) (st : OtsuState)
  : Prop :=
  weightBg st = sumZ done
  /\ sumBg st = weightedSum 0 done
  /\ (0 <= maxVariance st)%Q
  /\ (forall t v, t < length done -> scoreAt histogram total t = Some v ->
                  (v <= maxVariance st)%Q)
  /\ ((best st = 128 /\ maxVariance st = 0%Q)
      \/ (best st < length done
          /\ scoreAt histogram total (best st) = Some (maxVariance st)
          /\ (0 < maxVariance st)%Q
          /\ forall t v, t < best st -> scoreAt histogram total t = Some v ->
                         (v < maxVariance st)%Q)).

(* ------------------------------------------------------------------ *)
(** ** Otsu threshold in double precision *)
(* ------------------------------------------------------------------ *)

(** The source computes the two means and the variance in IEEE 754
    binary64 and compares the rounded variances: two thresholds whose
    scores are equal as rationals may be told apart by their rounding.
    [Double] is the loop with that arithmetic, on the primitive floats of
    the kernel.  Counts and sums of pixel values stay in [Z]: they are
    integers below 2^53, hence exact in a double, for every image of fewer
    than 2^53 / 255 pixels (an array of the source has fewer than 2^32
    elements), and they are converted where the source divides and
    multiplies them.  The square [x ** 2] is the product
    [x * x], which is what engines compute for the exponent 2. *)
Module Double.

Abbreviation double := PrimFloat.float.

(** The double that holds an integer of the loop: the conversion is that
    of an unsigned integer below 2^63, exact below 2^53. *)
Definition ofZ (z : Z) : double := PrimFloat.of_uint63 (Uint63.of_Z z).

(** [weightBg * weightFg * (meanBg - meanFg) ** 2], evaluated from left
    to right with [**] first. *)
Definition betweenClassVariance (sumAll sumBg weightBg weightFg : Z) : double :=
  let meanBg := PrimFloat.div (ofZ sumBg) (ofZ weightBg) in
  let meanFg := PrimFloat.div (ofZ (sumAll - sumBg)) (ofZ weightFg) in
  let difference := PrimFloat.sub meanBg meanFg in
  PrimFloat.mul (PrimFloat.mul (ofZ weightBg) (ofZ weightFg))
                (PrimFloat.mul difference difference).

Record OtsuState := {
  sumBg : Z;
  weightBg : Z;
  maxVariance : double;
  best : nat
}.

(** The loop over the thresholds, from [t] on; [rest] holds
    [histogram[t..255]].  [variance > maxVariance] is
    [maxVariance < variance]. *)
Fixpoint otsuLoop (total sumAll : Z) (t : nat) (rest : list Z) (st : OtsuState) : nat :=
  match rest with
  | [] => best st
  | h :: rest' =>
      let weightBg' := (weightBg st + h)%Z in
      if (weightBg' =? 0)%Z then                                   (* continue *)
        otsuLoop total sumAll (S t) rest'
          {| sumBg := sumBg st; weightBg := weightBg';
             maxVariance := maxVariance st; best := best st |}
      else
        let weightFg := (total - weightBg')%Z in
        if (weightFg =? 0)%Z then best st                          (* break *)
        else
          let sumBg' := (sumBg st + Z.of_nat t * h)%Z in
          let variance := betweenClassVariance sumAll sumBg' weightBg' weightFg in
          if PrimFloat.ltb (maxVariance st) variance then
            otsuLoop total sumAll (S t) rest'
              {| sumBg := sumBg'; weightBg := weightBg';
                 maxVariance := variance; best := t |}
          else
            otsuLoop total sumAll (S t) rest'
              {| sumBg := sumBg'; weightBg := weightBg';
                 maxVariance := maxVariance st; best := best st |}
  end.

Definition otsuInit : OtsuState :=
  {| sumBg := 0; weightBg := 0; maxVariance := PrimFloat.zero; best := 128 |}.

Definition otsuOfHistogram (histogram : list Z) (total : Z) : nat :=
  otsuLoop total (weightedSum 0 histogram) 0 histogram otsuInit.

Definition otsuThreshold (values : list nat) : nat :=
  otsuOfHistogram (histogramOf values) (Z.of_nat (length values)).

(** The score of a threshold as the loop computes it; a threshold with an
    empty side has no score. *)
Definition scoreAt (histogram : list Z) (total : Z) (t : nat) : option double :=
  let weightBg := weightUpTo histogram t in
  let weightFg := (total - weightBg)%Z in
  if (weightBg =? 0)%Z || (weightFg =? 0)%Z then None
  else Some (betweenClassVariance (weightedSum 0 histogram) (sumUpTo histogram t)
               weightBg weightFg).

(** [r] is the lowest threshold of maximal computed score, or 128 when no
    threshold has a computed score above zero: no score exceeds that of
    [r], and no score of a lower threshold reaches it. *)
Definition leastArgmax (histogram : list Z) (total : Z) (r : nat) : Prop :=
  (r = 128
   /\ forall t v, t < length histogram -> scoreAt histogram total t = Some v ->
                  PrimFloat.ltb PrimFloat.zero v = false)
  \/ (r < length histogram
      /\ exists vr, scoreAt histogram total r = Some vr
         /\ PrimFloat.ltb PrimFloat.zero vr = true
         /\ (forall t v, t < length histogram ->
                         scoreAt histogram total t = Some v ->
                         PrimFloat.ltb vr v = false)
         /\ (forall t v, t < r -> scoreAt histogram total t = Some v ->
                         PrimFloat.leb vr v = false)).

(** What the loop has established after the thresholds below
    [length done]. *)
Definition loopInv (histogram : list Z) (total : Z) (done : list Z) (st : OtsuState)
  : Prop :=
  weightBg st = sumZ done
  /\ sumBg st = weightedSum 0 done
  /\ (forall t v, t < length done -> scoreAt histogram total t = Some v ->
                  PrimFloat.ltb (maxVariance st) v = false)
  /\ ((best st = 128 /\ maxVariance st = PrimFloat.zero)
      \/ (best st < length done
          /\ scoreAt histogram total (best st) = Some (maxVariance st)
          /\ PrimFloat.ltb PrimFloat.zero (maxVariance st) = true
          /\ forall t v, t < best st -> scoreAt histogram total t = Some v ->
                         PrimFloat.leb (maxVariance st) v = false)).

(** The double that holds a positive integer below 2^53: a mantissa of 53
    bits and its exponent. *)
Definition canonE (p : positive) : Z := (Z.log2 (Zpos p) - 52)%Z.

Definition canonM (p : positive) : positive :=
  match canonE p with
  | Zneg d => Pos.iter xO p d
  | _ => p
  end.

(** A positive number whose exponent is at least [lo], or plus infinity. *)
Definition positiveFrom (lo : Z) (x : SpecFloat.spec_float) : Prop :=
  (exists m e, x = SpecFloat.S754_finite false m e /\ (lo <= e)%Z)
  \/ x = SpecFloat.S754_infinity false.

Definition isPositiveFrom (lo : Z) (x : SpecFloat.spec_float) : bool :=
  match x with
  | SpecFloat.S754_finite false _ e => (lo <=? e)%Z
  | SpecFloat.S754_infinity false => true
  | _ => false
  end.

(** [(a - b) ** 2] on two intensities. *)
Definition squaredDifference (a b : nat) : double :=
  let difference := PrimFloat.sub (ofZ (Z.of_nat a)) (ofZ (Z.of_nat b)) in
  PrimFloat.mul difference difference.

End Double.

(** The number of pixels of intensity [t]. *)
Definition pixels (values : list nat) (t : nat) : nat := count_occ Nat.eq_dec values t.

(** The binarisation of [preprocessImageForMRZ]:
    [grayValues[i / 4] < threshold ? 0 : 255]. *)
Definition binarize (threshold gray : nat) : nat :=
  if gray <? threshold then 0 else 255.

(* ------------------------------------------------------------------ *)
(** ** Extraction run *)
(* ------------------------------------------------------------------ *)

(** An [Error] object. *)
Record Exn := { message : jsstring }.

(** The end of an awaited call: a value or a thrown error. *)
Inductive outcome (A : Type) : Type :=
| Returned (a : A)
| Thrown (e : Exn).

Arguments Returned {A} a.
Arguments Thrown {A} e.

Section Run.

(** Image sources (data URLs) are opaque. *)
Variable image : Type.

(** The calls that leave the component, in the order they are made. *)
Inductive event : Type :=
| CreateWorker
| SetParameters
| Preprocess (src : image) (cropBottom : bool)
| Recognize (img : image)
| Terminate.

(** What the collaborators answer.  [recognize] gives [result.data.text]. *)
Record World := {
  getFullYear : Z;
  toUpperCase : jsstring -> jsstring;
  createWorker : outcome unit;
  setParameters : outcome unit;
  preprocessImageForMRZ : image -> bool -> outcome image;
  recognize : image -> outcome jsstring;
  terminate : outcome unit
}.

(** Computations that log their calls and may throw; the log outlives a
    throw. *)
Definition M (A : Type) : Type := list event -> outcome A * list event.

Definition ret {A : Type} (a : A) : M A := fun log => (Returned a, log).

Definition throw {A : Type} (e : Exn) : M A := fun log => (Thrown e, log).

Definition bind {A B : Type} (m : M A) (k : A -> M B) : M B :=
  fun log =>
    match m log with
    | (Returned a, log') => k a log'
    | (Thrown e, log') => (Thrown e, log')
    end.

(** An awaited call of a collaborator. *)
Definition call {A : Type} (ev : event) (answer : outcome A) : M A :=
  fun log => (answer, log ++ [ev]).

(** [try { mrzLines = ... } catch { }] around an assignment to a variable
    that holds [null]. *)
Definition tryOrNull {A : Type} (m : M (option A)) : M (option A) :=
  fun log =>
    match m log with
    | (Returned a, log') => (Returned a, log')
    | (Thrown _, log') => (Returned None, log')
    end.

Notation "x <- m ;; k" := (bind m (fun x => k))
  (at level 61, m at next level, right associativity).

Variable w : World.

Definition pass1 (src : image) : M (option (jsstring * jsstring)) :=
  tryOrNull (
    enhancedFull <- call (Preprocess src false) (preprocessImageForMRZ w src false) ;;
    text <- call (Recognize enhancedFull) (recognize w enhancedFull) ;;
    ret (extractMRZ (toUpperCase w) text)).

Definition pass2 (src : image) : M (option (jsstring * jsstring)) :=
  tryOrNull (
    enhancedCropped <- call (Preprocess src true) (preprocessImageForMRZ w src true) ;;
    text <- call (Recognize enhancedCropped) (recognize w enhancedCropped) ;;
    ret (extractMRZ (toUpperCase w) text)).

Definition pass3 (src : image) : M (option (jsstring * jsstring)) :=
  text <- call (Recognize src) (recognize w src) ;;
  ret (extractMRZ (toUpperCase w) text).

(** The rest of a page once pass 1 has found nothing. *)
Definition fromPass2 (src : image) : M (option (jsstring * jsstring)) :=
  mrzLines <- pass2 src ;;
  match mrzLines with
  | Some _ => ret mrzLines
  | None => pass3 src
  end.

(** The three passes on one page: the body of the [for] loop up to the
    test of [mrzLines]. *)
Definition scanPage (src : image) : M (option (jsstring * jsstring)) :=
  mrzLines <- pass1 src ;;
  mrzLines <- match mrzLines with
              | Some _ => ret mrzLines
              | None => pass2 src
              end ;;
  match mrzLines with
  | Some _ => ret mrzLines
  | None => pass3 src
  end.

(** The [for] loop over the pages, with its [break]. *)
Fixpoint scanPages (imageSrcs : list image) : M (option PassportData) :=
  match imageSrcs with
  | [] => ret None
  | src :: rest =>
      mrzLines <- scanPage src ;;
      match mrzLines with
      | Some lines => ret (Some (parseMRZ (getFullYear w) lines))
      | None => scanPages rest
      end
  end.

Definition notFoundMessage : jsstring :=
  lit "Could not detect a valid Machine Readable Zone (MRZ). Please ensure the image is clear and the bottom two lines of the passport are visible.".

Definition defaultMessage : jsstring :=
  lit "An error occurred while processing the passport.".

(** The body of the [try] block, from the creation of the worker on.
    What precedes it in the source is not part of the model: the early
    return without a file and, for a PDF, the awaited conversion into
    page images; a run of the model starts with its page images. *)
Definition extractBody (imageSrcs : list image) : M PassportData :=
  _ <- call CreateWorker (createWorker w) ;;
  _ <- call SetParameters (setParameters w) ;;
  foundData <- scanPages imageSrcs ;;
  _ <- call Terminate (terminate w) ;;
  match foundData with
  | Some data => ret data
  | None => throw {| message := notFoundMessage |}
  end.

(** What the component shows when the run is over. *)
Record UiState := {
  passportData : option PassportData;
  error : option jsstring
}.

(** [extractData] on the page images of the selected file: the [try] block
    with its [catch]; the state starts with no record and no error. *)
Definition extractData (imageSrcs : list image) : UiState * list event :=
  match extractBody imageSrcs [] with
  | (Returned data, log) => ({| passportData := Some data; error := None |}, log)
  | (Thrown err, log) =>
      ({| passportData := None; error := Some (orElse (message err) defaultMessage) |}, log)
  end.

(** How often the worker was released. *)
Definition isTerminate (ev : event) : bool :=
  match ev with
  | Terminate => true
  | _ => false
  end.

Definition releases (log : list event) : nat := length (filter isTerminate log).

(** A computation that does not release the worker. *)
Definition keepsWorker (A : Type) (m : M A) : Prop :=
  forall log r log', m log = (r, log') -> releases log' = releases log.

End Run.

Arguments CreateWorker {image}.
Arguments SetParameters {image}.
Arguments Preprocess {image} src cropBottom.
Arguments Recognize {image} img.
Arguments Terminate {image}.
Arguments getFullYear {image} w.
Arguments toUpperCase {image} w.
Arguments createWorker {image} w.
Arguments setParameters {image} w.
Arguments preprocessImageForMRZ {image} w src cropBottom.
Arguments recognize {image} w img.
Arguments terminate {image} w.
Arguments ret {image A} a log.
Arguments throw {image A} e log.
Arguments bind {image A B} m k log.
Arguments call {image A} ev answer log.
Arguments tryOrNull {image A} m log.
Arguments pass1 {image} w src log.
Arguments pass2 {image} w src log.
Arguments pass3 {image} w src log.
Arguments fromPass2 {image} w src log.
Arguments scanPage {image} w src log.
Arguments scanPages {image} w imageSrcs log.
Arguments extractBody {image} w imageSrcs log.
Arguments extractData {image} w imageSrcs.
Arguments isTerminate {image} ev.
Arguments releases {image} log.
Arguments keepsWorker {image A} m.

(* ------------------------------------------------------------------ *)
(** ** Inputs of the examples *)
(* ------------------------------------------------------------------ *)

(** A first line that was read correctly. *)
Definition fillerBetweenLetters : jsstring :=
  lit "P<UTOERIKSSON<<ANNA<MARIA<<<<<<<<<<<<<<<<<<<".

(** A name section with three fillers in a row and a misread tail. *)
Definition tripleFillerLine : jsstring :=
  lit "P<UTOERIKSSON<<<ANNACCCCCCCCCCCCCCCCCCCCCCCC".

(** A transcript with a heading and two candidate pairs. *)
Definition twoCandidates : jsstring :=
  lit "PASSPORT" ++ [NEWLINE]
  ++ lit "p<utoeriksson<<anna<maria<<<<<<<<<<<<<<<<" ++ [NEWLINE]
  ++ lit "L898902C36UTO7408122F1204159ZE184226B<<<<<10" ++ [NEWLINE]
  ++ lit "P<UTOSMITH<<JOHN<<<<<<<<<<<<<<<<<<<<<<<<<<<<" ++ [NEWLINE]
  ++ lit "X123456785UTO8001014M2501017<<<<<<<<<<<<<<06".


(** A run for the examples: preprocessing succeeds, the OCR of the first
    original image fails, the second page shows the ICAO specimen, and
    nothing else is legible. *)
Definition icaoTranscript : jsstring := icaoLine1 ++ [NEWLINE] ++ icaoLine2.

(** A heading that ends in a full stop, above the ICAO specimen. *)
Definition headedTranscript : jsstring :=
  lit "REPUBLIC OF UTOPIA." ++ [NEWLINE] ++ icaoLine1 ++ [NEWLINE] ++ icaoLine2.

Definition ocrFailure : Exn := {| message := lit "OCR failed" |}.

Definition failingWorld : World nat :=
  {| getFullYear := 2024;
     toUpperCase := asciiToUpperCase;
     createWorker := Returned tt;
     setParameters := Returned tt;
     preprocessImageForMRZ := fun src cropBottom =>
       Returned (if cropBottom then 100 + src else 200 + src);
     recognize := fun img =>
       if img =? 1 then Thrown ocrFailure
       else if img =? 2 then Returned icaoTranscript
       else Returned [];
     terminate := Returned tt |}.

(* ------------------------------------------------------------------ *)
(** ** Notions used by the further properties *)
(* ------------------------------------------------------------------ *)

(** The only change the corrector makes to a character: one of C, E, L, A
    becomes a filler. *)
Definition keptOrFiller (c c' : codeunit) : Prop :=
  c' = c \/ (isCELA c = true /\ c' = FILLER).

(** A first line whose name section was read without a single filler and
    ends in the run CCCE. *)
Definition misreadTailLine : jsstring :=
  lit "P<UTOERIKSSONXANNAXMARIAXXXXXXXXXXXXXXXXCCCE".

(** A name as the MRZ writes it: words of capital letters, with a single
    filler between two words. *)
Fixpoint isNamePart (s : jsstring) : bool :=
  match s with
  | [] => false
  | c :: t =>
      isUpper c &&
      match t with
      | [] => true
      | d :: t' => if isFiller d then isNamePart t' else isNamePart t
      end
  end.

(** The first line of an MRZ: the document code and issuing state, the
    surname, the separator, the given names and the padding. *)
Definition nameLine (prefix surname given : jsstring) (padding : nat) : jsstring :=
  prefix ++ surname ++ lit "<<" ++ given ++ repeat FILLER padding.

(** A capital letter other than C. *)
Definition isUpperNotC (c : codeunit) : bool := isUpper c && negb (c =? LETTER_C)%N.

(** A first line whose separator was read as CC. *)
Definition misreadSeparatorLine : jsstring :=
  lit "P<UTOERIKSSONCCANNA<<<<<<<<<<<<<<<<<<<<<<<<<".

(** The look-alikes of the filler that the locator rewrites. *)
Definition isLookAlike (c : codeunit) : bool :=
  isChar GUILLEMET c || isChar (ch "[") c || isChar (ch "]") c
  || isChar (ch "(") c || isChar (ch ")") c.

(** A transcript that lost the line break between the two MRZ lines. *)
Definition unbrokenTranscript : jsstring := lit "MRZ" ++ icaoLine1 ++ icaoLine2.

(** The OCR calls in a log. *)
Definition isRecognize {image : Type} (ev : event image) : bool :=
  match ev with
  | Recognize _ => true
  | _ => false
  end.

Definition recognitions {image : Type} (log : list (event image)) : nat :=
  length (filter isRecognize log).

(** A computation whose result and calls do not depend on the calls made
    before it: it only adds to the log. *)
Definition appendsOnly {image A : Type} (m : M image A) : Prop :=
  forall log, m log = (fst (m []), log ++ snd (m [])).

(** A computation that makes at most [n] OCR calls. *)
Definition atMostOcr {image A : Type} (n : nat) (m : M image A) : Prop :=
  forall log r log', m log = (r, log') -> recognitions log' <= recognitions log + n.

(** A run delivers only what an OCR call of its own returned. *)
Definition fromTranscript {image : Type} (w : World image)
    (m : M image (option (jsstring * jsstring))) : Prop :=
  forall log lines log',
    m log = (Returned (Some lines), log') ->
    exists img text,
      In (Recognize img) log' /\ recognize w img = Returned text
      /\ extractMRZ (toUpperCase w) text = Some lines.

(** A world whose worker cannot be configured. *)
Definition unconfiguredWorld : World nat :=
  {| getFullYear := 2024;
     toUpperCase := asciiToUpperCase;
     createWorker := Returned tt;
     setParameters := Thrown ocrFailure;
     preprocessImageForMRZ := fun src _ => Returned src;
     recognize := fun _ => Returned icaoTranscript;
     terminate := Returned tt |}.

(* ------------------------------------------------------------------ *)
(** ** The run of the earlier copy (src/src/App.tsx, extractData) *)
(* ------------------------------------------------------------------ *)

(** The earlier copy has no worker of its own and no preprocessing: every
    page is given to [Tesseract.recognize] as it is, inside the one [try]
    block. *)
Module LegacyRun.

Section Run.

Variable image : Type.
Variable w : World image.

(** The [for] loop over the pages, with its [break]. *)
Fixpoint scanPages (imageSrcs : list image) : M image (option Legacy.PassportData) :=
  match imageSrcs with
  | [] => ret None
  | src :: rest =>
      bind (call (Recognize src) (recognize w src)) (fun text =>
        match Legacy.extractMRZ (toUpperCase w) text with
        | Some mrzLines => ret (Some (Legacy.parseMRZ (getFullYear w) mrzLines))
        | None => scanPages rest
        end)
  end.

Definition extractBody (imageSrcs : list image) : M image Legacy.PassportData :=
  bind (scanPages imageSrcs) (fun foundData =>
    match foundData with
    | Some data => ret data
    | None => throw {| message := notFoundMessage |}
    end).

Record UiState := {
  passportData : option Legacy.PassportData;
  error : option jsstring
}.

Definition extractData (imageSrcs : list image) : UiState * list (event image) :=
  match extractBody imageSrcs [] with
  | (Returned data, log) => ({| passportData := Some data; error := None |}, log)
  | (Thrown err, log) =>
      ({| passportData := None; error := Some (orElse (message err) defaultMessage) |}, log)
  end.

End Run.

Arguments scanPages {image} w imageSrcs log.
Arguments extractBody {image} w imageSrcs log.
Arguments extractData {image} w imageSrcs.

End LegacyRun.
(* ------------------------------------------------------------------ *)
(** ** Properties of the corrector *)
(* ------------------------------------------------------------------ *)

Section ReplaceFirst.

Variable m : jsstring -> option (nat * jsstring).

Lemma replaceFirst_length :
  lengthPreserving m -> forall s, length (replaceFirst m s) = length s.
Proof.
  intros Hm s. induction s as [|c t IH]; simpl.
  - destruct (m []) as [[n r]|] eqn:E; [|reflexivity].
    apply Hm in E. destruct E as [E1 E2]. simpl in E2.
    rewrite length_app, skipn_nil. cbn [length] in *. lia.
  - destruct (m (c :: t)) as [[n r]|] eqn:E.
    + apply Hm in E. destruct E as [E1 E2].
      rewrite length_app, length_skipn. cbn [length] in *. lia.
    + simpl. now rewrite IH.
Qed.

Lemma replaceFirst_no_match s :
  test (matches m) s = false ->
  replaceFirst m s = s.
Proof.
  induction s as [|c t IH]; simpl; intros H.
  - unfold matches in H. destruct (m []); [discriminate|reflexivity].
  - unfold matches in H at 1. destruct (m (c :: t)); [discriminate|].
    simpl in H. now rewrite IH.
Qed.

End ReplaceFirst.

Lemma trailingRunAt_lengthPreserving : lengthPreserving trailingRunAt.
Proof.
  intros s n r. unfold trailingRunAt.
  destruct (_ && _); [|discriminate].
  intros E. injection E as <- <-. now rewrite repeat_length.
Qed.

Lemma letterCCAt_lengthPreserving : lengthPreserving letterCCAt.
Proof.
  intros s n r. unfold letterCCAt.
  destruct s as [|a [|b [|c [|d t]]]]; try discriminate.
  destruct (_ && _); [|discriminate].
  intros E. injection E as <- <-. simpl. split; [reflexivity|lia].
Qed.

Lemma isCELA_filler : isCELA FILLER = false.
Proof. reflexivity. Qed.

(** A string that holds a filler is not a run of [CELA]. *)
Lemma forallb_isCELA_filler s : In FILLER s -> forallb isCELA s = false.
Proof.
  induction s as [|c t IH]; simpl; [tauto|].
  intros [->|H].
  - reflexivity.
  - rewrite (IH H). apply andb_false_r.
Qed.

Lemma trailingRunAt_fillers n : trailingRunAt (repeat FILLER n) = None.
Proof.
  unfold trailingRunAt. destruct n as [|n]; [reflexivity|].
  rewrite (forallb_isCELA_filler (repeat FILLER (S n))) by (simpl; auto).
  now rewrite andb_false_r.
Qed.

Lemma replaceFirst_trailing_fillers n :
  replaceFirst trailingRunAt (repeat FILLER n) = repeat FILLER n.
Proof.
  induction n as [|n IH].
  - reflexivity.
  - change (repeat FILLER (S n)) with (FILLER :: repeat FILLER n) at 1.
    cbn [replaceFirst].
    change (FILLER :: repeat FILLER n) with (repeat FILLER (S n)) at 1.
    rewrite trailingRunAt_fillers. now rewrite IH.
Qed.

(** Step 1 leaves the string as it is or writes a filler. *)
Lemma replaceFirst_trailing_cases s :
  replaceFirst trailingRunAt s = s \/ In FILLER (replaceFirst trailingRunAt s).
Proof.
  induction s as [|c t IH].
  - left. reflexivity.
  - cbn [replaceFirst]. destruct (trailingRunAt (c :: t)) as [[n r]|] eqn:E.
    + right. unfold trailingRunAt in E.
      destruct (_ && _); [|discriminate]. injection E as <- <-.
      simpl. auto.
    + destruct IH as [IH|IH]; [left; now rewrite IH | right; now right].
Qed.

Lemma replaceFirst_trailing_idem s :
  replaceFirst trailingRunAt (replaceFirst trailingRunAt s)
  = replaceFirst trailingRunAt s.
Proof.
  induction s as [|c t IH].
  - reflexivity.
  - cbn [replaceFirst]. destruct (trailingRunAt (c :: t)) as [[n r]|] eqn:E.
    + unfold trailingRunAt in E.
      destruct (_ && _); [|discriminate]. injection E as <- <-.
      change (S (length t)) with (length (c :: t)).
      rewrite skipn_all, app_nil_r.
      apply (replaceFirst_trailing_fillers (S (length t))).
    + cbn [replaceFirst].
      assert (H : trailingRunAt (c :: replaceFirst trailingRunAt t) = None).
      { destruct (replaceFirst_trailing_cases t) as [Ht|Ht].
        - now rewrite Ht.
        - unfold trailingRunAt.
          rewrite (forallb_isCELA_filler (c :: _)) by now right.
          now rewrite andb_false_r. }
      rewrite H, IH. reflexivity.
Qed.

(** Step 2, when it applies, writes a separator between two letters. *)
Lemma replaceFirst_letterCC_sep s :
  test (matches letterCCAt) s = true ->
  test sepAt (replaceFirst letterCCAt s) = true.
Proof.
  induction s as [|c t IH]; cbn [test replaceFirst]; unfold matches at 1.
  - simpl. discriminate.
  - destruct (letterCCAt (c :: t)) as [[n r]|] eqn:E.
    + intros _. unfold letterCCAt in E.
      destruct t as [|b [|c' [|d t']]]; try discriminate.
      destruct (isUpper c && (b =? LETTER_C)%N && (c' =? LETTER_C)%N && isUpper d) eqn:G;
        [|discriminate].
      injection E as <- <-.
      apply andb_prop in G. destruct G as [G Hd].
      apply andb_prop in G. destruct G as [G _].
      apply andb_prop in G. destruct G as [Ha _].
      cbn [app test sepAt]. rewrite Ha, Hd. reflexivity.
    + simpl orb. intros H. cbn [test]. rewrite (IH H). apply orb_true_r.
Qed.

Lemma substring_0_5 line : substring 0 5 line = firstn 5 line.
Proof. reflexivity. Qed.

Lemma name_section_rebuilt line cleaned :
  5 <= length line ->
  substringFrom 5 (substring 0 5 line ++ cleaned) = cleaned
  /\ substring 0 5 (substring 0 5 line ++ cleaned) = substring 0 5 line.
Proof.
  intros H. rewrite !substring_0_5. unfold substringFrom.
  assert (L : length (firstn 5 line) = 5) by (rewrite length_firstn; lia).
  split.
  - rewrite skipn_app, L, skipn_all2 by lia. reflexivity.
  - rewrite firstn_app, L, firstn_all2 by lia. simpl. apply app_nil_r.
Qed.

(** The corrector keeps the length of the line. *)
Lemma cleanMRZLine1_length line : length (cleanMRZLine1 line) = length line.
Proof.
  unfold cleanMRZLine1.
  destruct (Nat.ltb_spec (length line) 44); [reflexivity|].
  destruct (test sepAt _); [reflexivity|].
  destruct (_ || _); [reflexivity|].
  rewrite length_app, substring_0_5, length_firstn.
  assert (length (substringFrom 5 line) = length line - 5)
    by (unfold substringFrom; apply length_skipn).
  destruct (negb _).
  - rewrite 2 replaceFirst_length
      by auto using trailingRunAt_lengthPreserving, letterCCAt_lengthPreserving.
    lia.
  - rewrite replaceFirst_length by apply trailingRunAt_lengthPreserving. lia.
Qed.

Lemma cleanMRZLine1_unfold line :
  cleanMRZLine1 line =
  if (length line <? 44) || fillerEvidence (substringFrom 5 line) then line
  else substring 0 5 line ++ repairName (substringFrom 5 line).
Proof.
  unfold cleanMRZLine1, fillerEvidence, repairName.
  destruct (_ <? _); [reflexivity|].
  destruct (test sepAt (substringFrom 5 line)); [reflexivity|].
  destruct (_ || _); reflexivity.
Qed.

(** A repaired name section is left alone by a second repair unless a
    guard stops it first. *)
Lemma repairName_stable ns :
  fillerEvidence (repairName ns) = false -> repairName (repairName ns) = repairName ns.
Proof.
  unfold fillerEvidence. intros H. apply orb_false_elim in H. destruct H as [S2 _].
  unfold repairName in *. set (c1 := replaceFirst trailingRunAt ns) in *.
  destruct (test sepAt c1) eqn:S1; simpl negb in *; cbv iota in *.
  - congruence.
  - destruct (test (matches letterCCAt) c1) eqn:T.
    + apply replaceFirst_letterCC_sep in T. congruence.
    + assert (E2 : replaceFirst letterCCAt c1 = c1) by now apply replaceFirst_no_match.
      assert (E1 : replaceFirst trailingRunAt c1 = c1)
        by apply replaceFirst_trailing_idem.
      rewrite E2, E1, S1. exact E2.
Qed.

Lemma cleanMRZLine1_idempotent line :
  cleanMRZLine1 (cleanMRZLine1 line) = cleanMRZLine1 line.
Proof.
  destruct ((length line <? 44) || fillerEvidence (substringFrom 5 line)) eqn:G.
  - assert (E : cleanMRZLine1 line = line) by now rewrite cleanMRZLine1_unfold, G.
    now rewrite !E.
  - assert (E : cleanMRZLine1 line
                = substring 0 5 line ++ repairName (substringFrom 5 line))
      by now rewrite cleanMRZLine1_unfold, G.
    rewrite E. apply orb_false_elim in G. destruct G as [Hlen _].
    apply Nat.ltb_ge in Hlen.
    destruct (name_section_rebuilt line (repairName (substringFrom 5 line)))
      as [Hns Hpre]; [lia|].
    rewrite cleanMRZLine1_unfold, Hns, Hpre.
    destruct (_ <? 44); [reflexivity|]. simpl orb.
    destruct (fillerEvidence (repairName _)) eqn:G'; [reflexivity|].
    now rewrite repairName_stable.
Qed.

(** *** The earlier corrector *)

Lemma includes_cons p c s :
  includes p (c :: s) = startsWith p (c :: s) || includes p s.
Proof. reflexivity. Qed.

Lemma legacy_cleanMRZLine1_unfold line :
  Legacy.cleanMRZLine1 line =
  if (length line <? 44) || includes (lit "<<") (substringFrom 5 line) then line
  else substring 0 5 line ++ Legacy.repairName (substringFrom 5 line).
Proof.
  unfold Legacy.cleanMRZLine1, Legacy.repairName.
  destruct (_ <? _); [reflexivity|].
  destruct (includes _ (substringFrom 5 line)); reflexivity.
Qed.

Lemma fillerTail_cases s :
  replaceFirst Legacy.fillerTailAt s = s
  \/ includes (lit "<<") (replaceFirst Legacy.fillerTailAt s) = true.
Proof.
  induction s as [|c t IH].
  - left. reflexivity.
  - cbn [replaceFirst].
    destruct (Legacy.fillerTailAt (c :: t)) as [[n r]|] eqn:E.
    + right. unfold Legacy.fillerTailAt in E.
      destruct t as [|b rest]; [discriminate|].
      destruct (_ && _); [|discriminate]. injection E as <- <-.
      reflexivity.
    + destruct IH as [IH|IH].
      * left. now rewrite IH.
      * right. rewrite includes_cons, IH. apply orb_true_r.
Qed.

Lemma lastCC_includes t t' :
  Legacy.lastCC t = Some t' -> includes (lit "<<") t' = true.
Proof.
  revert t'. induction t as [|c t IH]; intros t'; cbn [Legacy.lastCC]; [discriminate|].
  destruct (if Legacy.isLineTerminator c then None else Legacy.lastCC t) as [u|] eqn:E.
  - intros H. injection H as <-.
    assert (Hu : Legacy.lastCC t = Some u)
      by (destruct (Legacy.isLineTerminator c); [discriminate|exact E]).
    rewrite includes_cons, (IH _ Hu). apply orb_true_r.
  - destruct (_ && _); [|discriminate].
    intros H. injection H as <-. reflexivity.
Qed.

Lemma restoreSeparator_cases s :
  Legacy.restoreSeparator s = s
  \/ includes (lit "<<") (Legacy.restoreSeparator s) = true.
Proof.
  destruct s as [|c t]; [now left|]. unfold Legacy.restoreSeparator.
  destruct (Legacy.isLineTerminator c); [now left|].
  destruct (Legacy.lastCC t) as [t'|] eqn:E; [|now left].
  right. rewrite includes_cons, (lastCC_includes _ _ E). apply orb_true_r.
Qed.

Lemma legacy_repairName_cases ns :
  Legacy.repairName ns = ns \/ includes (lit "<<") (Legacy.repairName ns) = true.
Proof.
  unfold Legacy.repairName.
  destruct (includes (lit "<<") (replaceFirst Legacy.fillerTailAt ns)) eqn:I; simpl negb;
    cbv iota.
  - now right.
  - destruct (fillerTail_cases ns) as [E|E]; [|congruence]. rewrite E.
    apply restoreSeparator_cases.
Qed.

Lemma legacy_cleanMRZLine1_idempotent line :
  Legacy.cleanMRZLine1 (Legacy.cleanMRZLine1 line) = Legacy.cleanMRZLine1 line.
Proof.
  destruct ((length line <? 44) || includes (lit "<<") (substringFrom 5 line)) eqn:G.
  - assert (E : Legacy.cleanMRZLine1 line = line)
      by now rewrite legacy_cleanMRZLine1_unfold, G.
    now rewrite !E.
  - assert (E : Legacy.cleanMRZLine1 line
                = substring 0 5 line ++ Legacy.repairName (substringFrom 5 line))
      by now rewrite legacy_cleanMRZLine1_unfold, G.
    apply orb_false_elim in G. destruct G as [Hlen _].
    apply Nat.ltb_ge in Hlen.
    destruct (legacy_repairName_cases (substringFrom 5 line)) as [R|R].
    + assert (L : substring 0 5 line ++ Legacy.repairName (substringFrom 5 line) = line)
        by (rewrite R; apply firstn_skipn).
      rewrite L in E. now rewrite !E.
    + rewrite E.
      destruct (name_section_rebuilt line (Legacy.repairName (substringFrom 5 line)))
        as [Hns _]; [lia|].
      rewrite legacy_cleanMRZLine1_unfold, Hns, R. now rewrite orb_true_r.
Qed.

Lemma legacy_cleanMRZLine1_noop line :
  includes (lit "<<") (substringFrom 5 line) = true -> Legacy.cleanMRZLine1 line = line.
Proof.
  intros H. rewrite legacy_cleanMRZLine1_unfold, H. now rewrite orb_true_r.
Qed.

Lemma test_weaken (m1 m2 : jsstring -> bool) s :
  (forall x, m1 x = true -> test m2 x = true) -> test m1 s = true -> test m2 s = true.
Proof.
  intros Hm. induction s as [|c t IH]; cbn [test]; intros H.
  - rewrite orb_false_r in H. apply Hm in H. exact H.
  - apply orb_prop in H. destruct H as [H|H].
    + apply Hm in H. exact H.
    + rewrite (IH H). apply orb_true_r.
Qed.

(** Every guard of the corrector sees a [<<] in the name section. *)
Lemma fillerEvidence_includes ns :
  fillerEvidence ns = true -> includes (lit "<<") ns = true.
Proof.
  unfold fillerEvidence, includes. intros H.
  apply orb_prop in H. destruct H as [H|H]; [|apply orb_prop in H; destruct H as [H|H]].
  - revert H. apply test_weaken. intros x Hx.
    destruct x as [|a [|b [|c [|d x]]]]; try discriminate. simpl in Hx.
    apply andb_prop in Hx. destruct Hx as [Hx _].
    apply andb_prop in Hx. destruct Hx as [Hx Hc].
    apply andb_prop in Hx. destruct Hx as [_ Hb].
    unfold isFiller in *. apply N.eqb_eq in Hb, Hc. subst.
    cbn [test]. rewrite orb_true_iff. right. reflexivity.
  - revert H. apply test_weaken. intros x Hx.
    destruct x as [|a [|b [|c [|d x]]]]; try discriminate. simpl in Hx.
    apply andb_prop in Hx. destruct Hx as [Hx Hc].
    apply andb_prop in Hx. destruct Hx as [_ Hb].
    unfold isFiller in *. apply N.eqb_eq in Hb, Hc. subst.
    cbn [test]. rewrite orb_true_iff. right. reflexivity.
  - destruct ns as [|a t]; cbn [test]; rewrite H; reflexivity.
Qed.

(** C4 (as amended): a line of at least 44 characters whose name section
    shows one of the three patterns the corrector looks for (a [<<] between
    two letters, a letter followed by [<<] at the very end, or [<<] at the
    very start) is returned unchanged; the earlier copy of the corrector
    returns the line unchanged whenever the name section holds [<<]. *)
Theorem cleanMRZLine1_noop line :
  44 <= length line ->
  (fillerEvidence (substringFrom 5 line) = true -> cleanMRZLine1 line = line)
  /\ (includes (lit "<<") (substringFrom 5 line) = true ->
      Legacy.cleanMRZLine1 line = line).
Proof.
  intros _. split.
  - intros H. rewrite cleanMRZLine1_unfold, H. now rewrite orb_true_r.
  - apply legacy_cleanMRZLine1_noop.
Qed.

Lemma cleanMRZLine1_noop_witness :
  cleanMRZLine1 fillerBetweenLetters = fillerBetweenLetters
  /\ Legacy.cleanMRZLine1 fillerBetweenLetters = fillerBetweenLetters.
Proof.
  assert (L : 44 <= length fillerBetweenLetters) by (vm_compute; lia).
  destruct (cleanMRZLine1_noop fillerBetweenLetters L) as [H1 H2].
  split; [apply H1 | apply H2]; vm_compute; reflexivity.
Defined.

(** C4 fails as stated: the name section holds [<<], and the line changes. *)
Lemma cleanMRZLine1_changes_line_with_filler :
  44 <= length tripleFillerLine
  /\ includes (lit "<<") (substringFrom 5 tripleFillerLine) = true
  /\ cleanMRZLine1 tripleFillerLine
     = lit "P<UTOERIKSSON<<<ANN<<<<<<<<<<<<<<<<<<<<<<<<<"
  /\ cleanMRZLine1 tripleFillerLine <> tripleFillerLine.
Proof.
  split; [vm_compute; lia|]. split; [vm_compute; reflexivity|].
  split; [vm_compute; reflexivity|]. vm_compute. discriminate.
Qed.

(** C5: the corrector is idempotent, in both copies of the component. *)
Theorem cleanMRZLine1_idem line :
  cleanMRZLine1 (cleanMRZLine1 line) = cleanMRZLine1 line
  /\ Legacy.cleanMRZLine1 (Legacy.cleanMRZLine1 line) = Legacy.cleanMRZLine1 line.
Proof.
  split; [apply cleanMRZLine1_idempotent | apply legacy_cleanMRZLine1_idempotent].
Qed.

(* ------------------------------------------------------------------ *)
(** ** Properties of the decoder *)
(* ------------------------------------------------------------------ *)

Lemma existsb_isFiller s : existsb isFiller s = true <-> In FILLER s.
Proof.
  rewrite existsb_exists. unfold isFiller. split.
  - intros [x [Hx E]]. apply N.eqb_eq in E. now subst.
  - intros H. exists FILLER. split; [exact H|apply N.eqb_refl].
Qed.

Lemma replaceAll_char_map k r s :
  replaceAll (isChar k) [r] s = map (fun c => if (c =? k)%N then r else c) s.
Proof.
  unfold replaceAll, isChar. induction s as [|c t IH]; [reflexivity|].
  cbn [flat_map map]. rewrite IH. now destruct (c =? k)%N.
Qed.

(** The four replacements amount to one pass with the table. *)
Lemma fixDigits_map s : fixDigits s = map ocrDigit s.
Proof.
  unfold fixDigits. change (lit "2") with [ch "2"]. change (lit "5") with [ch "5"].
  change (lit "1") with [ch "1"]. change (lit "0") with [ch "0"].
  rewrite !replaceAll_char_map, !map_map. apply map_ext. intros c.
  unfold ocrDigit.
  destruct (N.eqb_spec c (ch "O")) as [->|HO]; [reflexivity|].
  destruct (N.eqb_spec c (ch "I")) as [->|HI]; [reflexivity|].
  destruct (N.eqb_spec c (ch "S")) as [->|HS]; [reflexivity|].
  reflexivity.
Qed.

Lemma fixDigits_length s : length (fixDigits s) = length s.
Proof. rewrite fixDigits_map. apply length_map. Qed.

Lemma formatMRZDate_rejects y s :
  length s <> 6 \/ In FILLER s -> formatMRZDate y s = [].
Proof.
  intros H. unfold formatMRZDate.
  destruct (Nat.eqb_spec (length s) 6) as [E|E]; simpl negb; [|reflexivity].
  destruct H as [H|H]; [contradiction|].
  apply existsb_isFiller in H. now rewrite H.
Qed.

Lemma formatMRZDate_accepts y s :
  length s = 6 -> ~ In FILLER s ->
  formatMRZDate y s =
  match parseInt10 (substring 0 2 (fixDigits s)) with
  | None => fixDigits s
  | Some year =>
      numberToString (if (year >? Z.rem y 100 + 10)%Z then 1900 + year else 2000 + year)%Z
      ++ lit "-" ++ substring 2 4 (fixDigits s) ++ lit "-" ++ substring 4 6 (fixDigits s)
  end.
Proof.
  intros L F. unfold formatMRZDate. rewrite L. simpl negb. simpl orb.
  destruct (existsb isFiller s) eqn:E; [|reflexivity].
  apply existsb_isFiller in E. contradiction.
Qed.

(** C6: the date normaliser returns the empty string unless its input has
    exactly six characters and no filler; otherwise it applies the table
    [O->0, I->1, S->5, Z->2] to every character and, when the first two
    cleaned characters do not parse as a number, returns the six cleaned
    characters. *)
Theorem formatMRZDate_guard_and_fallback y s :
  (length s <> 6 \/ In FILLER s -> formatMRZDate y s = [])
  /\ (length s = 6 -> ~ In FILLER s ->
      fixDigits s = map ocrDigit s
      /\ (parseInt10 (substring 0 2 (fixDigits s)) = None ->
          formatMRZDate y s = fixDigits s /\ length (formatMRZDate y s) = 6)).
Proof.
  split; [apply formatMRZDate_rejects|].
  intros L F. split; [apply fixDigits_map|].
  intros P. rewrite (formatMRZDate_accepts y s L F), P.
  split; [reflexivity|]. now rewrite fixDigits_length.
Qed.

Lemma formatMRZDate_guard_and_fallback_witness :
  formatMRZDate 2024 (lit "74<812") = []
  /\ formatMRZDate 2024 (lit "XO1Z3S") = lit "X01235".
Proof.
  destruct (formatMRZDate_guard_and_fallback 2024 (lit "74<812")) as [H1 _].
  destruct (formatMRZDate_guard_and_fallback 2024 (lit "XO1Z3S")) as [_ H2].
  split.
  - apply H1. right. vm_compute. tauto.
  - destruct H2 as [_ H2].
    + reflexivity.
    + vm_compute. intros H. repeat (destruct H as [H|H]; [discriminate|]). exact H.
    + destruct (H2 eq_refl) as [H3 _]. rewrite H3. reflexivity.
Defined.

Lemma icao_dob y :
  (Z.rem y 100 <= 63)%Z -> formatMRZDate y (lit "740812") = lit "1974-08-12".
Proof.
  intros H. rewrite formatMRZDate_accepts.
  - change (parseInt10 (substring 0 2 (fixDigits (lit "740812")))) with (Some 74%Z).
    cbv beta iota.
    destruct (Z.gtb_spec 74 (Z.rem y 100 + 10)); [reflexivity|lia].
  - reflexivity.
  - vm_compute. intros F. repeat (destruct F as [F|F]; [discriminate|]). exact F.
Qed.

Lemma icao_expiry y :
  (2 <= Z.rem y 100)%Z -> formatMRZDate y (lit "120415") = lit "2012-04-15".
Proof.
  intros H. rewrite formatMRZDate_accepts.
  - change (parseInt10 (substring 0 2 (fixDigits (lit "120415")))) with (Some 12%Z).
    cbv beta iota.
    destruct (Z.gtb_spec 12 (Z.rem y 100 + 10)); [lia|reflexivity].
  - reflexivity.
  - vm_compute. intros F. repeat (destruct F as [F|F]; [discriminate|]). exact F.
Qed.

(** C1 (as amended): for the ICAO specimen and every current year [y] with
    [2 <= y mod 100 <= 63], which holds from 2022 to 2063, the decoder
    returns passport number L898902C3, surname ERIKSSON, given names ANNA
    MARIA, nationality UTO, date of birth 1974-08-12, sex Female and date
    of expiry 2012-04-15; so does the earlier copy of the decoder. *)
Theorem parseMRZ_icao_sample y :
  (2 <= Z.rem y 100 <= 63)%Z ->
  icaoDecoded (parseMRZ y (icaoLine1, icaoLine2))
  /\ Legacy.icaoDecoded (Legacy.parseMRZ y (icaoLine1, icaoLine2)).
Proof.
  intros [Hlo Hhi]. split.
  - unfold icaoDecoded.
    change (dateOfBirth (parseMRZ y (icaoLine1, icaoLine2)))
      with (formatMRZDate y (lit "740812")).
    change (dateOfExpiry (parseMRZ y (icaoLine1, icaoLine2)))
      with (formatMRZDate y (lit "120415")).
    rewrite (icao_dob y Hhi), (icao_expiry y Hlo).
    repeat split; vm_compute; reflexivity.
  - unfold Legacy.icaoDecoded.
    change (Legacy.dateOfBirth (Legacy.parseMRZ y (icaoLine1, icaoLine2)))
      with (formatMRZDate y (lit "740812")).
    change (Legacy.dateOfExpiry (Legacy.parseMRZ y (icaoLine1, icaoLine2)))
      with (formatMRZDate y (lit "120415")).
    rewrite (icao_dob y Hhi), (icao_expiry y Hlo).
    repeat split; vm_compute; reflexivity.
Qed.

Lemma parseMRZ_icao_sample_witness :
  icaoDecoded (parseMRZ 2022 (icaoLine1, icaoLine2))
  /\ Legacy.icaoDecoded (Legacy.parseMRZ 2022 (icaoLine1, icaoLine2)).
Proof.
  apply (parseMRZ_icao_sample 2022). vm_compute. split; discriminate.
Defined.

(** C1 fails as stated: in 2064 the two-digit year 74 is no longer more
    than ten years ahead of the current one, and the date of birth is read
    as 2074. *)
Lemma parseMRZ_icao_sample_in_2064 :
  (2064 >= 2022)%Z
  /\ dateOfBirth (parseMRZ 2064 (icaoLine1, icaoLine2)) = lit "2074-08-12"
  /\ ~ icaoDecoded (parseMRZ 2064 (icaoLine1, icaoLine2)).
Proof.
  split; [lia|]. split; [vm_compute; reflexivity|].
  unfold icaoDecoded. intros (_ & _ & _ & _ & H & _). vm_compute in H. discriminate.
Qed.

(** The window of C1 is exact. *)
Lemma parseMRZ_icao_sample_only y :
  icaoDecoded (parseMRZ y (icaoLine1, icaoLine2)) -> (2 <= Z.rem y 100 <= 63)%Z.
Proof.
  unfold icaoDecoded. intros (_ & _ & _ & _ & Hb & _ & He).
  change (dateOfBirth (parseMRZ y (icaoLine1, icaoLine2)))
    with (formatMRZDate y (lit "740812")) in Hb.
  change (dateOfExpiry (parseMRZ y (icaoLine1, icaoLine2)))
    with (formatMRZDate y (lit "120415")) in He.
  rewrite formatMRZDate_accepts in Hb, He;
    try reflexivity;
    try (vm_compute; intros F; repeat (destruct F as [F|F]; [discriminate|]); exact F).
  change (parseInt10 (substring 0 2 (fixDigits (lit "740812")))) with (Some 74%Z) in Hb.
  change (parseInt10 (substring 0 2 (fixDigits (lit "120415")))) with (Some 12%Z) in He.
  cbv beta iota in Hb, He.
  destruct (Z.gtb_spec 74 (Z.rem y 100 + 10)); [|vm_compute in Hb; discriminate].
  destruct (Z.gtb_spec 12 (Z.rem y 100 + 10)); [vm_compute in He; discriminate|].
  lia.
Qed.

(** C10: the decoder returns its second line as it received it, and the
    first line as the corrector returns it; this holds for both copies. *)
Theorem parseMRZ_lines y line1 line2 :
  mrzLine2 (parseMRZ y (line1, line2)) = line2
  /\ mrzLine1 (parseMRZ y (line1, line2)) = cleanMRZLine1 line1
  /\ Legacy.mrzLine2 (Legacy.parseMRZ y (line1, line2)) = line2
  /\ Legacy.mrzLine1 (Legacy.parseMRZ y (line1, line2)) = Legacy.cleanMRZLine1 line1.
Proof. repeat split. Qed.

(* ------------------------------------------------------------------ *)
(** ** Properties of the locator *)
(* ------------------------------------------------------------------ *)

Lemma substring_0 n s : substring 0 n s = firstn n s.
Proof.
  unfold substring. rewrite Nat.min_0_l, Nat.max_0_l, Nat.sub_0_r. reflexivity.
Qed.

Lemma pad44_length l : length (pad44 l) = 44.
Proof.
  unfold pad44, padEnd. rewrite substring_0.
  rewrite length_firstn, length_app, repeat_length. lia.
Qed.

Lemma pad44_startsWithP l : startsWithP l = true -> startsWithP (pad44 l) = true.
Proof.
  destruct l as [|c t]; [discriminate|]. intros H. exact H.
Qed.

Lemma forallb_firstn (p : N -> bool) n l :
  forallb p l = true -> forallb p (firstn n l) = true.
Proof.
  revert l. induction n as [|n IH]; intros [|c t]; simpl; try reflexivity.
  intros H. apply andb_prop in H. destruct H as [-> H]. now apply IH.
Qed.

Lemma forallb_skipn (p : N -> bool) n l :
  forallb p l = true -> forallb p (skipn n l) = true.
Proof.
  revert l. induction n as [|n IH]; intros [|c t]; simpl; try reflexivity; try easy.
  intros H. apply andb_prop in H. destruct H as [_ H]. now apply IH.
Qed.

Lemma pad44_alphabet l :
  forallb isMrzChar l = true -> forallb isMrzChar (pad44 l) = true.
Proof.
  intros H. unfold pad44, padEnd. rewrite substring_0.
  apply forallb_firstn. rewrite forallb_app, H. simpl.
  apply forallb_forall. intros x Hx. apply repeat_spec in Hx. now subst.
Qed.

(** The loop body, with its two nested tests read as one. *)
Lemma scanPairs_cons a b rest :
  scanPairs (a :: b :: rest) =
  if qualifies a b then Some (pad44 a, pad44 b) else scanPairs (b :: rest).
Proof.
  cbn [scanPairs]. unfold qualifies.
  destruct (startsWithP a && (40 <=? length a) && (40 <=? length b)); [|reflexivity].
  simpl andb. reflexivity.
Qed.

Lemma scanPairs_first lines :
  forall i l1 l2,
    nth_error lines i = Some l1 -> nth_error lines (S i) = Some l2 ->
    qualifies l1 l2 = true ->
    exists j m1 m2,
      j <= i /\ nth_error lines j = Some m1 /\ nth_error lines (S j) = Some m2
      /\ qualifies m1 m2 = true
      /\ (forall k, k < j -> rejected lines k)
      /\ scanPairs lines = Some (pad44 m1, pad44 m2).
Proof.
  induction lines as [|a rest IH]; intros i l1 l2 H1 H2 Q.
  - destruct i; discriminate.
  - destruct rest as [|b rest'].
    + destruct i; discriminate.
    + rewrite scanPairs_cons. destruct (qualifies a b) eqn:Qab.
      * exists 0, a, b. repeat split; try reflexivity; try assumption; try lia.
      * destruct i as [|i].
        { simpl in H1, H2. injection H1 as <-. injection H2 as <-. congruence. }
        destruct (IH i l1 l2 H1 H2 Q) as (j & m1 & m2 & Hj & N1 & N2 & Qm & Hrej & Hscan).
        exists (S j), m1, m2. repeat split; try assumption; try lia.
        intros [|k] Hk u v Hu Hv.
        { simpl in Hu, Hv. injection Hu as <-. injection Hv as <-. exact Qab. }
        apply (Hrej k); [lia|exact Hu|exact Hv].
Qed.

(** What the line-pair scan returns has the MRZ shape. *)
Lemma scanPairs_shape lines l1 l2 :
  scanPairs lines = Some (l1, l2) ->
  length l1 = 44 /\ length l2 = 44 /\ startsWithP l1 = true
  /\ (Forall (fun l => forallb isMrzChar l = true) lines ->
      forallb isMrzChar l1 = true /\ forallb isMrzChar l2 = true).
Proof.
  induction lines as [|a rest IH]; [discriminate|].
  destruct rest as [|b rest']; [discriminate|].
  rewrite scanPairs_cons. destruct (qualifies a b) eqn:Q.
  - intros H. injection H as <- <-.
    unfold qualifies in Q.
    apply andb_prop in Q. destruct Q as [Q _].
    apply andb_prop in Q. destruct Q as [Q _].
    apply andb_prop in Q. destruct Q as [P _].
    repeat split; try apply pad44_length.
    + now apply pad44_startsWithP.
    + apply pad44_alphabet. inversion H; assumption.
    + apply pad44_alphabet. inversion H as [|? ? _ H']. inversion H'; assumption.
  - intros H. destruct (IH H) as (L1 & L2 & P & A).
    repeat split; try assumption; apply A; inversion H0; assumption.
Qed.

Lemma mrzBlockAt_shape s l1 l2 :
  mrzBlockAt s = Some (l1, l2) ->
  length l1 = 44 /\ length l2 = 44 /\ startsWithP l1 = true
  /\ forallb isMrzChar l1 = true /\ forallb isMrzChar l2 = true.
Proof.
  unfold mrzBlockAt. destruct (firstn 88 s) as [|p [|q rest]] eqn:B; try discriminate.
  destruct (_ && _) eqn:G; [|discriminate].
  intros H.
  assert (E1 : l1 = firstn 44 (p :: q :: rest)) by congruence.
  assert (E2 : l2 = skipn 44 (p :: q :: rest)) by congruence.
  clear H. subst l1 l2.
  apply andb_prop in G. destruct G as [G Hrest].
  apply andb_prop in G. destruct G as [G Hq].
  apply andb_prop in G. destruct G as [Hlen Hp].
  apply Nat.eqb_eq in Hlen. apply N.eqb_eq in Hp. subst p.
  assert (A : forallb isMrzChar (LETTER_P :: q :: rest) = true).
  { cbn [forallb]. rewrite Hrest.
    unfold isMrzChar at 2. apply orb_prop in Hq.
    destruct Hq as [-> | ->]; [reflexivity|].
    rewrite orb_true_r. reflexivity. }
  split; [rewrite length_firstn; lia|].
  split; [rewrite length_skipn; lia|].
  split; [reflexivity|].
  split; [now apply forallb_firstn | now apply forallb_skipn].
Qed.

Lemma findFirst_some {A : Type} (m : jsstring -> option A) s x :
  findFirst m s = Some x -> exists suffix, m suffix = Some x.
Proof.
  induction s as [|c t IH]; cbn [findFirst].
  - destruct (m []) eqn:E; [|discriminate]. intros H. injection H as <-. now exists [].
  - destruct (m (c :: t)) eqn:E.
    + intros H. injection H as <-. now exists (c :: t).
    + exact IH.
Qed.

(** The line-pair scan comes first in both copies of the locator. *)
Lemma locate_first_pair lines i l1 l2 :
  nth_error lines i = Some l1 -> nth_error lines (S i) = Some l2 ->
  qualifies l1 l2 = true ->
  exists j m1 m2,
    j <= i /\ nth_error lines j = Some m1 /\ nth_error lines (S j) = Some m2
    /\ qualifies m1 m2 = true
    /\ (forall k, k < j -> rejected lines k)
    /\ locate lines = Some (pad44 m1, pad44 m2)
    /\ length (pad44 m1) = 44 /\ length (pad44 m2) = 44.
Proof.
  intros H1 H2 Q.
  destruct (scanPairs_first _ i l1 l2 H1 H2 Q)
    as (j & m1 & m2 & Hj & N1 & N2 & Qm & Hrej & Hscan).
  exists j, m1, m2. repeat split; try assumption; try apply pad44_length.
  unfold locate. now rewrite Hscan.
Qed.

(** C2: when some adjacent pair of normalised lines starts with [P], has
    two lines of at least 40 characters and more than five digits in the
    padded second line, the locator returns the topmost such pair, each
    line padded with fillers and cut to exactly 44 characters. *)
Theorem extractMRZ_first_pair toUpperCase text i l1 l2 :
  nth_error (normalizedLines toUpperCase text) i = Some l1 ->
  nth_error (normalizedLines toUpperCase text) (S i) = Some l2 ->
  qualifies l1 l2 = true ->
  exists j m1 m2,
    j <= i
    /\ nth_error (normalizedLines toUpperCase text) j = Some m1
    /\ nth_error (normalizedLines toUpperCase text) (S j) = Some m2
    /\ qualifies m1 m2 = true
    /\ (forall k, k < j -> rejected (normalizedLines toUpperCase text) k)
    /\ extractMRZ toUpperCase text = Some (pad44 m1, pad44 m2)
    /\ length (pad44 m1) = 44 /\ length (pad44 m2) = 44.
Proof. apply locate_first_pair. Qed.

(** The same for the earlier copy, which normalises the guillemet
    differently. *)
Lemma legacy_extractMRZ_first_pair toUpperCase text i l1 l2 :
  nth_error (Legacy.normalizedLines toUpperCase text) i = Some l1 ->
  nth_error (Legacy.normalizedLines toUpperCase text) (S i) = Some l2 ->
  qualifies l1 l2 = true ->
  exists j m1 m2,
    j <= i
    /\ nth_error (Legacy.normalizedLines toUpperCase text) j = Some m1
    /\ nth_error (Legacy.normalizedLines toUpperCase text) (S j) = Some m2
    /\ qualifies m1 m2 = true
    /\ (forall k, k < j -> rejected (Legacy.normalizedLines toUpperCase text) k)
    /\ Legacy.extractMRZ toUpperCase text = Some (pad44 m1, pad44 m2)
    /\ length (pad44 m1) = 44 /\ length (pad44 m2) = 44.
Proof. apply locate_first_pair. Qed.

Example extractMRZ_twoCandidates :
  extractMRZ asciiToUpperCase twoCandidates
  = Some (lit "P<UTOERIKSSON<<ANNA<MARIA<<<<<<<<<<<<<<<<<<<",
          lit "L898902C36UTO7408122F1204159ZE184226B<<<<<10").
Proof. vm_compute. reflexivity. Qed.

Lemma extractMRZ_first_pair_witness :
  exists j m1 m2,
    j <= 3
    /\ nth_error (normalizedLines asciiToUpperCase twoCandidates) j = Some m1
    /\ nth_error (normalizedLines asciiToUpperCase twoCandidates) (S j) = Some m2
    /\ qualifies m1 m2 = true
    /\ (forall k, k < j -> rejected (normalizedLines asciiToUpperCase twoCandidates) k)
    /\ extractMRZ asciiToUpperCase twoCandidates = Some (pad44 m1, pad44 m2)
    /\ length (pad44 m1) = 44 /\ length (pad44 m2) = 44.
Proof.
  apply (extractMRZ_first_pair asciiToUpperCase twoCandidates 3
           (lit "P<UTOSMITH<<JOHN<<<<<<<<<<<<<<<<<<<<<<<<<<<<")
           (lit "X123456785UTO8001014M2501017<<<<<<<<<<<<<<06"));
    vm_compute; reflexivity.
Defined.

(** *** Transcripts of a whitelisted engine *)

Lemma split_from_chars sep s :
  forall skip cur piece c,
    In piece (split_from sep skip cur s) -> In c piece -> In c cur \/ In c s.
Proof.
  induction s as [|c0 t IH]; intros skip cur piece c Hp Hc.
  - simpl in Hp. destruct Hp as [<-|[]]. left. now apply in_rev.
  - cbn [split_from] in Hp. destruct skip as [|k].
    + destruct (startsWith sep (c0 :: t)).
      * destruct Hp as [<-|Hp]; [left; now apply in_rev|].
        destruct (IH _ _ _ _ Hp Hc) as [[]|H]. right. now right.
      * destruct (IH _ _ _ _ Hp Hc) as [[<-|H]|H].
        -- right. now left.
        -- now left.
        -- right. now right.
    + destruct (IH _ _ _ _ Hp Hc) as [H|H]; [now left|right; now right].
Qed.

Lemma replaceAll_alphabet p r s :
  forallb isMrzChar r = true -> forallb isMrzChar s = true ->
  forallb isMrzChar (replaceAll p r s) = true.
Proof.
  intros Hr. unfold replaceAll. induction s as [|c t IH]; [reflexivity|].
  cbn [forallb flat_map]. intros H. apply andb_prop in H. destruct H as [Hc Ht].
  rewrite forallb_app, (IH Ht), andb_true_r.
  destruct (p c); [exact Hr|]. cbn [forallb]. now rewrite Hc.
Qed.

Lemma strip_space_alphabet s :
  forallb isWhitelisted s = true -> forallb isMrzChar (replaceAll isSpace [] s) = true.
Proof.
  unfold replaceAll. induction s as [|c t IH]; [reflexivity|].
  cbn [forallb flat_map]. intros H. apply andb_prop in H. destruct H as [Hc Ht].
  rewrite forallb_app, (IH Ht), andb_true_r.
  destruct (isSpace c) eqn:S; [reflexivity|].
  unfold isWhitelisted in Hc. rewrite S, orb_false_r in Hc. cbn [forallb]. now rewrite Hc.
Qed.

Lemma normalizeLine_alphabet toUpperCase l :
  toUpperCase l = l -> forallb isWhitelisted l = true ->
  forallb isMrzChar (normalizeLine toUpperCase l) = true.
Proof.
  intros Hup Hl. unfold normalizeLine. rewrite Hup.
  do 5 (apply replaceAll_alphabet; [reflexivity|]).
  now apply strip_space_alphabet.
Qed.

Lemma asciiToUpperCase_whitelisted l :
  forallb isWhitelisted l = true -> asciiToUpperCase l = l.
Proof.
  unfold asciiToUpperCase. induction l as [|c t IH]; [reflexivity|].
  cbn [forallb map]. intros H. apply andb_prop in H. destruct H as [Hc Ht].
  rewrite (IH Ht). f_equal.
  destruct ((97 <=? c)%N && (c <=? 122)%N) eqn:E; [|reflexivity].
  apply andb_prop in E. destruct E as [E1 E2].
  apply N.leb_le in E1, E2.
  unfold isWhitelisted, isMrzChar, isUpper, isDigit, isFiller, isSpace, FILLER in Hc.
  repeat match type of Hc with
         | context [(?a <=? ?b)%N] => destruct (N.leb_spec a b); try lia
         | context [(?a =? ?b)%N] => destruct (N.eqb_spec a b); try lia
         end; discriminate.
Qed.

(** A transcript made of whitelisted characters and white space yields
    lines over the MRZ alphabet, whichever pass finds them. *)
Lemma extractMRZ_whitelisted toUpperCase text l1 l2 :
  (forall l, forallb isWhitelisted l = true -> toUpperCase l = l) ->
  forallb isWhitelisted text = true ->
  extractMRZ toUpperCase text = Some (l1, l2) ->
  forallb isMrzChar l1 = true /\ forallb isMrzChar l2 = true.
Proof.
  intros Hup Htext H.
  assert (A : Forall (fun l => forallb isMrzChar l = true)
                (normalizedLines toUpperCase text)).
  { unfold normalizedLines. apply Forall_forall. intros l Hl.
    apply in_map_iff in Hl. destruct Hl as [piece [<- Hpiece]].
    assert (W : forallb isWhitelisted piece = true).
    { apply forallb_forall. intros c Hc.
      destruct (split_from_chars _ _ _ _ _ _ Hpiece Hc) as [[]|Hin].
      rewrite forallb_forall in Htext. now apply Htext. }
    apply normalizeLine_alphabet; [now apply Hup|exact W]. }
  unfold extractMRZ, locate in H.
  destruct (scanPairs (normalizedLines toUpperCase text)) as [[a b]|] eqn:S.
  - injection H as <- <-. destruct (scanPairs_shape _ _ _ S) as (_ & _ & _ & B). now apply B.
  - apply findFirst_some in H. destruct H as [suffix H].
    apply mrzBlockAt_shape in H. tauto.
Qed.

(** A line of exactly 44 characters is returned as it is. *)
Lemma pad44_exact l : length l = 44 -> pad44 l = l.
Proof.
  intros H. unfold pad44, padEnd. rewrite substring_0, H. cbn [Nat.sub repeat].
  rewrite app_nil_r. apply firstn_all2. lia.
Qed.





(** A heading with a full stop does not spoil the pair below it. *)
Example extractMRZ_below_heading :
  extractMRZ asciiToUpperCase headedTranscript = Some (icaoLine1, icaoLine2)
  /\ Exists (fun l => forallb isMrzChar l = false)
            (normalizedLines asciiToUpperCase headedTranscript)
  /\ forallb isMrzChar icaoLine1 = true /\ forallb isMrzChar icaoLine2 = true.
Proof.
  split; [vm_compute; reflexivity|]. split; [|split; vm_compute; reflexivity].
  apply Exists_cons_hd. vm_compute. reflexivity.
Qed.


(* ------------------------------------------------------------------ *)
(** ** Properties of the Otsu threshold *)
(* ------------------------------------------------------------------ *)

Lemma bump_length v h : length (bump v h) = length h.
Proof.
  revert v. induction h as [|x h IH]; intros v; [reflexivity|].
  destruct v; simpl; [reflexivity|]. now rewrite IH.
Qed.

Lemma bump_nth v h t :
  nth t (bump v h) 0%Z
  = (nth t h 0 + (if ((t =? v) && (t <? length h))%nat then 1 else 0))%Z.
Proof.
  revert v t. induction h as [|x h IH]; intros v t.
  - simpl. destruct t; rewrite andb_false_r; reflexivity.
  - destruct v as [|v], t as [|t]; simpl.
    + reflexivity.
    + lia.
    + lia.
    + rewrite IH. reflexivity.
Qed.

Lemma fold_bump_length values h :
  length (fold_left (fun histogram v => bump v histogram) values h) = length h.
Proof.
  revert h. induction values as [|v values IH]; intros h; [reflexivity|].
  simpl. now rewrite IH, bump_length.
Qed.

Lemma fold_bump_nth values h t :
  nth t (fold_left (fun histogram v => bump v histogram) values h) 0%Z
  = (nth t h 0 + (if (t <? length h)%nat then Z.of_nat (pixels values t) else 0))%Z.
Proof.
  revert h. induction values as [|v values IH]; intros h.
  - simpl. destruct (t <? length h); lia.
  - cbn [fold_left]. rewrite IH, bump_length, bump_nth.
    unfold pixels. cbn [count_occ].
    destruct (Nat.ltb_spec t (length h)); [|rewrite andb_false_r; lia].
    rewrite andb_true_r.
    destruct (Nat.eqb_spec t v) as [->|N].
    + destruct (Nat.eq_dec v v); [lia|contradiction].
    + destruct (Nat.eq_dec v t); [congruence|lia].
Qed.

(** The histogram holds, at every index, the number of pixels of that
    intensity. *)
Lemma histogramOf_counts values :
  histogramOf values = map (fun t => Z.of_nat (pixels values t)) (seq 0 256).
Proof.
  apply (nth_ext _ _ 0%Z (Z.of_nat (pixels values 0))).
  - unfold histogramOf. now rewrite fold_bump_length, length_map, length_seq, repeat_length.
  - intros t Ht. unfold histogramOf in *.
    rewrite fold_bump_length, repeat_length in Ht.
    rewrite fold_bump_nth, repeat_length.
    rewrite (map_nth (fun t => Z.of_nat (pixels values t)) (seq 0 256) 0 t).
    rewrite seq_nth by exact Ht.
    apply Nat.ltb_lt in Ht. rewrite Ht.
    rewrite nth_repeat. reflexivity.
Qed.

Lemma Qgtb_true_iff a b : Qgtb a b = true <-> (b < a)%Q.
Proof.
  unfold Qgtb. rewrite negb_true_iff. split.
  - intros H. apply Qnot_le_lt. intros L. apply Qle_bool_iff in L. congruence.
  - intros H. destruct (Qle_bool a b) eqn:E; [|reflexivity].
    apply Qle_bool_iff in E. now apply Qlt_not_le in H.
Qed.

Lemma Qgtb_false_iff a b : Qgtb a b = false <-> (a <= b)%Q.
Proof.
  unfold Qgtb. rewrite negb_false_iff. apply Qle_bool_iff.
Qed.

Lemma inject_Z_pos z : (0 < z)%Z -> (0 < inject_Z z)%Q.
Proof. intros H. unfold Qlt. simpl. lia. Qed.

(** With one pixel value on each side, the means are the two values. *)
Lemma variance_two_values (A B na nb : Z) :
  (0 < na)%Z -> (0 < nb)%Z -> A <> B ->
  (0 < betweenClassVariance (A * na + B * nb) (A * na) na nb)%Q.
Proof.
  intros Ha Hb Hne. unfold betweenClassVariance.
  replace (A * na + B * nb - A * na)%Z with (B * nb)%Z by ring.
  rewrite !inject_Z_mult.
  assert (Pa : (0 < inject_Z na)%Q) by now apply inject_Z_pos.
  assert (Pb : (0 < inject_Z nb)%Q) by now apply inject_Z_pos.
  assert (Na : ~ (inject_Z na == 0)%Q) by (intros E; rewrite E in Pa; now apply Qlt_irrefl in Pa).
  assert (Nb : ~ (inject_Z nb == 0)%Q) by (intros E; rewrite E in Pb; now apply Qlt_irrefl in Pb).
  assert (E : (inject_Z na * inject_Z nb *
               ((inject_Z A * inject_Z na / inject_Z na - inject_Z B * inject_Z nb / inject_Z nb) *
                (inject_Z A * inject_Z na / inject_Z na - inject_Z B * inject_Z nb / inject_Z nb))
               == inject_Z (na * nb * ((A - B) * (A - B))))%Q).
  { rewrite !inject_Z_mult. unfold Z.sub. rewrite !inject_Z_plus, !inject_Z_opp.
    field. split; assumption. }
  rewrite E. apply inject_Z_pos.
  assert (D : (0 < (A - B) * (A - B))%Z) by (destruct (Z.lt_total A B) as [L|[L|L]]; nia).
  apply Z.mul_pos_pos; [apply Z.mul_pos_pos|]; assumption.
Qed.

Lemma weightedSum_zeros zs :
  forall i rest, Forall (fun h => h = 0%Z) zs ->
            weightedSum i (zs ++ rest) = weightedSum (i + length zs) rest.
Proof.
  induction zs as [|h zs IH]; intros i rest Hz.
  - simpl. now rewrite Nat.add_0_r.
  - inversion Hz as [|? ? Hh Hzs]; subst. cbn [app weightedSum length].
    rewrite (IH (S i) rest Hzs), Z.mul_0_r, Z.add_0_l. f_equal. lia.
Qed.

Lemma weightedSum_all_zeros zs i :
  Forall (fun h => h = 0%Z) zs -> weightedSum i zs = 0%Z.
Proof.
  intros Hz. rewrite <- (app_nil_r zs). now rewrite weightedSum_zeros.
Qed.

(** Thresholds below the darkest pixel are skipped. *)
Lemma otsuLoop_skip total sumAll zs :
  forall t rest st,
    Forall (fun h => h = 0%Z) zs -> weightBg st = 0%Z ->
    otsuLoop total sumAll t (zs ++ rest) st
    = otsuLoop total sumAll (t + length zs) rest st.
Proof.
  induction zs as [|h zs IH]; intros t rest st Hz Hw.
  - simpl. now rewrite Nat.add_0_r.
  - inversion Hz as [|? ? Hh Hzs]; subst. cbn [app otsuLoop length].
    rewrite Hw. cbn [Z.add Z.eqb].
    rewrite (IH (S t) rest _ Hzs) by reflexivity.
    replace (S t + length zs) with (t + S (length zs)) by lia.
    f_equal. destruct st; simpl in *; subst; reflexivity.
Qed.

(** Thresholds between two occupied bins score what the lower bin scored,
    and the strict comparison keeps the earlier one. *)
Lemma otsuLoop_flat total sumAll zs :
  forall t rest st,
    Forall (fun h => h = 0%Z) zs ->
    weightBg st <> 0%Z -> (total - weightBg st)%Z <> 0%Z ->
    maxVariance st
    = betweenClassVariance sumAll (sumBg st) (weightBg st) (total - weightBg st) ->
    otsuLoop total sumAll t (zs ++ rest) st
    = otsuLoop total sumAll (t + length zs) rest st.
Proof.
  induction zs as [|h zs IH]; intros t rest st Hz Hw Hf Hv.
  - simpl. now rewrite Nat.add_0_r.
  - inversion Hz as [|? ? Hh Hzs]; subst. cbn [app otsuLoop length].
    rewrite Z.add_0_r, Z.mul_0_r, Z.add_0_r.
    destruct (Z.eqb_spec (weightBg st) 0); [contradiction|].
    destruct (Z.eqb_spec (total - weightBg st) 0); [contradiction|].
    rewrite <- Hv.
    assert (G : Qgtb (maxVariance st) (maxVariance st) = false)
      by (apply Qgtb_false_iff, Qle_refl).
    rewrite G.
    replace {| sumBg := sumBg st; weightBg := weightBg st;
               maxVariance := maxVariance st; best := best st |} with st
      by (destruct st; reflexivity).
    rewrite (IH (S t) rest st Hzs Hw Hf Hv). f_equal. lia.
Qed.

Lemma map_zeros (f : nat -> Z) l :
  (forall t, In t l -> f t = 0%Z) -> Forall (fun h => h = 0%Z) (map f l).
Proof.
  intros H. apply Forall_forall. intros h Hh. apply in_map_iff in Hh.
  destruct Hh as [t [<- Ht]]. now apply H.
Qed.

(** A histogram with one occupied bin: the first candidate already has an
    empty foreground, and the initial threshold is returned. *)
Lemma otsuThreshold_single values v :
  (forall x, In x values -> x = v) -> otsuThreshold values = 128.
Proof.
  intros Hall. unfold otsuThreshold, otsuOfHistogram.
  rewrite histogramOf_counts.
  set (f := fun t => Z.of_nat (pixels values t)).
  assert (Hf0 : forall t, t <> v -> f t = 0%Z).
  { intros t Ht. unfold f, pixels.
    rewrite (proj1 (count_occ_not_In Nat.eq_dec values t)); [reflexivity|].
    intros Hin. apply Hall in Hin. congruence. }
  assert (Hfv : f v = Z.of_nat (length values)).
  { unfold f, pixels. f_equal. clear Hf0 f.
    induction values as [|x values IH]; [reflexivity|].
    cbn [count_occ length]. rewrite (Hall x (or_introl eq_refl)).
    destruct (Nat.eq_dec v v); [|contradiction].
    f_equal. apply IH. intros y Hy. apply Hall. now right. }
  generalize (weightedSum 0 (map f (seq 0 256))). intros sumAll.
  destruct (Nat.lt_ge_cases v 256) as [Hv|Hv].
  - replace 256 with (v + S (255 - v)) by lia.
    rewrite seq_app, map_app, Nat.add_0_l. cbn [seq map].
    rewrite otsuLoop_skip;
      [|apply map_zeros; intros t Ht; apply in_seq in Ht; apply Hf0; lia|reflexivity].
    cbn [otsuLoop otsuInit weightBg]. rewrite Hfv. rewrite Z.add_0_l.
    destruct (Z.eqb_spec (Z.of_nat (length values)) 0); [|rewrite Z.sub_diag; reflexivity].
    rewrite <- (app_nil_r (map f (seq (S v) (255 - v)))).
    rewrite otsuLoop_skip; [reflexivity| |simpl; lia].
    apply map_zeros. intros t Ht. apply in_seq in Ht. apply Hf0. lia.
  - rewrite <- (app_nil_r (map f (seq 0 256))).
    rewrite otsuLoop_skip; [reflexivity| |reflexivity].
    apply map_zeros. intros t Ht. apply in_seq in Ht. apply Hf0. lia.
Qed.

Lemma two_values_length values a b :
  a <> b -> (forall v, In v values -> v = a \/ v = b) ->
  length values = pixels values a + pixels values b.
Proof.
  intros Hab. unfold pixels. induction values as [|x values IH]; intros Hall.
  - reflexivity.
  - cbn [length count_occ]. rewrite IH by (intros v Hv; apply Hall; now right).
    destruct (Hall x (or_introl eq_refl)) as [-> | ->].
    + destruct (Nat.eq_dec a a); [|contradiction].
      destruct (Nat.eq_dec a b); [contradiction|]. lia.
    + destruct (Nat.eq_dec b b); [|contradiction].
      destruct (Nat.eq_dec b a); [congruence|]. lia.
Qed.

(** A histogram with two occupied bins [a < b]: every threshold from [a]
    to [b - 1] scores the same, and the first of them, [a], is returned. *)
Lemma otsuThreshold_two_values values a b :
  a < b -> b < 256 -> In a values -> In b values ->
  (forall v, In v values -> v = a \/ v = b) ->
  otsuThreshold values = a.
Proof.
  intros Hab Hb Ha_in Hb_in Hall.
  unfold otsuThreshold, otsuOfHistogram.
  rewrite (two_values_length values a b) by (try lia; assumption).
  rewrite histogramOf_counts.
  set (f := fun t => Z.of_nat (pixels values t)).
  assert (Hf0 : forall t, t <> a -> t <> b -> f t = 0%Z).
  { intros t Hta Htb. unfold f, pixels.
    rewrite (proj1 (count_occ_not_In Nat.eq_dec values t)); [reflexivity|].
    intros Hin. apply Hall in Hin. lia. }
  assert (Hna : (0 < f a)%Z).
  { unfold f, pixels. apply (count_occ_In Nat.eq_dec) in Ha_in. lia. }
  assert (Hnb : (0 < f b)%Z).
  { unfold f, pixels. apply (count_occ_In Nat.eq_dec) in Hb_in. lia. }
  replace (Z.of_nat (pixels values a + pixels values b)) with (f a + f b)%Z
    by (unfold f; lia).
  assert (Hseq : seq 0 256
                 = seq 0 a ++ a :: seq (S a) (b - a - 1) ++ b :: seq (S b) (255 - b)).
  { replace 256 with (a + S ((b - a - 1) + S (255 - b))) by lia.
    rewrite seq_app. cbn [seq Nat.add]. rewrite seq_app. cbn [seq].
    replace (S a + (b - a - 1)) with b by lia. reflexivity. }
  rewrite Hseq, !map_app. cbn [map]. rewrite !map_app. cbn [map].
  assert (Z1 : Forall (fun h => h = 0%Z) (map f (seq 0 a)))
    by (apply map_zeros; intros t Ht; apply in_seq in Ht; apply Hf0; lia).
  assert (Z2 : Forall (fun h => h = 0%Z) (map f (seq (S a) (b - a - 1))))
    by (apply map_zeros; intros t Ht; apply in_seq in Ht; apply Hf0; lia).
  assert (Z3 : Forall (fun h => h = 0%Z) (map f (seq (S b) (255 - b))))
    by (apply map_zeros; intros t Ht; apply in_seq in Ht; apply Hf0; lia).
  (* the weighted sum of all pixels *)
  assert (Hsum : weightedSum 0
                   (map f (seq 0 a) ++ f a :: map f (seq (S a) (b - a - 1))
                    ++ f b :: map f (seq (S b) (255 - b)))
                 = (Z.of_nat a * f a + Z.of_nat b * f b)%Z).
  { rewrite (weightedSum_zeros _ _ _ Z1). cbn [weightedSum].
    rewrite (weightedSum_zeros _ _ _ Z2). cbn [weightedSum].
    rewrite (weightedSum_all_zeros _ _ Z3).
    rewrite !length_map, !length_seq.
    replace (S (0 + a) + (b - a - 1)) with b by lia. cbn [Nat.add]. lia. }
  rewrite Hsum.
  (* below [a] *)
  rewrite (otsuLoop_skip _ _ _ _ _ _ Z1) by reflexivity.
  rewrite length_map, length_seq. cbn [Nat.add].
  (* at [a] *)
  cbn [otsuLoop otsuInit weightBg sumBg maxVariance best].
  rewrite !Z.add_0_l.
  destruct (Z.eqb_spec (f a) 0); [lia|].
  replace (f a + f b - f a)%Z with (f b) by lia.
  destruct (Z.eqb_spec (f b) 0); [lia|].
  assert (V : (0 < betweenClassVariance (Z.of_nat a * f a + Z.of_nat b * f b)
                     (Z.of_nat a * f a) (f a) (f b))%Q)
    by (apply variance_two_values; lia).
  apply Qgtb_true_iff in V. rewrite V.
  (* between [a] and [b] *)
  rewrite otsuLoop_flat; cbn [weightBg sumBg maxVariance]; try assumption; try lia.
  2:{ replace (f a + f b - f a)%Z with (f b) by lia. reflexivity. }
  (* at [b] *)
  cbn [otsuLoop weightBg best].
  destruct (Z.eqb_spec (f a + f b) 0); [lia|].
  rewrite Z.sub_diag. reflexivity.
Qed.

(** *** The loop returns the lowest threshold of maximal score *)

Lemma sumZ_app l1 l2 : sumZ (l1 ++ l2) = (sumZ l1 + sumZ l2)%Z.
Proof.
  unfold sumZ. induction l1 as [|x l1 IH]; simpl; [reflexivity|]. rewrite IH. lia.
Qed.

Lemma sumZ_nonneg l : Forall (fun h => (0 <= h)%Z) l -> (0 <= sumZ l)%Z.
Proof.
  unfold sumZ. induction 1 as [|x l Hx Hl IH]; simpl; lia.
Qed.

Lemma weightedSum_app l1 : forall i l2,
  weightedSum i (l1 ++ l2) = (weightedSum i l1 + weightedSum (i + length l1) l2)%Z.
Proof.
  induction l1 as [|x l1 IH]; intros i l2; cbn [app weightedSum length].
  - rewrite Nat.add_0_r. lia.
  - rewrite IH. replace (S i + length l1) with (i + S (length l1)) by lia. lia.
Qed.

Lemma firstn_done (done rest : list Z) t :
  S t <= length done -> firstn (S t) (done ++ rest) = firstn (S t) done.
Proof.
  intros H. rewrite firstn_app.
  replace (S t - length done) with 0 by lia. cbn [firstn]. apply app_nil_r.
Qed.

Lemma firstn_next (done rest : list Z) h :
  firstn (S (length done)) (done ++ h :: rest) = done ++ [h].
Proof.
  rewrite firstn_app. replace (S (length done) - length done) with 1 by lia.
  rewrite firstn_all2 by lia. reflexivity.
Qed.

Lemma scoreAt_done (done rest : list Z) t :
  S t <= length done ->
  weightUpTo (done ++ rest) t = weightUpTo done t
  /\ sumUpTo (done ++ rest) t = sumUpTo done t.
Proof.
  intros H. unfold weightUpTo, sumUpTo. now rewrite firstn_done.
Qed.

Lemma sumZ_firstn_le l k :
  Forall (fun h => (0 <= h)%Z) l -> (sumZ (firstn k l) <= sumZ l)%Z.
Proof.
  intros Hpos. rewrite <- (firstn_skipn k l) at 2. rewrite sumZ_app.
  assert (0 <= sumZ (skipn k l))%Z; [|lia].
  apply sumZ_nonneg. rewrite <- (firstn_skipn k l) in Hpos.
  apply Forall_app in Hpos. tauto.
Qed.

(** Once the foreground is empty it stays empty. *)
Lemma weightUpTo_full (histogram : list Z) total t t' :
  Forall (fun h => (0 <= h)%Z) histogram -> (sumZ histogram <= total)%Z ->
  t <= t' -> weightUpTo histogram t = total -> weightUpTo histogram t' = total.
Proof.
  intros Hpos Hsum Htt Hw. unfold weightUpTo in *.
  assert (P := sumZ_firstn_le histogram (S t') Hpos).
  assert (Q : (sumZ (firstn (S t) histogram) <= sumZ (firstn (S t') histogram))%Z).
  { replace (firstn (S t) histogram) with (firstn (S t) (firstn (S t') histogram))
      by (rewrite firstn_firstn; f_equal; lia).
    apply sumZ_firstn_le. apply Forall_forall. intros x Hx.
    rewrite Forall_forall in Hpos. apply Hpos.
    rewrite <- (firstn_skipn (S t') histogram). apply in_or_app. now left. }
  lia.
Qed.

Section LoopInvariant.

Variable histogram : list Z.
Variable total : Z.
Hypothesis Hpos : Forall (fun h => (0 <= h)%Z) histogram.
Hypothesis Hsum : (sumZ histogram <= total)%Z.




End LoopInvariant.

Lemma bump_sum v h :
  sumZ (bump v h) = (sumZ h + (if (v <? length h)%nat then 1 else 0))%Z.
Proof.
  unfold sumZ. revert v. induction h as [|x h IH]; intros v; [reflexivity|].
  destruct v as [|v]; cbn [bump fold_right length].
  - simpl. lia.
  - rewrite IH. change (S v <? S (length h)) with (v <? length h).
    destruct (v <? length h); lia.
Qed.

Lemma fold_bump_sum values h :
  sumZ (fold_left (fun histogram v => bump v histogram) values h)
  = (sumZ h + Z.of_nat (length (filter (fun v => (v <? length h)%nat) values)))%Z.
Proof.
  revert h. induction values as [|v values IH]; intros h.
  - simpl. lia.
  - cbn [fold_left filter]. rewrite IH, bump_sum, bump_length.
    destruct (v <? length h); cbn [length]; lia.
Qed.

Lemma histogramOf_sum values :
  sumZ (histogramOf values)
  = Z.of_nat (length (filter (fun v => (v <? 256)%nat) values)).
Proof.
  unfold histogramOf. rewrite fold_bump_sum, repeat_length.
  replace (sumZ (repeat 0%Z 256)) with 0%Z by reflexivity. lia.
Qed.

Lemma histogramOf_sum_le values :
  (sumZ (histogramOf values) <= Z.of_nat (length values))%Z.
Proof.
  rewrite histogramOf_sum. apply inj_le. apply filter_length_le.
Qed.

Lemma histogramOf_sum_in_range values :
  (forall x, In x values -> x < 256) ->
  Z.of_nat (length values) = sumZ (histogramOf values).
Proof.
  intros H. rewrite histogramOf_sum. do 2 f_equal.
  induction values as [|v values IH]; [reflexivity|].
  cbn [filter]. assert (Hv : (v <? 256) = true) by (apply Nat.ltb_lt, H; now left).
  rewrite Hv. cbn [length]. f_equal. apply IH. intros x Hx. apply H. now right.
Qed.

Lemma histogramOf_nonneg values :
  Forall (fun h => (0 <= h)%Z) (histogramOf values).
Proof.
  rewrite histogramOf_counts. apply Forall_forall. intros h Hh.
  apply in_map_iff in Hh. destruct Hh as [t [<- _]]. lia.
Qed.


(** Pixel lists with the same histogram get the same threshold. *)
Lemma otsuThreshold_histogram v1 v2 :
  (forall x, In x v1 -> x < 256) -> (forall x, In x v2 -> x < 256) ->
  histogramOf v1 = histogramOf v2 -> otsuThreshold v1 = otsuThreshold v2.
Proof.
  intros H1 H2 E. unfold otsuThreshold.
  rewrite (histogramOf_sum_in_range v1 H1), (histogramOf_sum_in_range v2 H2), E.
  reflexivity.
Qed.

(* ------------------------------------------------------------------ *)
(** ** Double precision: rounding and order *)
(* ------------------------------------------------------------------ *)

Section DoubleArithmetic.

Import SpecFloat.
Import Double.

Lemma digits2_log2 p : Zpos (digits2_pos p) = (Z.log2 (Zpos p) + 1)%Z.
Proof.
  assert (E : digits2_pos p = Pos.size p) by (induction p; simpl; congruence).
  rewrite E. destruct p; simpl; lia.
Qed.

Lemma fexp_normal e : (-1021 <= e)%Z -> fexp 53 1024 e = (e - 53)%Z.
Proof. unfold fexp, emin. lia. Qed.

Lemma fexp_ge e : (-1074 <= fexp 53 1024 e)%Z /\ (e - 53 <= fexp 53 1024 e)%Z.
Proof. unfold fexp, emin. lia. Qed.

Lemma shr_1_m mrs : (0 <= shr_m mrs)%Z -> shr_m (shr_1 mrs) = (shr_m mrs / 2)%Z.
Proof.
  intros H. rewrite <- Z.div2_div. destruct mrs as [m r s]. cbn [shr_m] in *.
  destruct m as [|[p|p|]|p]; try reflexivity. lia.
Qed.

Lemma iter_shr_m p : forall mrs,
  (0 <= shr_m mrs)%Z ->
  shr_m (iter_pos shr_1 p mrs) = (shr_m mrs / 2 ^ Zpos p)%Z.
Proof.
  induction p as [p IH|p IH|]; intros mrs H; cbn [iter_pos].
  - assert (H1 : (0 <= shr_m (shr_1 mrs))%Z)
      by (rewrite shr_1_m by exact H; apply Z.div_pos; lia).
    assert (H2 : (0 <= shr_m (iter_pos shr_1 p (shr_1 mrs)))%Z)
      by (rewrite IH by exact H1; apply Z.div_pos; lia).
    rewrite IH by exact H2. rewrite IH by exact H1. rewrite shr_1_m by exact H.
    rewrite !Z.div_div by lia. f_equal.
    replace (Zpos p~1) with (1 + Zpos p + Zpos p)%Z by lia.
    rewrite !Z.pow_add_r by lia. change (2 ^ 1)%Z with 2%Z. ring.
  - assert (H2 : (0 <= shr_m (iter_pos shr_1 p mrs))%Z)
      by (rewrite IH by exact H; apply Z.div_pos; lia).
    rewrite IH by exact H2. rewrite IH by exact H.
    rewrite Z.div_div by lia. f_equal.
    replace (Zpos p~0) with (Zpos p + Zpos p)%Z by lia.
    rewrite Z.pow_add_r by lia. reflexivity.
  - rewrite shr_1_m by exact H. reflexivity.
Qed.

Lemma log2_lower m : (2 ^ Z.log2 (Zpos m) <= Zpos m)%Z.
Proof. apply Z.log2_spec. lia. Qed.

(** Shifting to the exponent of the format leaves a positive mantissa
    when the exponent is not below the least one. *)
Lemma shr_fexp_pos m e l :
  (-1074 <= e)%Z ->
  exists m', shr_m (fst (shr_fexp 53 1024 (Zpos m) e l)) = Zpos m'
             /\ (e <= snd (shr_fexp 53 1024 (Zpos m) e l))%Z.
Proof.
  intros He. unfold shr_fexp, shr. cbn [Zdigits2].
  rewrite digits2_log2.
  set (n := (fexp 53 1024 (Z.log2 (Zpos m) + 1 + e) - e)%Z).
  assert (Hr : shr_m (shr_record_of_loc (Zpos m) l) = Zpos m)
    by (destruct l as [|[]]; reflexivity).
  destruct n as [|p|p] eqn:En; cbn [fst snd].
  - exists m. split; [exact Hr|lia].
  - rewrite iter_shr_m by (rewrite Hr; lia). rewrite Hr.
    assert (Hn : Zpos p = (Z.log2 (Zpos m) - 52)%Z).
    { unfold fexp, emin in n. lia. }
    assert (L := log2_lower m).
    assert (P : (1 <= Zpos m / 2 ^ Zpos p)%Z).
    { apply Z.div_le_lower_bound; [lia|].
      rewrite Z.mul_1_r. apply Z.le_trans with (2 ^ Z.log2 (Zpos m))%Z; [|exact L].
      apply Z.pow_le_mono_r; lia. }
    destruct (Zpos m / 2 ^ Zpos p)%Z as [|q|q] eqn:Eq; try lia.
    exists q. split; [reflexivity|lia].
  - exists m. split; [exact Hr|lia].
Qed.

Lemma round_nearest_even_pos m l :
  exists m', round_nearest_even (Zpos m) l = Zpos m'.
Proof.
  destruct l as [|[]]; cbn [round_nearest_even]; eauto.
  - destruct (Z.even (Zpos m)); eauto.
    exists (m + 1)%positive. reflexivity.
  - exists (m + 1)%positive. reflexivity.
Qed.

(** Rounding a positive mantissa at an exponent that is not below the
    least one gives a positive number or plus infinity. *)
Lemma binary_round_aux_pos m e l :
  (-1074 <= e)%Z -> positiveFrom e (binary_round_aux 53 1024 false (Zpos m) e l).
Proof.
  intros He. unfold binary_round_aux.
  destruct (shr_fexp_pos m e l He) as (m1 & H1 & E1).
  destruct (shr_fexp 53 1024 (Zpos m) e l) as [mrs1 e1]. cbn [fst snd] in *.
  rewrite H1.
  destruct (round_nearest_even_pos m1 (loc_of_shr_record mrs1)) as (m2 & ->).
  destruct (shr_fexp_pos m2 e1 loc_Exact) as (m3 & H3 & E3); [lia|].
  destruct (shr_fexp 53 1024 (Zpos m2) e1 loc_Exact) as [mrs2 e2]. cbn [fst snd] in *.
  rewrite H3. destruct (e2 <=? 1024 - 53)%Z.
  - left. exists m3, e2. split; [reflexivity|lia].
  - now right.
Qed.

Lemma SFmul_pos l1 l2 x y :
  positiveFrom l1 x -> positiveFrom l2 y -> (-1074 <= l1 + l2)%Z ->
  positiveFrom (l1 + l2) (SFmul 53 1024 x y).
Proof.
  intros [(m1 & e1 & -> & H1)| ->] [(m2 & e2 & -> & H2)| ->] H; cbn [SFmul xorb].
  - destruct (binary_round_aux_pos (m1 * m2) (e1 + e2) loc_Exact) as [(m & e & E & L)|E];
      [lia| |].
    + left. exists m, e. split; [exact E|lia].
    + now right.
  - now right.
  - now right.
  - now right.
Qed.

Lemma iter_xO p d : Zpos (Pos.iter xO p d) = (Zpos p * 2 ^ Zpos d)%Z.
Proof.
  revert p. induction d as [|d IH] using Pos.peano_ind; intros p.
  - cbn [Pos.iter]. lia.
  - rewrite Pos.iter_succ, Pos2Z.inj_xO, IH, Pos2Z.inj_succ, Z.pow_succ_r by lia. ring.
Qed.

Lemma canonE_le p : (Zpos p < 2 ^ 53)%Z -> (-52 <= canonE p <= 0)%Z.
Proof.
  intros H. unfold canonE.
  assert (0 <= Z.log2 (Zpos p))%Z by apply Z.log2_nonneg.
  assert (Z.log2 (Zpos p) < 53)%Z by (apply Z.log2_lt_pow2; lia). lia.
Qed.

Lemma canonM_value p :
  (Zpos p < 2 ^ 53)%Z -> Zpos (canonM p) = (Zpos p * 2 ^ (- canonE p))%Z.
Proof.
  intros H. assert (L := canonE_le p H). unfold canonM.
  destruct (canonE p) as [|d|d] eqn:E; try lia.
  rewrite iter_xO. reflexivity.
Qed.

Lemma canonM_log2 p : (Zpos p < 2 ^ 53)%Z -> Z.log2 (Zpos (canonM p)) = 52%Z.
Proof.
  intros H. assert (L := canonE_le p H). rewrite canonM_value by exact H.
  rewrite Z.log2_mul_pow2 by lia. unfold canonE. lia.
Qed.

(** A mantissa of 53 bits at an exponent of the format is left as it is. *)
Lemma binary_round_aux_canonical s m e :
  Z.log2 (Zpos m) = 52%Z -> (-1074 <= e <= 971)%Z ->
  binary_round_aux 53 1024 s (Zpos m) e loc_Exact = S754_finite s m e.
Proof.
  intros Hm He.
  assert (S : shr_fexp 53 1024 (Zpos m) e loc_Exact
              = ({| shr_m := Zpos m; shr_r := false; shr_s := false |}, e)).
  { unfold shr_fexp. cbn [Zdigits2]. rewrite digits2_log2, Hm.
    replace (fexp 53 1024 (52 + 1 + e) - e)%Z with 0%Z by (unfold fexp, emin; lia).
    reflexivity. }
  unfold binary_round_aux. rewrite S. cbn [shr_m loc_of_shr_record round_nearest_even].
  rewrite S. cbn [shr_m].
  replace (e <=? 1024 - 53)%Z with true by (symmetry; apply Z.leb_le; lia).
  reflexivity.
Qed.

(** An integer below 2^53 is converted without rounding. *)
Lemma binary_normalize_canonical p :
  (Zpos p < 2 ^ 53)%Z ->
  binary_normalize 53 1024 (Zpos p) 0 false = S754_finite false (canonM p) (canonE p).
Proof.
  intros H. assert (L := canonE_le p H). assert (M := canonM_log2 p H).
  unfold binary_normalize, binary_round, shl_align.
  rewrite digits2_log2, Z.add_0_r, fexp_normal by (unfold canonE in L; lia).
  replace (Z.log2 (Zpos p) + 1 - 53 - 0)%Z with (canonE p) by (unfold canonE; lia).
  unfold canonM in *. destruct (canonE p) as [|d|d] eqn:E; try lia.
  - replace (Z.log2 (Zpos p) + 1 - 53)%Z with 0%Z by (unfold canonE in E; lia).
    apply binary_round_aux_canonical; [exact M|lia].
  - replace (Z.log2 (Zpos p) + 1 - 53)%Z with (Zneg d) by (unfold canonE in E; lia).
    apply binary_round_aux_canonical; [exact M|lia].
Qed.

Lemma Prim2SF_ofZ p :
  (Zpos p < 2 ^ 53)%Z ->
  FloatOps.Prim2SF (ofZ (Zpos p)) = S754_finite false (canonM p) (canonE p).
Proof.
  intros H. unfold ofZ. rewrite FloatAxioms.of_uint63_spec, Uint63.of_Z_spec.
  rewrite Z.mod_small.
  - now apply binary_normalize_canonical.
  - split; [lia|]. apply Z.lt_trans with (2 ^ 53)%Z; [exact H|reflexivity].
Qed.

(** An even mantissa of 54 bits loses its last bit without rounding. *)
Lemma binary_round_aux_even s m e :
  Z.log2 (Zpos m) = 52%Z -> (-1074 <= e <= 971)%Z ->
  binary_round_aux 53 1024 s (Zpos m~0) (e - 1) loc_Exact = S754_finite s m e.
Proof.
  intros Hm He.
  assert (L : Z.log2 (Zpos m~0) = 53%Z).
  { rewrite Pos2Z.inj_xO, Z.log2_double by lia. lia. }
  assert (S1 : shr_fexp 53 1024 (Zpos m~0) (e - 1) loc_Exact
               = ({| shr_m := Zpos m; shr_r := false; shr_s := false |}, e)).
  { unfold shr_fexp. cbn [Zdigits2]. rewrite digits2_log2, L.
    replace (fexp 53 1024 (53 + 1 + (e - 1)) - (e - 1))%Z with 1%Z
      by (unfold fexp, emin; lia).
    unfold shr. cbn [iter_pos shr_record_of_loc shr_1 orb]. f_equal. lia. }
  assert (S2 : shr_fexp 53 1024 (Zpos m) e loc_Exact
               = ({| shr_m := Zpos m; shr_r := false; shr_s := false |}, e)).
  { unfold shr_fexp. cbn [Zdigits2]. rewrite digits2_log2, Hm.
    replace (fexp 53 1024 (52 + 1 + e) - e)%Z with 0%Z by (unfold fexp, emin; lia).
    reflexivity. }
  unfold binary_round_aux. rewrite S1. cbn [shr_m loc_of_shr_record round_nearest_even].
  rewrite S2. cbn [shr_m].
  replace (e <=? 1024 - 53)%Z with true by (symmetry; apply Z.leb_le; lia).
  reflexivity.
Qed.

Lemma div_eucl_exact b q : (0 < b)%Z -> Z.div_eucl (b * q) b = (q, 0%Z).
Proof.
  intros H.
  assert (E : Z.div_eucl (b * q) b = ((b * q) / b, (b * q) mod b)%Z)
    by (unfold Z.div, Z.modulo; destruct (Z.div_eucl (b * q) b); reflexivity).
  rewrite E. f_equal.
  - rewrite Z.mul_comm. apply Z.div_mul. lia.
  - rewrite Z.mul_comm. apply Z.mod_mul. lia.
Qed.

Lemma new_location_exact nb : new_location nb 0 = loc_Exact.
Proof. unfold new_location. destruct (Z.even nb); reflexivity. Qed.

(** The quotient of [k * n] by [n] is computed exactly. *)
Lemma SFdiv_exact k n :
  (Zpos k * Zpos n < 2 ^ 53)%Z ->
  SFdiv 53 1024 (S754_finite false (canonM (k * n)) (canonE (k * n)))
                (S754_finite false (canonM n) (canonE n))
  = S754_finite false (canonM k) (canonE k).
Proof.
  intros H.
  assert (Hn : (Zpos n < 2 ^ 53)%Z) by nia.
  assert (Hk : (Zpos k < 2 ^ 53)%Z) by nia.
  assert (Hkn : (Zpos (k * n) < 2 ^ 53)%Z) by (rewrite Pos2Z.inj_mul; exact H).
  assert (Lkn := canonE_le _ Hkn). assert (Ln := canonE_le _ Hn).
  assert (Lk := canonE_le _ Hk).
  assert (D1 : (Z.log2 (Zpos k) + Z.log2 (Zpos n) <= Z.log2 (Zpos (k * n)))%Z)
    by (rewrite Pos2Z.inj_mul; apply Z.log2_mul_below; lia).
  assert (D2 : (Z.log2 (Zpos (k * n)) <= Z.log2 (Zpos k) + Z.log2 (Zpos n) + 1)%Z)
    by (rewrite Pos2Z.inj_mul; apply Z.log2_mul_above; lia).
  set (D := (canonE (k * n) - canonE n)%Z).
  assert (HD : (D = canonE k + 52 \/ D = canonE k + 53)%Z) by (unfold D, canonE; lia).
  cbn [SFdiv xorb]. unfold SFdiv_core_binary. cbn [Zdigits2].
  rewrite !digits2_log2, !canonM_log2 by assumption.
  replace (52 + 1 + canonE (k * n) - (52 + 1 + canonE n))%Z with D by (unfold D; lia).
  fold D.
  replace (Z.min (fexp 53 1024 D) D) with (D - 53)%Z by (unfold fexp, emin; lia).
  replace (D - (D - 53))%Z with 53%Z by lia.
  (* the quotient of the mantissas *)
  assert (Q : Z.shiftl (Zpos (canonM (k * n))) 53
              = (Zpos (canonM n) * (Zpos (canonM k) * 2 ^ (canonE k + 53 - D)))%Z).
  { rewrite Z.shiftl_mul_pow2 by lia. rewrite !canonM_value by assumption.
    rewrite Pos2Z.inj_mul.
    transitivity (Zpos k * Zpos n * 2 ^ (- canonE (k * n) + 53))%Z.
    - rewrite Z.pow_add_r by lia. ring.
    - replace (- canonE (k * n) + 53)%Z
        with (- canonE n + (- canonE k + (canonE k + 53 - D)))%Z by (unfold D; lia).
      rewrite !Z.pow_add_r by lia. ring. }
  rewrite Q, div_eucl_exact by lia. rewrite new_location_exact.
  destruct HD as [HD|HD].
  - replace (canonE k + 53 - D)%Z with 1%Z by lia.
    replace (Zpos (canonM k) * 2 ^ 1)%Z with (Zpos (canonM k)~0) by lia.
    replace (D - 53)%Z with (canonE k - 1)%Z by lia.
    apply binary_round_aux_even; [now apply canonM_log2|lia].
  - replace (canonE k + 53 - D)%Z with 0%Z by lia.
    replace (Zpos (canonM k) * 2 ^ 0)%Z with (Zpos (canonM k)) by lia.
    replace (D - 53)%Z with (canonE k) by lia.
    apply binary_round_aux_canonical; [now apply canonM_log2|lia].
Qed.

Lemma Prim2SF_ofZ_0 : FloatOps.Prim2SF (ofZ 0) = S754_zero false.
Proof. reflexivity. Qed.

(** [k * n / n] is [k] in doubles, for integers below 2^53. *)
Lemma div_ofZ_exact k n :
  (0 <= k)%Z -> (0 < n < 2 ^ 53)%Z -> (k * n < 2 ^ 53)%Z ->
  PrimFloat.div (ofZ (k * n)) (ofZ n) = ofZ k.
Proof.
  intros Hk Hn H. apply FloatAxioms.Prim2SF_inj. rewrite FloatAxioms.div_spec.
  destruct n as [|n|n]; try lia.
  destruct k as [|k|k]; try lia.
  - cbn [Z.mul]. rewrite Prim2SF_ofZ_0, Prim2SF_ofZ by lia. reflexivity.
  - change (Zpos k * Zpos n)%Z with (Zpos (k * n)).
    rewrite !Prim2SF_ofZ by (try rewrite Pos2Z.inj_mul; lia).
    now apply SFdiv_exact.
Qed.

(** *** The order of doubles *)

Ltac cmp_cases :=
  repeat match goal with
         | H : context [Z.compare ?a ?b] |- _ => destruct (Z.compare_spec a b)
         | |- context [Z.compare ?a ?b] => destruct (Z.compare_spec a b)
         | H : context [Pos.compare ?a ?b] |- _ => destruct (Pos.compare_spec a b)
         | |- context [Pos.compare ?a ?b] => destruct (Pos.compare_spec a b)
         end.

Ltac sf_order :=
  unfold SFltb, SFleb, SFcompare; intros;
  repeat match goal with
         | x : spec_float |- _ => destruct x as [[]|[]| |[] ? ?]
         end;
  try discriminate; try reflexivity;
  change (Pos.compare_cont Eq) with Pos.compare in *;
  cmp_cases; simpl in *; try discriminate; try reflexivity; try lia.

Lemma SFltb_irrefl x : SFltb x x = false.
Proof. sf_order. Qed.

Lemma SFltb_trans x y z : SFltb x y = true -> SFltb y z = true -> SFltb x z = true.
Proof. sf_order. Qed.

Lemma SFltb_leb_trans x y z : SFltb x y = true -> SFleb y z = true -> SFltb x z = true.
Proof. sf_order. Qed.

Lemma double_ltb_irrefl x : PrimFloat.ltb x x = false.
Proof. rewrite FloatAxioms.ltb_spec. apply SFltb_irrefl. Qed.

Lemma double_ltb_trans x y z :
  PrimFloat.ltb x y = true -> PrimFloat.ltb y z = true -> PrimFloat.ltb x z = true.
Proof. rewrite !FloatAxioms.ltb_spec. apply SFltb_trans. Qed.

Lemma double_ltb_leb_trans x y z :
  PrimFloat.ltb x y = true -> PrimFloat.leb y z = true -> PrimFloat.ltb x z = true.
Proof. rewrite !FloatAxioms.ltb_spec, FloatAxioms.leb_spec. apply SFltb_leb_trans. Qed.

Lemma double_ltb_zero_positive lo x :
  positiveFrom lo (FloatOps.Prim2SF x) -> PrimFloat.ltb PrimFloat.zero x = true.
Proof.
  intros H. rewrite FloatAxioms.ltb_spec.
  destruct H as [(m & e & -> & _)| ->]; reflexivity.
Qed.

End DoubleArithmetic.

(* ------------------------------------------------------------------ *)
(** ** The threshold in double precision *)
(* ------------------------------------------------------------------ *)

(** The squared difference of two distinct intensities is positive and
    far above the least exponent: by evaluation on all pairs. *)
Lemma squaredDifference_positive a b :
  a < b -> b < 256 ->
  Double.positiveFrom (-52)
    (FloatOps.Prim2SF (Double.squaredDifference a b)).
Proof.
  intros Hab Hb.
  assert (T : forallb (fun a => forallb (fun b =>
                (b <=? a) || Double.isPositiveFrom (-52)
                               (FloatOps.Prim2SF (Double.squaredDifference a b)))
                (seq 0 256)) (seq 0 256) = true)
    by (vm_compute; reflexivity).
  rewrite forallb_forall in T.
  assert (Ia : In a (seq 0 256)) by (apply in_seq; lia).
  assert (Ib : In b (seq 0 256)) by (apply in_seq; lia).
  assert (Ta := T a Ia). cbv beta in Ta. rewrite forallb_forall in Ta.
  assert (Tb := Ta b Ib). cbv beta in Tb.
  assert (X : (b <=? a) = false) by (apply Nat.leb_gt; lia).
  rewrite X in Tb. cbn [orb] in Tb.
  destruct (FloatOps.Prim2SF (Double.squaredDifference a b)) as [s|[]| |[] m e];
    cbn [Double.isPositiveFrom] in Tb; try discriminate.
  - now right.
  - left. exists m, e. split; [reflexivity|]. now apply Z.leb_le.
Qed.

(** With one pixel value on each side, the two means are the two values
    and the computed variance is above zero. *)
Lemma double_variance_two_values (a b : nat) (na nb : Z) :
  a < b -> b < 256 -> (0 < na)%Z -> (0 < nb)%Z ->
  ((na + nb) * 255 < 2 ^ 53)%Z ->
  PrimFloat.ltb PrimFloat.zero
    (Double.betweenClassVariance (Z.of_nat a * na + Z.of_nat b * nb)
       (Z.of_nat a * na) na nb) = true.
Proof.
  intros Hab Hb Hna Hnb Hlen. unfold Double.betweenClassVariance.
  replace (Z.of_nat a * na + Z.of_nat b * nb - Z.of_nat a * na)%Z
    with (Z.of_nat b * nb)%Z by ring.
  rewrite !div_ofZ_exact by nia.
  change (PrimFloat.mul (PrimFloat.sub (Double.ofZ (Z.of_nat a)) (Double.ofZ (Z.of_nat b)))
                        (PrimFloat.sub (Double.ofZ (Z.of_nat a)) (Double.ofZ (Z.of_nat b))))
    with (Double.squaredDifference a b).
  apply double_ltb_zero_positive with (-52 + -52 + -52)%Z.
  rewrite FloatAxioms.mul_spec. apply SFmul_pos; [|now apply squaredDifference_positive|lia].
  rewrite FloatAxioms.mul_spec.
  destruct na as [|pa|pa], nb as [|pb|pb]; try lia.
  rewrite !Prim2SF_ofZ by lia.
  apply SFmul_pos; try lia.
  - left. exists (Double.canonM pa), (Double.canonE pa). split; [reflexivity|].
    apply canonE_le. lia.
  - left. exists (Double.canonM pb), (Double.canonE pb). split; [reflexivity|].
    apply canonE_le. lia.
Qed.

(** Thresholds below the darkest pixel are skipped. *)
Lemma double_otsuLoop_skip total sumAll zs :
  forall t rest st,
    Forall (fun h => h = 0%Z) zs -> Double.weightBg st = 0%Z ->
    Double.otsuLoop total sumAll t (zs ++ rest) st
    = Double.otsuLoop total sumAll (t + length zs) rest st.
Proof.
  induction zs as [|h zs IH]; intros t rest st Hz Hw.
  - simpl. now rewrite Nat.add_0_r.
  - inversion Hz as [|? ? Hh Hzs]; subst. cbn [app Double.otsuLoop length].
    rewrite Hw. cbn [Z.add Z.eqb].
    rewrite (IH (S t) rest _ Hzs) by reflexivity.
    replace (S t + length zs) with (t + S (length zs)) by lia.
    f_equal. destruct st; simpl in *; subst; reflexivity.
Qed.

(** Thresholds between two occupied bins evaluate the expression that the
    lower bin evaluated, and the strict comparison keeps the earlier one. *)
Lemma double_otsuLoop_flat total sumAll zs :
  forall t rest st,
    Forall (fun h => h = 0%Z) zs ->
    Double.weightBg st <> 0%Z -> (total - Double.weightBg st)%Z <> 0%Z ->
    Double.maxVariance st
    = Double.betweenClassVariance sumAll (Double.sumBg st) (Double.weightBg st)
        (total - Double.weightBg st) ->
    Double.otsuLoop total sumAll t (zs ++ rest) st
    = Double.otsuLoop total sumAll (t + length zs) rest st.
Proof.
  induction zs as [|h zs IH]; intros t rest st Hz Hw Hf Hv.
  - simpl. now rewrite Nat.add_0_r.
  - inversion Hz as [|? ? Hh Hzs]; subst. cbn [app Double.otsuLoop length].
    rewrite Z.add_0_r, Z.mul_0_r, Z.add_0_r.
    destruct (Z.eqb_spec (Double.weightBg st) 0); [contradiction|].
    destruct (Z.eqb_spec (total - Double.weightBg st) 0); [contradiction|].
    rewrite <- Hv. rewrite double_ltb_irrefl.
    replace {| Double.sumBg := Double.sumBg st; Double.weightBg := Double.weightBg st;
               Double.maxVariance := Double.maxVariance st;
               Double.best := Double.best st |} with st
      by (destruct st; reflexivity).
    rewrite (IH (S t) rest st Hzs Hw Hf Hv). f_equal. lia.
Qed.

(** A histogram with one occupied bin: the first candidate already has an
    empty foreground, and the initial threshold is returned. *)
Lemma double_otsuThreshold_single values v :
  (forall x, In x values -> x = v) -> Double.otsuThreshold values = 128.
Proof.
  intros Hall. unfold Double.otsuThreshold, Double.otsuOfHistogram.
  rewrite histogramOf_counts.
  set (f := fun t => Z.of_nat (pixels values t)).
  assert (Hf0 : forall t, t <> v -> f t = 0%Z).
  { intros t Ht. unfold f, pixels.
    rewrite (proj1 (count_occ_not_In Nat.eq_dec values t)); [reflexivity|].
    intros Hin. apply Hall in Hin. congruence. }
  assert (Hfv : f v = Z.of_nat (length values)).
  { unfold f, pixels. f_equal. clear Hf0 f.
    induction values as [|x values IH]; [reflexivity|].
    cbn [count_occ length]. rewrite (Hall x (or_introl eq_refl)).
    destruct (Nat.eq_dec v v); [|contradiction].
    f_equal. apply IH. intros y Hy. apply Hall. now right. }
  generalize (weightedSum 0 (map f (seq 0 256))). intros sumAll.
  destruct (Nat.lt_ge_cases v 256) as [Hv|Hv].
  - replace 256 with (v + S (255 - v)) by lia.
    rewrite seq_app, map_app, Nat.add_0_l. cbn [seq map].
    rewrite double_otsuLoop_skip;
      [|apply map_zeros; intros t Ht; apply in_seq in Ht; apply Hf0; lia|reflexivity].
    cbn [Double.otsuLoop Double.otsuInit Double.weightBg]. rewrite Hfv. rewrite Z.add_0_l.
    destruct (Z.eqb_spec (Z.of_nat (length values)) 0); [|rewrite Z.sub_diag; reflexivity].
    rewrite <- (app_nil_r (map f (seq (S v) (255 - v)))).
    rewrite double_otsuLoop_skip; [reflexivity| |simpl; lia].
    apply map_zeros. intros t Ht. apply in_seq in Ht. apply Hf0. lia.
  - rewrite <- (app_nil_r (map f (seq 0 256))).
    rewrite double_otsuLoop_skip; [reflexivity| |reflexivity].
    apply map_zeros. intros t Ht. apply in_seq in Ht. apply Hf0. lia.
Qed.

(** A histogram with two occupied bins [a < b]: the score at [a] is above
    zero, every threshold from [a] to [b - 1] evaluates the same
    expression, and the first of them, [a], is returned. *)
Lemma double_otsuThreshold_two_values values a b :
  a < b -> b < 256 -> In a values -> In b values ->
  (forall v, In v values -> v = a \/ v = b) ->
  (Z.of_nat (length values) * 255 < 2 ^ 53)%Z ->
  Double.otsuThreshold values = a.
Proof.
  intros Hab Hb Ha_in Hb_in Hall Hlen.
  unfold Double.otsuThreshold, Double.otsuOfHistogram.
  rewrite (two_values_length values a b) in * by (try lia; assumption).
  rewrite histogramOf_counts.
  set (f := fun t => Z.of_nat (pixels values t)).
  assert (Hf0 : forall t, t <> a -> t <> b -> f t = 0%Z).
  { intros t Hta Htb. unfold f, pixels.
    rewrite (proj1 (count_occ_not_In Nat.eq_dec values t)); [reflexivity|].
    intros Hin. apply Hall in Hin. lia. }
  assert (Hna : (0 < f a)%Z).
  { unfold f, pixels. apply (count_occ_In Nat.eq_dec) in Ha_in. lia. }
  assert (Hnb : (0 < f b)%Z).
  { unfold f, pixels. apply (count_occ_In Nat.eq_dec) in Hb_in. lia. }
  assert (Hlen' : ((f a + f b) * 255 < 2 ^ 53)%Z) by (unfold f; lia).
  replace (Z.of_nat (pixels values a + pixels values b)) with (f a + f b)%Z
    by (unfold f; lia).
  assert (Hseq : seq 0 256
                 = seq 0 a ++ a :: seq (S a) (b - a - 1) ++ b :: seq (S b) (255 - b)).
  { replace 256 with (a + S ((b - a - 1) + S (255 - b))) by lia.
    rewrite seq_app. cbn [seq Nat.add]. rewrite seq_app. cbn [seq].
    replace (S a + (b - a - 1)) with b by lia. reflexivity. }
  rewrite Hseq, !map_app. cbn [map]. rewrite !map_app. cbn [map].
  assert (Z1 : Forall (fun h => h = 0%Z) (map f (seq 0 a)))
    by (apply map_zeros; intros t Ht; apply in_seq in Ht; apply Hf0; lia).
  assert (Z2 : Forall (fun h => h = 0%Z) (map f (seq (S a) (b - a - 1))))
    by (apply map_zeros; intros t Ht; apply in_seq in Ht; apply Hf0; lia).
  assert (Z3 : Forall (fun h => h = 0%Z) (map f (seq (S b) (255 - b))))
    by (apply map_zeros; intros t Ht; apply in_seq in Ht; apply Hf0; lia).
  assert (Hsum : weightedSum 0
                   (map f (seq 0 a) ++ f a :: map f (seq (S a) (b - a - 1))
                    ++ f b :: map f (seq (S b) (255 - b)))
                 = (Z.of_nat a * f a + Z.of_nat b * f b)%Z).
  { rewrite (weightedSum_zeros _ _ _ Z1). cbn [weightedSum].
    rewrite (weightedSum_zeros _ _ _ Z2). cbn [weightedSum].
    rewrite (weightedSum_all_zeros _ _ Z3).
    rewrite !length_map, !length_seq.
    replace (S (0 + a) + (b - a - 1)) with b by lia. cbn [Nat.add]. lia. }
  rewrite Hsum.
  (* below [a] *)
  rewrite (double_otsuLoop_skip _ _ _ _ _ _ Z1) by reflexivity.
  rewrite length_map, length_seq. cbn [Nat.add].
  (* at [a] *)
  cbn [Double.otsuLoop Double.otsuInit Double.weightBg Double.sumBg
       Double.maxVariance Double.best].
  rewrite !Z.add_0_l.
  destruct (Z.eqb_spec (f a) 0); [lia|].
  replace (f a + f b - f a)%Z with (f b) by lia.
  destruct (Z.eqb_spec (f b) 0); [lia|].
  rewrite (double_variance_two_values a b (f a) (f b)) by assumption.
  (* between [a] and [b] *)
  rewrite double_otsuLoop_flat;
    cbn [Double.weightBg Double.sumBg Double.maxVariance]; try assumption; try lia.
  2:{ replace (f a + f b - f a)%Z with (f b) by lia. reflexivity. }
  (* at [b] *)
  cbn [Double.otsuLoop Double.weightBg Double.best].
  destruct (Z.eqb_spec (f a + f b) 0); [lia|].
  rewrite Z.sub_diag. reflexivity.
Qed.

(** *** The loop keeps the first of the highest computed scores *)

Section DoubleLoopInvariant.

Variable histogram : list Z.
Variable total : Z.
Hypothesis Hpos : Forall (fun h => (0 <= h)%Z) histogram.
Hypothesis Hsum : (sumZ histogram <= total)%Z.

Lemma double_loopInv_done done st :
  histogram = done -> Double.loopInv histogram total done st ->
  Double.leastArgmax histogram total (Double.best st).
Proof.
  intros -> (_ & _ & Hall & [[Hb Hm]|(Hb & Hs & Hp & Hlow)]).
  - left. split; [exact Hb|]. intros t v Ht Hv. rewrite <- Hm. now apply (Hall t).
  - right. split; [exact Hb|]. exists (Double.maxVariance st). repeat split; assumption.
Qed.

Lemma double_otsuLoop_leastArgmax rest :
  forall done st,
    histogram = done ++ rest -> Double.loopInv histogram total done st ->
    Double.leastArgmax histogram total
      (Double.otsuLoop total (weightedSum 0 histogram) (length done) rest st).
Proof.
  induction rest as [|h rest IH]; intros done st Hh Inv.
  - rewrite app_nil_r in Hh. cbn [Double.otsuLoop]. now apply double_loopInv_done with done.
  - assert (Hh' : histogram = (done ++ [h]) ++ rest) by (rewrite <- app_assoc; exact Hh).
    assert (Hlen : length (done ++ [h]) = S (length done))
      by (rewrite length_app; simpl; lia).
    destruct Inv as (Hw & Hs & Hall & Hbest).
    assert (Hposd : Forall (fun x => (0 <= x)%Z) done /\ (0 <= h)%Z).
    { rewrite Hh in Hpos. apply Forall_app in Hpos. destruct Hpos as [P1 P2].
      split; [exact P1|]. now inversion P2. }
    destruct Hposd as [Hposd Hposh].
    assert (Hwd : (0 <= sumZ done)%Z) by now apply sumZ_nonneg.
    (* the score of the threshold at hand *)
    assert (Wt : weightUpTo histogram (length done) = (Double.weightBg st + h)%Z).
    { unfold weightUpTo. rewrite Hh, firstn_next, sumZ_app, Hw. unfold sumZ. simpl. lia. }
    assert (St : sumUpTo histogram (length done)
                 = (Double.sumBg st + Z.of_nat (length done) * h)%Z).
    { unfold sumUpTo. rewrite Hh, firstn_next, weightedSum_app, Hs.
      cbn [weightedSum Nat.add]. lia. }
    cbn [Double.otsuLoop].
    destruct (Z.eqb_spec (Double.weightBg st + h) 0) as [E0|E0].
    { (* continue *)
      rewrite <- Hlen. apply IH; [exact Hh'|].
      assert (h = 0%Z) by lia. subst h.
      unfold Double.loopInv.
      cbn [Double.weightBg Double.sumBg Double.maxVariance Double.best].
      rewrite sumZ_app, weightedSum_app, Hw, Hs, Hlen. cbn [weightedSum sumZ fold_right].
      split; [lia|]. split; [lia|]. split.
      - intros t v Ht Hv. destruct (Nat.eq_dec t (length done)) as [->|Hne].
        + unfold Double.scoreAt in Hv. rewrite Wt in Hv.
          destruct (Z.eqb_spec (Double.weightBg st + 0) 0); [discriminate|contradiction].
        + apply (Hall t); [lia|exact Hv].
      - destruct Hbest as [Hb|(Hb & Hrest)]; [left; exact Hb|right].
        split; [lia|exact Hrest]. }
    destruct (Z.eqb_spec (total - (Double.weightBg st + h)) 0) as [F0|F0].
    { (* break *)
      assert (Late : forall t v, length done <= t ->
                                 Double.scoreAt histogram total t = Some v -> False).
      { intros t v Hge Hv. unfold Double.scoreAt in Hv.
        rewrite (weightUpTo_full histogram total (length done) t Hpos Hsum Hge) in Hv
          by lia.
        rewrite Z.sub_diag, orb_true_r in Hv. discriminate. }
      destruct Hbest as [[Hb Hm]|(Hb & Hsc & Hp & Hlow)].
      - left. split; [exact Hb|]. intros t v Ht Hv.
        destruct (Nat.lt_ge_cases t (length done)) as [Hlt|Hge].
        + rewrite <- Hm. now apply (Hall t).
        + exfalso. now apply (Late t v).
      - right. split; [rewrite Hh, length_app; lia|].
        exists (Double.maxVariance st). repeat split; try assumption.
        intros t v Ht Hv.
        destruct (Nat.lt_ge_cases t (length done)) as [Hlt|Hge].
        + now apply (Hall t).
        + exfalso. now apply (Late t v). }
    (* a threshold with two non-empty sides *)
    set (variance := Double.betweenClassVariance (weightedSum 0 histogram)
                       (Double.sumBg st + Z.of_nat (length done) * h)
                       (Double.weightBg st + h)
                       (total - (Double.weightBg st + h))).
    assert (Sc : Double.scoreAt histogram total (length done) = Some variance).
    { unfold Double.scoreAt. rewrite Wt, St.
      destruct (Z.eqb_spec (Double.weightBg st + h) 0); [contradiction|].
      destruct (Z.eqb_spec (total - (Double.weightBg st + h)) 0); [contradiction|].
      reflexivity. }
    destruct (PrimFloat.ltb (Double.maxVariance st) variance) eqn:G.
    + (* a new maximum *)
      assert (Above : forall t v, t < length done ->
                        Double.scoreAt histogram total t = Some v ->
                        PrimFloat.ltb variance v = false
                        /\ PrimFloat.leb variance v = false).
      { intros t v Ht Hv. assert (N := Hall t v Ht Hv). split.
        - destruct (PrimFloat.ltb variance v) eqn:X; [|reflexivity].
          rewrite (double_ltb_trans _ _ _ G X) in N. discriminate.
        - destruct (PrimFloat.leb variance v) eqn:X; [|reflexivity].
          rewrite (double_ltb_leb_trans _ _ _ G X) in N. discriminate. }
      rewrite <- Hlen. apply IH; [exact Hh'|].
      unfold Double.loopInv.
      cbn [Double.weightBg Double.sumBg Double.maxVariance Double.best].
      rewrite sumZ_app, weightedSum_app, Hw, Hs, Hlen. cbn [weightedSum sumZ fold_right].
      split; [lia|]. split; [cbn [Nat.add]; lia|]. split.
      * intros t v Ht Hv. destruct (Nat.eq_dec t (length done)) as [->|Hne].
        -- rewrite Sc in Hv. injection Hv as <-. apply double_ltb_irrefl.
        -- apply (Above t v); [lia|exact Hv].
      * right. split; [lia|]. split; [exact Sc|]. split.
        -- destruct Hbest as [[_ Hm]|(_ & _ & Hp & _)].
           ++ now rewrite <- Hm.
           ++ exact (double_ltb_trans _ _ _ Hp G).
        -- intros t v Ht Hv. now apply (Above t v).
    + (* not above the maximum: the earlier threshold is kept *)
      rewrite <- Hlen. apply IH; [exact Hh'|].
      unfold Double.loopInv.
      cbn [Double.weightBg Double.sumBg Double.maxVariance Double.best].
      rewrite sumZ_app, weightedSum_app, Hw, Hs, Hlen. cbn [weightedSum sumZ fold_right].
      split; [lia|]. split; [cbn [Nat.add]; lia|]. split.
      * intros t v Ht Hv. destruct (Nat.eq_dec t (length done)) as [->|Hne].
        -- rewrite Sc in Hv. injection Hv as <-. exact G.
        -- apply (Hall t); [lia|exact Hv].
      * destruct Hbest as [Hb|(Hb & Hrest)]; [left; exact Hb|right].
        split; [lia|exact Hrest].
Qed.

Lemma double_otsuOfHistogram_leastArgmax :
  Double.leastArgmax histogram total (Double.otsuOfHistogram histogram total).
Proof.
  unfold Double.otsuOfHistogram.
  apply (double_otsuLoop_leastArgmax histogram [] Double.otsuInit); [reflexivity|].
  unfold Double.loopInv, Double.otsuInit.
  cbn [Double.weightBg Double.sumBg Double.maxVariance Double.best length].
  split; [reflexivity|]. split; [reflexivity|]. split.
  - intros t v Ht. lia.
  - left. split; reflexivity.
Qed.

End DoubleLoopInvariant.

Lemma double_otsuThreshold_leastArgmax values :
  Double.leastArgmax (histogramOf values) (Z.of_nat (length values))
    (Double.otsuThreshold values).
Proof.
  apply double_otsuOfHistogram_leastArgmax;
    [apply histogramOf_nonneg | apply histogramOf_sum_le].
Qed.

(** Pixel lists with the same histogram get the same threshold. *)
Lemma double_otsuThreshold_histogram v1 v2 :
  (forall x, In x v1 -> x < 256) -> (forall x, In x v2 -> x < 256) ->
  histogramOf v1 = histogramOf v2 -> Double.otsuThreshold v1 = Double.otsuThreshold v2.
Proof.
  intros H1 H2 E. unfold Double.otsuThreshold.
  rewrite (histogramOf_sum_in_range v1 H1), (histogramOf_sum_in_range v2 H2), E.
  reflexivity.
Qed.

(** Rounding can tell apart two scores that are equal as rationals: with
    pixels 0, 1, 1, 2 the thresholds 0 and 1 both score 16/3, the doubles
    are 5.333333333333333 and 5.333333333333334, and the threshold is 1,
    where exact arithmetic keeps 0. *)
Example otsuThreshold_rounding :
  Double.otsuThreshold [0; 1; 1; 2] = 1 /\ otsuThreshold [0; 1; 1; 2] = 0.
Proof. split; vm_compute; reflexivity. Qed.

(** On an image with two intensities the two models agree. *)
Lemma otsuThreshold_two_values_agree values a b :
  a < b -> b < 256 -> In a values -> In b values ->
  (forall v, In v values -> v = a \/ v = b) ->
  (Z.of_nat (length values) * 255 < 2 ^ 53)%Z ->
  Double.otsuThreshold values = otsuThreshold values.
Proof.
  intros Hab Hb Ia Ib Hall Hlen.
  rewrite (double_otsuThreshold_two_values values a b) by assumption.
  symmetry. apply otsuThreshold_two_values with b; assumption.
Qed.

(** C9 (as amended): the threshold is a function of the histogram; it is
    the lowest threshold of maximal computed between-class variance, so
    ties go to the lowest candidate, and it is 128 when no threshold has a
    computed variance above zero, in particular on a histogram with a
    single occupied bin; on a histogram with exactly two occupied bins
    [a < b], of an image whose counts and sums are below 2^53, the
    threshold is [a], the lower cluster mean itself: it is at least the
    lower mean and below the upper one. *)
Theorem otsuThreshold_properties :
  (forall v1 v2,
      (forall x, In x v1 -> x < 256) -> (forall x, In x v2 -> x < 256) ->
      histogramOf v1 = histogramOf v2 ->
      Double.otsuThreshold v1 = Double.otsuThreshold v2)
  /\ (forall values,
         Double.leastArgmax (histogramOf values) (Z.of_nat (length values))
           (Double.otsuThreshold values))
  /\ (forall values v,
         (forall x, In x values -> x = v) -> Double.otsuThreshold values = 128)
  /\ (forall values a b,
         a < b -> b < 256 -> In a values -> In b values ->
         (forall v, In v values -> v = a \/ v = b) ->
         (Z.of_nat (length values) * 255 < 2 ^ 53)%Z ->
         Double.otsuThreshold values = a /\ a <= Double.otsuThreshold values < b).
Proof.
  split; [exact double_otsuThreshold_histogram|].
  split; [exact double_otsuThreshold_leastArgmax|].
  split; [exact double_otsuThreshold_single|].
  intros values a b Hab Hb Ia Ib Hall Hlen.
  rewrite (double_otsuThreshold_two_values values a b Hab Hb Ia Ib Hall Hlen). lia.
Qed.

Lemma otsuThreshold_properties_witness :
  Double.otsuThreshold [7; 7; 7] = 128
  /\ Double.otsuThreshold [10; 200; 200; 10; 10] = 10.
Proof.
  destruct otsuThreshold_properties as (_ & _ & H1 & H2). split.
  - apply (H1 [7; 7; 7] 7). simpl. intuition congruence.
  - apply (H2 [10; 200; 200; 10; 10] 10 200); simpl; try lia; tauto.
Defined.

(** C9 fails as stated: with pixels of intensity 10 and 200 the cluster
    means are 10 and 200, and the threshold is 10, not a value strictly
    between them. *)
Lemma otsuThreshold_not_strictly_between :
  Double.otsuThreshold [10; 200] = 10
  /\ ~ (10 < Double.otsuThreshold [10; 200] < 200).
Proof.
  assert (E : Double.otsuThreshold [10; 200] = 10) by (vm_compute; reflexivity).
  split; [exact E|]. rewrite E. lia.
Qed.

(** With that threshold the comparison [gray < threshold] sends both
    clusters to white. *)
Example binarize_two_values :
  binarize (otsuThreshold [10; 200]) 10 = 255
  /\ binarize (otsuThreshold [10; 200]) 200 = 255.
Proof. split; vm_compute; reflexivity. Qed.

(* ------------------------------------------------------------------ *)
(** ** Properties of the extraction run *)
(* ------------------------------------------------------------------ *)

Section RunFacts.

Variable image : Type.
Variable w : World image.

(** *** Passes 1 and 2 swallow their failures *)

Lemma pass1_preprocess_throws src e log :
  preprocessImageForMRZ w src false = Thrown e ->
  pass1 w src log = (Returned None, log ++ [Preprocess src false]).
Proof.
  intros H. unfold pass1, tryOrNull, bind, call. now rewrite H.
Qed.

Lemma pass1_recognize_throws src img e log :
  preprocessImageForMRZ w src false = Returned img -> recognize w img = Thrown e ->
  pass1 w src log
  = (Returned None, (log ++ [Preprocess src false]) ++ [Recognize img]).
Proof.
  intros H1 H2. unfold pass1, tryOrNull, bind, call. now rewrite H1, H2.
Qed.

Lemma pass2_preprocess_throws src e log :
  preprocessImageForMRZ w src true = Thrown e ->
  pass2 w src log = (Returned None, log ++ [Preprocess src true]).
Proof.
  intros H. unfold pass2, tryOrNull, bind, call. now rewrite H.
Qed.

Lemma pass2_recognize_throws src img e log :
  preprocessImageForMRZ w src true = Returned img -> recognize w img = Thrown e ->
  pass2 w src log
  = (Returned None, (log ++ [Preprocess src true]) ++ [Recognize img]).
Proof.
  intros H1 H2. unfold pass2, tryOrNull, bind, call. now rewrite H1, H2.
Qed.

Lemma scanPage_after_pass1 src log log' :
  pass1 w src log = (Returned None, log') -> scanPage w src log = fromPass2 w src log'.
Proof.
  intros H. unfold scanPage, fromPass2, bind. rewrite H.
  destruct (pass2 w src log') as [[[l|]|e] l2]; reflexivity.
Qed.

Lemma fromPass2_after_pass2 src log log' :
  pass2 w src log = (Returned None, log') -> fromPass2 w src log = pass3 w src log'.
Proof.
  intros H. unfold fromPass2, bind. now rewrite H.
Qed.

(** Passes 1 and 2 never throw. *)
Lemma pass1_returns src log : exists r log', pass1 w src log = (Returned r, log').
Proof.
  unfold pass1, tryOrNull. destruct (bind _ _ log) as [[r|e] l]; eauto.
Qed.

Lemma pass2_returns src log : exists r log', pass2 w src log = (Returned r, log').
Proof.
  unfold pass2, tryOrNull. destruct (bind _ _ log) as [[r|e] l]; eauto.
Qed.

(** *** Pass 3 does not *)

Lemma pass3_throws src e log :
  recognize w src = Thrown e -> pass3 w src log = (Thrown e, log ++ [Recognize src]).
Proof.
  intros H. unfold pass3, bind, call. now rewrite H.
Qed.

(** A page throws only through pass 3, on the original image. *)
Lemma scanPage_throws_inv src e log log' :
  scanPage w src log = (Thrown e, log') -> recognize w src = Thrown e.
Proof.
  unfold scanPage, bind.
  destruct (pass1_returns src log) as (r1 & l1 & ->).
  assert (P3 : forall l, pass3 w src l = (Thrown e, log') -> recognize w src = Thrown e).
  { intros l. unfold pass3, bind, call.
    destruct (recognize w src) as [text|e']; [discriminate|]. congruence. }
  destruct r1 as [p|].
  - unfold ret. discriminate.
  - destruct (pass2_returns src l1) as (r2 & l2 & ->).
    destruct r2 as [p|]; [unfold ret; discriminate|]. apply P3.
Qed.

(** An error thrown by a page leaves the loop: the pages after it are not
    looked at. *)
Lemma scanPages_throws src rest e log log' :
  scanPage w src log = (Thrown e, log') ->
  scanPages w (src :: rest) log = (Thrown e, log').
Proof.
  intros H. cbn [scanPages]. unfold bind. now rewrite H.
Qed.

(** A page without an MRZ hands over to the next page. *)
Lemma scanPages_next src rest log log' :
  scanPage w src log = (Returned None, log') ->
  scanPages w (src :: rest) log = scanPages w rest log'.
Proof.
  intros H. cbn [scanPages]. unfold bind. now rewrite H.
Qed.

(** *** The worker *)

Lemma releases_app (l1 l2 : list (event image)) :
  releases (l1 ++ l2) = releases l1 + releases l2.
Proof. unfold releases. now rewrite filter_app, length_app. Qed.

(** Scanning does not release the worker. *)
Lemma ret_keepsWorker (A : Type) (a : A) : keepsWorker (ret (image:=image) a).
Proof. intros log r log' H. unfold ret in H. now injection H as <- <-. Qed.

Lemma call_keepsWorker (A : Type) (ev : event image) (answer : outcome A) :
  isTerminate ev = false -> keepsWorker (call ev answer).
Proof.
  intros Hev log r log' H. unfold call in H. injection H as <- <-.
  rewrite releases_app. unfold releases at 2. simpl. rewrite Hev. simpl. lia.
Qed.

Lemma bind_keepsWorker (A B : Type) (m : M image A) (k : A -> M image B) :
  keepsWorker m -> (forall a, keepsWorker (k a)) -> keepsWorker (bind m k).
Proof.
  intros Hm Hk log r log'. unfold bind.
  destruct (m log) as [[a|e] l] eqn:E; apply Hm in E.
  - intros H. apply Hk in H. lia.
  - intros H. injection H as <- <-. exact E.
Qed.

Lemma tryOrNull_keepsWorker (A : Type) (m : M image (option A)) :
  keepsWorker m -> keepsWorker (tryOrNull m).
Proof.
  intros Hm log r log'. unfold tryOrNull.
  destruct (m log) as [[a|e] l] eqn:E; apply Hm in E;
    intros H; injection H as <- <-; exact E.
Qed.

Lemma pass1_keepsWorker src : keepsWorker (pass1 w src).
Proof.
  apply tryOrNull_keepsWorker, bind_keepsWorker; [now apply call_keepsWorker|].
  intros img. apply bind_keepsWorker; [now apply call_keepsWorker|].
  intros text. apply ret_keepsWorker.
Qed.

Lemma pass2_keepsWorker src : keepsWorker (pass2 w src).
Proof.
  apply tryOrNull_keepsWorker, bind_keepsWorker; [now apply call_keepsWorker|].
  intros img. apply bind_keepsWorker; [now apply call_keepsWorker|].
  intros text. apply ret_keepsWorker.
Qed.

Lemma pass3_keepsWorker src : keepsWorker (pass3 w src).
Proof.
  apply bind_keepsWorker; [now apply call_keepsWorker|].
  intros text. apply ret_keepsWorker.
Qed.

Lemma scanPage_keepsWorker src : keepsWorker (scanPage w src).
Proof.
  apply bind_keepsWorker; [apply pass1_keepsWorker|].
  intros r1. apply bind_keepsWorker.
  - destruct r1; [apply ret_keepsWorker | apply pass2_keepsWorker].
  - intros r2. destruct r2; [apply ret_keepsWorker | apply pass3_keepsWorker].
Qed.

Lemma scanPages_keepsWorker imageSrcs : keepsWorker (scanPages w imageSrcs).
Proof.
  induction imageSrcs as [|src rest IH]; cbn [scanPages].
  - apply ret_keepsWorker.
  - apply bind_keepsWorker; [apply scanPage_keepsWorker|].
    intros r. destruct r; [apply ret_keepsWorker | exact IH].
Qed.

(** With a worker at hand, the run releases it once when the loop over the
    pages ends normally, and not at all when the loop throws. *)
Lemma extractData_releases imageSrcs :
  createWorker w = Returned tt -> setParameters w = Returned tt ->
  releases (snd (extractData w imageSrcs))
  = match fst (scanPages w imageSrcs [CreateWorker; SetParameters]) with
    | Returned _ => 1
    | Thrown _ => 0
    end.
Proof.
  intros Hc Hs. unfold extractData, extractBody, bind, call. rewrite Hc, Hs.
  cbn [app].
  destruct (scanPages w imageSrcs _) as [[found|e] l] eqn:E;
    apply scanPages_keepsWorker in E; cbn [fst].
  - destruct (terminate w) as [[]|e].
    + destruct found as [data|]; unfold ret, throw; cbn [snd];
        rewrite releases_app, E; reflexivity.
    + cbn [snd]. rewrite releases_app, E. reflexivity.
  - cbn [snd]. exact E.
Qed.

(** The outcome of a run whose loop throws. *)
Lemma extractData_throws imageSrcs e log :
  createWorker w = Returned tt -> setParameters w = Returned tt ->
  scanPages w imageSrcs [CreateWorker; SetParameters] = (Thrown e, log) ->
  extractData w imageSrcs
  = ({| passportData := None; error := Some (orElse (message e) defaultMessage) |}, log).
Proof.
  intros Hc Hs H. unfold extractData, extractBody, bind, call. rewrite Hc, Hs.
  cbn [app]. now rewrite H.
Qed.

End RunFacts.

(** Where C7 holds: on a page, a failure of the preprocessing or of the
    OCR of pass 1 is swallowed and pass 2 is run, a failure in pass 2 is
    swallowed and pass 3 is run, and a pass 3 that finds nothing hands
    over to the next page. *)
Lemma page_failures_swallowed (image : Type) (w : World image) (src : image) :
  (forall log e,
      preprocessImageForMRZ w src false = Thrown e ->
      scanPage w src log = fromPass2 w src (log ++ [Preprocess src false]))
  /\ (forall log img e,
         preprocessImageForMRZ w src false = Returned img ->
         recognize w img = Thrown e ->
         scanPage w src log
         = fromPass2 w src ((log ++ [Preprocess src false]) ++ [Recognize img]))
  /\ (forall log e,
         preprocessImageForMRZ w src true = Thrown e ->
         fromPass2 w src log = pass3 w src (log ++ [Preprocess src true]))
  /\ (forall log img e,
         preprocessImageForMRZ w src true = Returned img ->
         recognize w img = Thrown e ->
         fromPass2 w src log
         = pass3 w src ((log ++ [Preprocess src true]) ++ [Recognize img]))
  /\ (forall log log' rest,
         scanPage w src log = (Returned None, log') ->
         scanPages w (src :: rest) log = scanPages w rest log').
Proof.
  split.
  { intros log e H. apply scanPage_after_pass1. now apply pass1_preprocess_throws with e. }
  split.
  { intros log img e H1 H2. apply scanPage_after_pass1.
    now apply pass1_recognize_throws with e. }
  split.
  { intros log e H. apply fromPass2_after_pass2. now apply pass2_preprocess_throws with e. }
  split.
  { intros log img e H1 H2. apply fromPass2_after_pass2.
    now apply pass2_recognize_throws with e. }
  intros log log' rest. apply scanPages_next.
Qed.

(** C7, at the failing run: the passes on the preprocessed first page find
    nothing, the OCR of the original first page (pass 3, the one call of
    the loop outside a [try]) fails, and the run ends with that error
    without looking at the second page, which holds an MRZ. *)
Lemma pass3_failure_ends_run :
  recognize failingWorld 1 = Thrown ocrFailure
  /\ extractMRZ asciiToUpperCase icaoTranscript = Some (icaoLine1, icaoLine2)
  /\ recognize failingWorld 2 = Returned icaoTranscript
  /\ extractData failingWorld [1; 2]
     = ({| passportData := None; error := Some (lit "OCR failed") |},
        [CreateWorker; SetParameters; Preprocess 1 false; Recognize 201;
         Preprocess 1 true; Recognize 101; Recognize 1])
  /\ passportData (fst (extractData failingWorld [2]))
     = Some (parseMRZ 2024 (icaoLine1, icaoLine2)).
Proof. repeat split; vm_compute; reflexivity. Qed.

(** C8, at the failing run: pass 3 throws on the only page, the call of
    [terminate] after the loop is skipped, and the worker that was created
    is never released. *)
Theorem extractData_leaks_worker :
  In CreateWorker (snd (extractData failingWorld [1]))
  /\ error (fst (extractData failingWorld [1])) = Some (lit "OCR failed")
  /\ releases (snd (extractData failingWorld [1])) = 0.
Proof.
  split; [vm_compute; tauto|]. split; vm_compute; reflexivity.
Qed.

(** Where C8 holds: the worker is released exactly once when a record is
    found and when no page holds an MRZ. *)
Lemma extractData_releases_once (image : Type) (w : World image) imageSrcs found log :
  createWorker w = Returned tt -> setParameters w = Returned tt ->
  scanPages w imageSrcs [CreateWorker; SetParameters] = (Returned found, log) ->
  releases (snd (extractData w imageSrcs)) = 1.
Proof.
  intros Hc Hs H. rewrite extractData_releases by assumption. now rewrite H.
Qed.

Example extractData_found :
  extractData failingWorld [3; 2]
  = ({| passportData := Some (parseMRZ 2024 (icaoLine1, icaoLine2)); error := None |},
     [CreateWorker; SetParameters;
      Preprocess 3 false; Recognize 203; Preprocess 3 true; Recognize 103; Recognize 3;
      Preprocess 2 false; Recognize 202; Preprocess 2 true; Recognize 102; Recognize 2;
      Terminate]).
Proof. vm_compute. reflexivity. Qed.

Example extractData_not_found :
  extractData failingWorld [3]
  = ({| passportData := None; error := Some notFoundMessage |},
     [CreateWorker; SetParameters;
      Preprocess 3 false; Recognize 203; Preprocess 3 true; Recognize 103; Recognize 3;
      Terminate]).
Proof. vm_compute. reflexivity. Qed.

(* ------------------------------------------------------------------ *)
(** ** Further properties of the corrector *)
(* ------------------------------------------------------------------ *)

Lemma Forall2_same (R : N -> N -> Prop) l : (forall c, R c c) -> Forall2 R l l.
Proof. intros H. induction l; constructor; auto. Qed.

Lemma keptOrFiller_trans l1 : forall l2 l3,
  Forall2 keptOrFiller l1 l2 -> Forall2 keptOrFiller l2 l3 -> Forall2 keptOrFiller l1 l3.
Proof.
  induction l1 as [|a l1 IH]; intros l2 l3 H12 H23.
  - inversion H12; subst. inversion H23; subst. constructor.
  - inversion H12 as [|? b ? l2' Hab H12']; subst.
    inversion H23 as [|? c ? l3' Hbc H23']; subst.
    constructor; [|now apply IH with l2'].
    destruct Hab as [->|[Ha ->]]; [exact Hbc|].
    destruct Hbc as [->|[Hb _]]; [right; now split|discriminate].
Qed.

(** A replacement that respects a relation on the matched text respects
    it on the whole string. *)
Lemma replaceFirst_Forall2 (R : N -> N -> Prop) m :
  (forall c, R c c) ->
  (forall s n r, m s = Some (n, r) -> Forall2 R (firstn n s) r) ->
  forall s, Forall2 R s (replaceFirst m s).
Proof.
  intros Hrefl Hm s. induction s as [|c t IH]; cbn [replaceFirst].
  - destruct (m []) as [[n r]|] eqn:E; [|constructor].
    apply Hm in E. rewrite firstn_nil in E. rewrite skipn_nil, app_nil_r. exact E.
  - destruct (m (c :: t)) as [[n r]|] eqn:E.
    + apply Hm in E. rewrite <- (firstn_skipn n (c :: t)) at 1.
      apply Forall2_app; [exact E|now apply Forall2_same].
    + constructor; [apply Hrefl|exact IH].
Qed.

Lemma fillers_Forall2 (p : N -> bool) s :
  (forall c, p c = true -> keptOrFiller c FILLER) ->
  forallb p s = true -> Forall2 keptOrFiller s (repeat FILLER (length s)).
Proof.
  intros Hp. induction s as [|c t IH]; cbn [forallb length repeat]; [constructor|].
  intros H. apply andb_prop in H. destruct H as [Hc Ht].
  constructor; [now apply Hp|now apply IH].
Qed.

Lemma trailingRunAt_keptOrFiller s n r :
  trailingRunAt s = Some (n, r) -> Forall2 keptOrFiller (firstn n s) r.
Proof.
  unfold trailingRunAt. destruct (_ && _) eqn:G; [|discriminate].
  intros E. injection E as <- <-. rewrite firstn_all.
  apply andb_prop in G. destruct G as [_ G].
  apply (fillers_Forall2 isCELA); [|exact G]. intros c Hc. right. now split.
Qed.

Lemma letterCCAt_keptOrFiller s n r :
  letterCCAt s = Some (n, r) -> Forall2 keptOrFiller (firstn n s) r.
Proof.
  unfold letterCCAt. destruct s as [|a [|b [|c [|d t]]]]; try discriminate.
  destruct (_ && _) eqn:G; [|discriminate].
  intros E. injection E as <- <-.
  apply andb_prop in G. destruct G as [G _].
  apply andb_prop in G. destruct G as [G Hc].
  apply andb_prop in G. destruct G as [_ Hb].
  apply N.eqb_eq in Hb, Hc. subst.
  cbn [firstn]. repeat constructor; try (now left); right; split; reflexivity.
Qed.

Lemma repairName_keptOrFiller ns : Forall2 keptOrFiller ns (repairName ns).
Proof.
  unfold repairName.
  assert (H1 : Forall2 keptOrFiller ns (replaceFirst trailingRunAt ns)).
  { apply replaceFirst_Forall2; [now left|apply trailingRunAt_keptOrFiller]. }
  destruct (negb _); [|exact H1].
  apply keptOrFiller_trans with (replaceFirst trailingRunAt ns); [exact H1|].
  apply replaceFirst_Forall2; [now left|apply letterCCAt_keptOrFiller].
Qed.

Lemma fillerTailAt_keptOrFiller s n r :
  Legacy.fillerTailAt s = Some (n, r) -> Forall2 keptOrFiller (firstn n s) r.
Proof.
  unfold Legacy.fillerTailAt. destruct s as [|a [|b rest]]; try discriminate.
  destruct (_ && _) eqn:G; [|discriminate].
  intros E.
  assert (En : n = length (a :: b :: rest)) by congruence.
  assert (Er : r = repeat FILLER (length (a :: b :: rest))) by congruence.
  subst n r. clear E. rewrite firstn_all.
  apply andb_prop in G. destruct G as [G Hrest].
  apply andb_prop in G. destruct G as [Ha Hb].
  apply (fillers_Forall2 Legacy.isCELAorFiller).
  - intros c Hc. unfold Legacy.isCELAorFiller in Hc. apply orb_prop in Hc.
    destruct Hc as [Hc|Hc]; [right; now split|].
    left. symmetry. now apply N.eqb_eq.
  - cbn [forallb]. rewrite Hrest.
    unfold Legacy.isCorFiller in Ha, Hb. unfold Legacy.isCELAorFiller, isCELA.
    apply orb_prop in Ha. apply orb_prop in Hb.
    destruct Ha as [Ha|Ha], Hb as [Hb|Hb];
      try (apply N.eqb_eq in Ha; unfold LETTER_C in Ha; subst a);
      try (apply N.eqb_eq in Hb; unfold LETTER_C in Hb; subst b);
      try rewrite Ha; try rewrite Hb; rewrite ?orb_true_r; reflexivity.
Qed.

Lemma lastCC_keptOrFiller t : forall t',
  Legacy.lastCC t = Some t' -> Forall2 keptOrFiller t t'.
Proof.
  induction t as [|c t IH]; intros t'; cbn [Legacy.lastCC]; [discriminate|].
  destruct (if Legacy.isLineTerminator c then None else Legacy.lastCC t) as [u|] eqn:E.
  - intros H. injection H as <-.
    assert (Hu : Legacy.lastCC t = Some u)
      by (destruct (Legacy.isLineTerminator c); [discriminate|exact E]).
    constructor; [now left|now apply IH].
  - destruct (_ && _) eqn:G; [|discriminate].
    intros H. injection H as <-.
    apply andb_prop in G. destruct G as [G _].
    change (lit "CC") with [LETTER_C; LETTER_C] in G.
    destruct t as [|d t]; cbn [startsWith] in G;
      [rewrite andb_false_r in G; discriminate|].
    apply andb_prop in G. destruct G as [Hc G].
    apply andb_prop in G. destruct G as [Hd _].
    apply N.eqb_eq in Hc, Hd. subst c d.
    change (lit "<<") with [FILLER; FILLER]. cbn [skipn app].
    constructor; [right; split; reflexivity|].
    constructor; [right; split; reflexivity|].
    apply Forall2_same. now left.
Qed.

Lemma legacy_repairName_keptOrFiller ns :
  Forall2 keptOrFiller ns (Legacy.repairName ns).
Proof.
  unfold Legacy.repairName.
  assert (H1 : Forall2 keptOrFiller ns (replaceFirst Legacy.fillerTailAt ns)).
  { apply replaceFirst_Forall2; [now left|apply fillerTailAt_keptOrFiller]. }
  destruct (negb _); [|exact H1].
  apply keptOrFiller_trans with (replaceFirst Legacy.fillerTailAt ns); [exact H1|].
  unfold Legacy.restoreSeparator.
  destruct (replaceFirst Legacy.fillerTailAt ns) as [|c t];
    [constructor|].
  destruct (Legacy.isLineTerminator c); [apply Forall2_same; now left|].
  destruct (Legacy.lastCC t) as [t'|] eqn:E; [|apply Forall2_same; now left].
  constructor; [now left|now apply lastCC_keptOrFiller].
Qed.

(** X1: in both copies the corrector keeps the first five characters and
    changes nothing but a C, E, L or A into a filler, position by
    position; the result is as long as the input. *)
Theorem cleanMRZLine1_only_fills line :
  (firstn 5 (cleanMRZLine1 line) = firstn 5 line
   /\ Forall2 keptOrFiller line (cleanMRZLine1 line)
   /\ length (cleanMRZLine1 line) = length line)
  /\ (firstn 5 (Legacy.cleanMRZLine1 line) = firstn 5 line
      /\ Forall2 keptOrFiller line (Legacy.cleanMRZLine1 line)
      /\ length (Legacy.cleanMRZLine1 line) = length line).
Proof.
  assert (K : forall c : N, keptOrFiller c c) by (intros c; now left).
  split.
  - rewrite cleanMRZLine1_unfold.
    destruct ((length line <? 44) || _) eqn:G.
    + split; [reflexivity|]. split; [now apply Forall2_same|reflexivity].
    + apply orb_false_elim in G. destruct G as [Hlen _]. apply Nat.ltb_ge in Hlen.
      destruct (name_section_rebuilt line (repairName (substringFrom 5 line)))
        as [_ Hpre]; [lia|].
      rewrite !substring_0_5 in Hpre.
      assert (F : Forall2 keptOrFiller line
                    (substring 0 5 line ++ repairName (substringFrom 5 line))).
      { rewrite <- (firstn_skipn 5 line) at 1. rewrite substring_0_5.
        apply Forall2_app; [now apply Forall2_same|apply repairName_keptOrFiller]. }
      split; [rewrite substring_0_5; exact Hpre|]. split; [exact F|].
      symmetry. now apply Forall2_length in F.
  - rewrite legacy_cleanMRZLine1_unfold.
    destruct ((length line <? 44) || _) eqn:G.
    + split; [reflexivity|]. split; [now apply Forall2_same|reflexivity].
    + apply orb_false_elim in G. destruct G as [Hlen _]. apply Nat.ltb_ge in Hlen.
      destruct (name_section_rebuilt line (Legacy.repairName (substringFrom 5 line)))
        as [_ Hpre]; [lia|].
      rewrite !substring_0_5 in Hpre.
      assert (F : Forall2 keptOrFiller line
                    (substring 0 5 line ++ Legacy.repairName (substringFrom 5 line))).
      { rewrite <- (firstn_skipn 5 line) at 1. rewrite substring_0_5.
        apply Forall2_app; [now apply Forall2_same|apply legacy_repairName_keptOrFiller]. }
      split; [rewrite substring_0_5; exact Hpre|]. split; [exact F|].
      symmetry. now apply Forall2_length in F.
Qed.

(** Characters of the MRZ alphabet stay in the alphabet. *)
Lemma keptOrFiller_alphabet l l' :
  Forall2 keptOrFiller l l' -> forallb isMrzChar l = true -> forallb isMrzChar l' = true.
Proof.
  induction 1 as [|c c' l l' Hc Hl IH]; [reflexivity|].
  cbn [forallb]. intros H. apply andb_prop in H. destruct H as [H1 H2].
  rewrite (IH H2), andb_true_r.
  destruct Hc as [->|[_ ->]]; [exact H1|reflexivity].
Qed.

Lemma replaceFirst_match m s n r :
  m s = Some (n, r) -> replaceFirst m s = r ++ skipn n s.
Proof. intros H. destruct s; cbn [replaceFirst]; now rewrite H. Qed.

Lemma replaceFirst_trailing_run body run :
  forallb isCELA run = true -> 3 <= length run ->
  exists x, length x = length body
            /\ replaceFirst trailingRunAt (body ++ run) = x ++ repeat FILLER (length run).
Proof.
  intros Hrun Hlen. induction body as [|c body IH].
  - exists []. split; [reflexivity|]. cbn [app].
    rewrite (replaceFirst_match trailingRunAt run (length run) (repeat FILLER (length run))).
    + now rewrite skipn_all, app_nil_r.
    + unfold trailingRunAt. rewrite Hrun.
      apply Nat.leb_le in Hlen. now rewrite Hlen.
  - cbn [app replaceFirst].
    destruct (trailingRunAt (c :: body ++ run)) as [[n r]|] eqn:E.
    + unfold trailingRunAt in E. destruct (_ && _); [|discriminate].
      assert (En : n = length (c :: body ++ run)) by congruence.
      assert (Er : r = repeat FILLER (length (c :: body ++ run))) by congruence.
      subst n r. clear E. rewrite skipn_all, app_nil_r.
      exists (repeat FILLER (length (c :: body))). split; [apply repeat_length|].
      rewrite <- repeat_app. f_equal. cbn [length]. rewrite length_app. lia.
    + destruct IH as (x & Hx & E'). exists (c :: x). split; [simpl; lia|].
      rewrite E'. reflexivity.
Qed.

Lemma keptOrFiller_fillers n l :
  Forall2 keptOrFiller (repeat FILLER n) l -> l = repeat FILLER n.
Proof.
  revert l. induction n as [|n IH]; intros l H; cbn [repeat] in *.
  - now inversion H.
  - inversion H as [|? c' ? l' Hc Hl]; subst. f_equal; [|now apply IH].
    destruct Hc as [->|[_ ->]]; reflexivity.
Qed.

Lemma repairName_trailing_run body run :
  forallb isCELA run = true -> 3 <= length run ->
  exists x, length x = length body
            /\ repairName (body ++ run) = x ++ repeat FILLER (length run).
Proof.
  intros Hrun Hlen.
  destruct (replaceFirst_trailing_run body run Hrun Hlen) as (x & Hx & E).
  unfold repairName. rewrite E.
  destruct (negb _); [|now exists x].
  assert (F : Forall2 keptOrFiller (x ++ repeat FILLER (length run))
                (replaceFirst letterCCAt (x ++ repeat FILLER (length run)))).
  { apply replaceFirst_Forall2; [now left|apply letterCCAt_keptOrFiller]. }
  apply Forall2_app_inv_l in F. destruct F as (x' & f' & Fx & Ff & ->).
  apply keptOrFiller_fillers in Ff. subst f'.
  exists x'. split; [|reflexivity].
  apply Forall2_length in Fx. lia.
Qed.

(** X2: when no guard stops the corrector, a run of three or more
    characters among C, E, L, A at the very end of the line comes back as
    as many fillers. *)
Theorem cleanMRZLine1_trailing_run line body run :
  44 <= length line ->
  fillerEvidence (substringFrom 5 line) = false ->
  substringFrom 5 line = body ++ run ->
  forallb isCELA run = true -> 3 <= length run ->
  skipn (length line - length run) (cleanMRZLine1 line) = repeat FILLER (length run).
Proof.
  intros Hlen G Hns Hrun Hrl.
  rewrite cleanMRZLine1_unfold, G.
  apply Nat.ltb_ge in Hlen. rewrite Hlen. cbn [orb]. apply Nat.ltb_ge in Hlen.
  rewrite Hns.
  destruct (repairName_trailing_run body run Hrun Hrl) as (x & Hx & ->).
  assert (L : length line = 5 + (length body + length run)).
  { rewrite <- (firstn_skipn 5 line) at 1. rewrite length_app, length_firstn.
    unfold substringFrom in Hns. rewrite Hns, length_app. lia. }
  rewrite substring_0_5, app_assoc, skipn_app.
  assert (Lp : length (firstn 5 line ++ x) = length line - length run)
    by (rewrite length_app, length_firstn; lia).
  rewrite Lp, skipn_all2 by lia. rewrite Nat.sub_diag. reflexivity.
Qed.

Lemma cleanMRZLine1_trailing_run_witness :
  skipn (length misreadTailLine - 4) (cleanMRZLine1 misreadTailLine) = lit "<<<<".
Proof.
  apply (cleanMRZLine1_trailing_run misreadTailLine
           (lit "ERIKSSONXANNAXMARIAXXXXXXXXXXXXXXXX") (lit "CCCE"));
    vm_compute; try reflexivity; lia.
Defined.

(* ------------------------------------------------------------------ *)
(** ** Further properties of the decoder *)
(* ------------------------------------------------------------------ *)

Lemma replaceAll_In p r s c :
  In c (replaceAll p r s) -> In c r \/ (In c s /\ p c = false).
Proof.
  unfold replaceAll. intros H. apply in_flat_map in H. destruct H as [x [Hx H]].
  destruct (p x) eqn:E; [now left|].
  destruct H as [<-|[]]. right. now split.
Qed.

Lemma stripFiller_no_filler s : ~ In FILLER (stripFiller s).
Proof.
  intros H. apply replaceAll_In in H. destruct H as [[]|[_ H]]. discriminate.
Qed.

Lemma fillerToSpace_no_filler s : ~ In FILLER (fillerToSpace s).
Proof.
  intros H. apply replaceAll_In in H. destruct H as [[H|[]]|[_ H]]; discriminate.
Qed.

Lemma trimStart_In c s : In c (trimStart s) -> In c s.
Proof.
  induction s as [|x s IH]; cbn [trimStart]; [tauto|].
  destruct (isSpace x); [right; now apply IH|tauto].
Qed.

Lemma trim_In c s : In c (trim s) -> In c s.
Proof.
  unfold trim. intros H. apply in_rev in H. apply trimStart_In in H.
  apply in_rev in H. now apply trimStart_In in H.
Qed.

Lemma join_In sep parts c :
  In c (join sep parts) -> In c sep \/ exists p, In p parts /\ In c p.
Proof.
  induction parts as [|p rest IH]; cbn [join]; [intros []|].
  destruct rest as [|q rest'].
  - intros H. right. exists p. split; [now left|exact H].
  - intros H. apply in_app_or in H. destruct H as [H|H].
    + right. exists p. split; [now left|exact H].
    + apply in_app_or in H. destruct H as [H|H]; [now left|].
      destruct (IH H) as [H'|[x [Hx Hc]]]; [now left|].
      right. exists x. split; [now right|exact Hc].
Qed.

Lemma string_of_uint_digits u c :
  In c (lit (NilEmpty.string_of_uint u)) -> isDigit c = true.
Proof.
  induction u; cbn; try tauto; intros [<-|H]; auto.
Qed.

Lemma nilzero_string_of_uint_digits u c :
  In c (lit (NilZero.string_of_uint u)) -> isDigit c = true.
Proof.
  destruct u; try apply string_of_uint_digits.
  intros [<-|[]]. reflexivity.
Qed.

(** A number prints as decimal digits after an optional minus sign. *)
Lemma numberToString_chars z c :
  In c (numberToString z) -> isDigit c = true \/ c = ch "-".
Proof.
  unfold numberToString. generalize (Z.to_int z). intros d.
  destruct d as [u|u]; cbn [NilZero.string_of_int].
  - intros H. left. now apply nilzero_string_of_uint_digits in H.
  - change (lit (String "-" (NilZero.string_of_uint u)))
      with (ch "-" :: lit (NilZero.string_of_uint u)).
    intros [<-|H]; [now right|left; now apply nilzero_string_of_uint_digits in H].
Qed.

Lemma ocrDigit_no_filler c : c <> FILLER -> ocrDigit c <> FILLER.
Proof.
  intros H. unfold ocrDigit.
  repeat match goal with
         | |- context [(c =? ?k)%N] => destruct (N.eqb_spec c k); [discriminate|]
         end.
  exact H.
Qed.

Lemma firstn_In_list (A : Type) n (l : list A) x : In x (firstn n l) -> In x l.
Proof.
  intros H. rewrite <- (firstn_skipn n l). apply in_or_app. now left.
Qed.

Lemma skipn_In_list (A : Type) n (l : list A) x : In x (skipn n l) -> In x l.
Proof.
  intros H. rewrite <- (firstn_skipn n l). apply in_or_app. now right.
Qed.

Lemma substring_In a b s c : In c (substring a b s) -> In c s.
Proof.
  unfold substring. intros H. apply firstn_In_list in H. now apply skipn_In_list in H.
Qed.

Lemma formatMRZDate_no_filler y s : ~ In FILLER (formatMRZDate y s).
Proof.
  destruct (Nat.eq_dec (length s) 6) as [L|L];
    [|rewrite formatMRZDate_rejects by (now left); intros []].
  destruct (existsb isFiller s) eqn:E.
  { apply existsb_isFiller in E. rewrite formatMRZDate_rejects by (now right). intros []. }
  assert (F : ~ In FILLER s).
  { intros H. apply existsb_isFiller in H. congruence. }
  assert (C : ~ In FILLER (fixDigits s)).
  { rewrite fixDigits_map. intros H. apply in_map_iff in H.
    destruct H as [x [Hx Hin]]. apply (ocrDigit_no_filler x); [|exact Hx].
    intros ->. contradiction. }
  rewrite (formatMRZDate_accepts y s L F).
  destruct (parseInt10 _); [|exact C].
  intros H.
  apply in_app_or in H. destruct H as [H|H].
  { apply numberToString_chars in H. destruct H as [H|H]; discriminate. }
  apply in_app_or in H. destruct H as [H|H].
  { destruct H as [H|[]]. discriminate. }
  apply in_app_or in H. destruct H as [H|H].
  { apply substring_In in H. contradiction. }
  apply in_app_or in H. destruct H as [H|H].
  { destruct H as [H|[]]. discriminate. }
  apply substring_In in H. contradiction.
Qed.

Lemma sexOf_no_filler s : ~ In FILLER (sexOf s).
Proof.
  unfold sexOf. destruct (jsstring_eqb s (lit "M")); [|destruct (jsstring_eqb s (lit "F"))];
    vm_compute; intros H; repeat (destruct H as [H|H]; [discriminate|]); exact H.
Qed.

Lemma orElse_In c a b : In c (orElse a b) -> In c a \/ In c b.
Proof. destruct a; cbn; tauto. Qed.

(** X3: whatever the two lines are, no decoded field holds a filler:
    passport number, names, nationality, dates and sex, in both copies of
    the decoder. *)
Theorem parseMRZ_fields_without_filler y line1 line2 :
  (let r := parseMRZ y (line1, line2) in
   ~ In FILLER (passportNumber r) /\ ~ In FILLER (fullName r)
   /\ ~ In FILLER (surname r) /\ ~ In FILLER (givenNames r)
   /\ ~ In FILLER (nationality r) /\ ~ In FILLER (dateOfBirth r)
   /\ ~ In FILLER (sex r) /\ ~ In FILLER (dateOfExpiry r))
  /\ (let r := Legacy.parseMRZ y (line1, line2) in
      ~ In FILLER (Legacy.passportNumber r)
      /\ ~ In FILLER (Legacy.surname r) /\ ~ In FILLER (Legacy.givenNames r)
      /\ ~ In FILLER (Legacy.nationality r) /\ ~ In FILLER (Legacy.dateOfBirth r)
      /\ ~ In FILLER (Legacy.sex r) /\ ~ In FILLER (Legacy.dateOfExpiry r)).
Proof.
  assert (T : forall s, ~ In FILLER (trim (fillerToSpace s))).
  { intros s H. apply trim_In in H. now apply fillerToSpace_no_filler in H. }
  assert (O : forall a b, ~ In FILLER (orElse (stripFiller a) (stripFiller b))).
  { intros a b H. apply orElse_In in H. destruct H as [H|H];
      now apply stripFiller_no_filler in H. }
  split; cbv zeta; unfold parseMRZ, Legacy.parseMRZ, decodeLines;
    cbn [passportNumber fullName surname givenNames nationality dateOfBirth sex
         dateOfExpiry Legacy.passportNumber Legacy.surname Legacy.givenNames
         Legacy.nationality Legacy.dateOfBirth Legacy.sex Legacy.dateOfExpiry];
    repeat split;
    try apply stripFiller_no_filler; try apply T; try apply O;
    try apply formatMRZDate_no_filler; try apply sexOf_no_filler.
  intros H. apply join_In in H. destruct H as [[H|[]]|[p [Hp H]]]; [discriminate|].
  apply filter_In in Hp. destruct Hp as [Hp _].
  destruct Hp as [<-|[<-|[]]]; now apply T in H.
Qed.

Lemma isDigit_range c : isDigit c = true -> (48 <= c <= 57)%N.
Proof.
  unfold isDigit. intros H. apply andb_prop in H. destruct H as [H1 H2].
  apply N.leb_le in H1, H2. lia.
Qed.

Ltac decide_char_tests :=
  repeat match goal with
         | |- context [(?a <=? ?b)%N] => destruct (N.leb_spec a b); try lia
         | |- context [(?a =? ?b)%N] => destruct (N.eqb_spec a b); try lia
         end.

Lemma digit_not_space c : isDigit c = true -> isSpace c = false.
Proof.
  intros H. apply isDigit_range in H. unfold isSpace. decide_char_tests; try reflexivity.
Qed.

Lemma digit_not_filler c : isDigit c = true -> isFiller c = false.
Proof.
  intros H. apply isDigit_range in H. unfold isFiller, FILLER. decide_char_tests;
  try reflexivity.
Qed.

Lemma digit_ocrDigit c : isDigit c = true -> ocrDigit c = c.
Proof.
  intros H. apply isDigit_range in H. unfold ocrDigit.
  change (ch "O") with 79%N. change (ch "I") with 73%N.
  change (ch "S") with 83%N. change (ch "Z") with 90%N.
  decide_char_tests; try reflexivity.
Qed.

(** Two digits parse as the number they write. *)
Lemma parseInt10_two_digits d1 d2 :
  isDigit d1 = true -> isDigit d2 = true ->
  parseInt10 [d1; d2] = Some (10 * digitValue d1 + digitValue d2)%Z.
Proof.
  intros H1 H2. unfold parseInt10. cbn [trimStart].
  rewrite (digit_not_space d1 H1).
  assert (R := isDigit_range d1 H1).
  destruct (N.eqb_spec d1 45); [lia|]. destruct (N.eqb_spec d1 43); [lia|].
  cbn [digitsPrefix]. rewrite H1, H2. cbn [digitsPrefix].
  unfold decimalValue. cbn [fold_left]. f_equal; lia.
Qed.

(** The years the pivot can produce print with four digits. *)
Lemma numberToString_four_digits z :
  (1900 <= z < 2100)%Z -> length (numberToString z) = 4.
Proof.
  intros H.
  assert (A : forallb (fun k => length (numberToString (1900 + Z.of_nat k)) =? 4)
                (seq 0 200) = true) by (vm_compute; reflexivity).
  rewrite forallb_forall in A.
  specialize (A (Z.to_nat (z - 1900))).
  replace (1900 + Z.of_nat (Z.to_nat (z - 1900)))%Z with z in A by lia.
  apply Nat.eqb_eq, A. apply in_seq. lia.
Qed.

(** X4: six decimal digits YYMMDD are formatted as YYYY-MM-DD, ten
    characters long; the century is 19 when YY is more than ten years
    ahead of the current two-digit year and 20 otherwise. *)
Theorem formatMRZDate_six_digits y d1 d2 d3 d4 d5 d6 :
  forallb isDigit [d1; d2; d3; d4; d5; d6] = true ->
  formatMRZDate y [d1; d2; d3; d4; d5; d6]
  = numberToString
      (if (10 * digitValue d1 + digitValue d2 >? Z.rem y 100 + 10)%Z
       then 1900 + (10 * digitValue d1 + digitValue d2)
       else 2000 + (10 * digitValue d1 + digitValue d2))%Z
    ++ [ch "-"; d3; d4; ch "-"; d5; d6]
  /\ length (formatMRZDate y [d1; d2; d3; d4; d5; d6]) = 10.
Proof.
  intros H. cbn [forallb] in H.
  repeat (apply andb_prop in H; destruct H as [? H]).
  assert (E : formatMRZDate y [d1; d2; d3; d4; d5; d6]
              = numberToString
                  (if (10 * digitValue d1 + digitValue d2 >? Z.rem y 100 + 10)%Z
                   then 1900 + (10 * digitValue d1 + digitValue d2)
                   else 2000 + (10 * digitValue d1 + digitValue d2))%Z
                ++ [ch "-"; d3; d4; ch "-"; d5; d6]).
  { rewrite formatMRZDate_accepts.
    - rewrite fixDigits_map. cbn [map]. rewrite !digit_ocrDigit by assumption.
      change (substring 0 2 [d1; d2; d3; d4; d5; d6]) with [d1; d2].
      rewrite parseInt10_two_digits by assumption. reflexivity.
    - reflexivity.
    - intros F. cbn [In] in F.
      repeat (destruct F as [F|F];
              [subst; match goal with
                      | D : isDigit FILLER = true |- _ => discriminate D
                      end|]).
      exact F. }
  split; [exact E|]. rewrite E, length_app.
  rewrite numberToString_four_digits; [reflexivity|].
  assert (R1 := isDigit_range d1 ltac:(assumption)).
  assert (R2 := isDigit_range d2 ltac:(assumption)).
  unfold digitValue. destruct (_ >? _)%Z; lia.
Qed.

Lemma formatMRZDate_six_digits_witness :
  formatMRZDate 2024 (lit "350101") = lit "1935-01-01"
  /\ formatMRZDate 2024 (lit "340101") = lit "2034-01-01".
Proof.
  split.
  - destruct (formatMRZDate_six_digits 2024 (ch "3") (ch "5") (ch "0") (ch "1")
                (ch "0") (ch "1")) as [E _]; [reflexivity|].
    exact (eq_trans E eq_refl).
  - destruct (formatMRZDate_six_digits 2024 (ch "3") (ch "4") (ch "0") (ch "1")
                (ch "0") (ch "1")) as [E _]; [reflexivity|].
    exact (eq_trans E eq_refl).
Defined.

Lemma substring_length a b s :
  a <= b -> length (substring a b s) = Nat.min (b - a) (length s - a).
Proof.
  intros H. unfold substring.
  rewrite Nat.min_l, Nat.max_r by exact H.
  now rewrite length_firstn, length_skipn.
Qed.

Lemma stripFiller_length s : length (stripFiller s) <= length s.
Proof.
  unfold stripFiller, replaceAll. induction s as [|c t IH]; cbn [flat_map length]; [lia|].
  rewrite length_app. destruct (isFiller c); simpl; lia.
Qed.

(** X5: a second line that stops before a field is decoded without an
    error: the date of birth is empty when the line has fewer than 19
    characters, the date of expiry when it has fewer than 27; the passport
    number never has more than 9 characters and the nationality never more
    than 3. *)
Theorem parseMRZ_short_second_line y line1 line2 :
  (length line2 < 19 -> dateOfBirth (parseMRZ y (line1, line2)) = [])
  /\ (length line2 < 27 -> dateOfExpiry (parseMRZ y (line1, line2)) = [])
  /\ length (passportNumber (parseMRZ y (line1, line2))) <= 9
  /\ length (nationality (parseMRZ y (line1, line2))) <= 3.
Proof.
  unfold parseMRZ, decodeLines.
  cbn [dateOfBirth dateOfExpiry passportNumber nationality].
  split; [|split; [|split]].
  - intros H. apply formatMRZDate_rejects. left. rewrite substring_length by lia. lia.
  - intros H. apply formatMRZDate_rejects. left. rewrite substring_length by lia. lia.
  - etransitivity; [apply stripFiller_length|]. rewrite substring_length by lia. lia.
  - assert (A : forall a b s, b - a <= 3 -> a <= b ->
                              length (stripFiller (substring a b s)) <= 3).
    { intros a b s Hab Hle. etransitivity; [apply stripFiller_length|].
      rewrite substring_length by lia. lia. }
    unfold orElse. destruct (stripFiller (substring 10 13 line2)) eqn:E.
    + apply A; lia.
    + rewrite <- E. apply A; lia.
Qed.

Lemma parseMRZ_short_second_line_witness :
  dateOfBirth (parseMRZ 2024 (icaoLine1, lit "L898902C36UTO7408")) = []
  /\ dateOfExpiry (parseMRZ 2024 (icaoLine1, lit "L898902C36UTO7408122F12")) = [].
Proof.
  destruct (parseMRZ_short_second_line 2024 icaoLine1 (lit "L898902C36UTO7408"))
    as (H1 & _).
  destruct (parseMRZ_short_second_line 2024 icaoLine1 (lit "L898902C36UTO7408122F12"))
    as (_ & H2 & _).
  split; [apply H1 | apply H2]; vm_compute; lia.
Defined.

(** *** Names round trip *)

Lemma upper_not_filler c : isUpper c = true -> (FILLER =? c)%N = false.
Proof.
  unfold isUpper, FILLER. intros H. apply andb_prop in H. destruct H as [H1 H2].
  apply N.leb_le in H1, H2. apply N.eqb_neq. lia.
Qed.

Lemma upper_not_space c : isUpper c = true -> isSpace c = false.
Proof.
  unfold isUpper. intros H. apply andb_prop in H. destruct H as [H1 H2].
  apply N.leb_le in H1, H2. unfold isSpace. decide_char_tests; try reflexivity.
Qed.

Lemma isNamePart_head s :
  isNamePart s = true -> exists c t, s = c :: t /\ isUpper c = true.
Proof.
  destruct s as [|c t]; [discriminate|]. cbn [isNamePart]. intros H.
  apply andb_prop in H. destruct H as [H _]. now exists c, t.
Qed.

Lemma isNamePart_last n : forall s,
  length s <= n -> isNamePart s = true -> exists t a, s = t ++ [a] /\ isUpper a = true.
Proof.
  induction n as [|n IH]; intros s Hn H.
  - destruct s; [discriminate|simpl in Hn; lia].
  - destruct s as [|c t]; [discriminate|]. cbn [isNamePart] in H.
    apply andb_prop in H. destruct H as [Hc H].
    destruct t as [|d t']; [exists [], c; now split|].
    destruct (isFiller d).
    + destruct (IH t') as (u & a & -> & Ha); [simpl in Hn; lia|exact H|].
      exists (c :: d :: u), a. now split.
    + destruct (IH (d :: t')) as (u & a & E & Ha); [simpl in *; lia|exact H|].
      exists (c :: u), a. rewrite E. now split.
Qed.

Lemma split_from_keep sep c t cur :
  startsWith sep (c :: t) = false ->
  split_from sep 0 cur (c :: t) = split_from sep 0 (c :: cur) t.
Proof. intros H. cbn [split_from]. now rewrite H. Qed.

Lemma startsWith_sep_upper c t :
  isUpper c = true -> startsWith [FILLER; FILLER] (c :: t) = false.
Proof. intros H. cbn [startsWith]. now rewrite (upper_not_filler c H). Qed.

Lemma startsWith_sep_then_upper d e t :
  isUpper e = true -> startsWith [FILLER; FILLER] (d :: e :: t) = false.
Proof.
  intros H. cbn [startsWith]. rewrite (upper_not_filler e H). cbn [andb].
  apply andb_false_r.
Qed.

(** No separator is found inside a name, whatever follows it. *)
Lemma split_from_namePart n : forall s cur rest,
  length s <= n -> isNamePart s = true ->
  split_from (lit "<<") 0 cur (s ++ rest)
  = split_from (lit "<<") 0 (rev s ++ cur) rest.
Proof.
  change (lit "<<") with [FILLER; FILLER].
  induction n as [|n IH]; intros s cur rest Hn H.
  - destruct s; [discriminate|simpl in Hn; lia].
  - destruct s as [|c t]; [discriminate|]. cbn [isNamePart] in H.
    apply andb_prop in H. destruct H as [Hc H].
    cbn [app]. rewrite split_from_keep by now apply startsWith_sep_upper.
    destruct t as [|d t'].
    + reflexivity.
    + destruct (isFiller d) eqn:Fd.
      * destruct (isNamePart_head t' H) as (e & t'' & E & He).
        cbn [app]. rewrite E at 1. cbn [app].
        rewrite split_from_keep by now apply startsWith_sep_then_upper.
        change (e :: t'' ++ rest) with ((e :: t'') ++ rest). rewrite <- E.
        rewrite IH; [|cbn [length] in *; lia|exact H].
        f_equal. cbn [rev]. rewrite <- !app_assoc. reflexivity.
      * rewrite IH; [|cbn [length] in *; lia|exact H].
        f_equal. cbn [rev]. rewrite <- !app_assoc. reflexivity.
Qed.

(** The pieces of a name section that holds a surname, the separator, the
    given names and padding. *)
Lemma split_name_section surname given padding :
  isNamePart surname = true -> isNamePart given = true ->
  exists tail rest,
    split (lit "<<") (surname ++ lit "<<" ++ given ++ repeat FILLER padding)
    = surname :: (given ++ tail) :: rest
    /\ (tail = [] \/ tail = [FILLER]).
Proof.
  intros Hs Hg. unfold split.
  rewrite (split_from_namePart (length surname)) by (try lia; exact Hs).
  rewrite app_nil_r.
  change (lit "<<" ++ given ++ repeat FILLER padding)
    with (FILLER :: FILLER :: given ++ repeat FILLER padding).
  change (lit "<<") with [FILLER; FILLER].
  cbn [split_from startsWith length pred]. rewrite N.eqb_refl. cbn [andb].
  rewrite rev_involutive.
  change [FILLER; FILLER] with (lit "<<").
  rewrite (split_from_namePart (length given)) by (try lia; exact Hg).
  rewrite app_nil_r. change (lit "<<") with [FILLER; FILLER].
  destruct padding as [|[|p]]; cbn [repeat split_from startsWith].
  - exists [], []. rewrite rev_involutive, app_nil_r. auto.
  - rewrite N.eqb_refl. cbn [andb]. exists [FILLER], [].
    cbn [rev]. rewrite rev_involutive. auto.
  - rewrite !N.eqb_refl. cbn [andb]. rewrite rev_involutive.
    eexists [], _. rewrite app_nil_r. split; [reflexivity|now left].
Qed.

Lemma fillerToSpace_map s :
  fillerToSpace s = map (fun c => if (c =? FILLER)%N then SPACE else c) s.
Proof. apply (replaceAll_char_map FILLER SPACE). Qed.

Lemma trimStart_head c t : isSpace c = false -> trimStart (c :: t) = c :: t.
Proof. intros H. cbn [trimStart]. now rewrite H. Qed.

Lemma trim_name x tail :
  isNamePart x = true -> tail = [] \/ tail = [FILLER] ->
  trim (fillerToSpace (x ++ tail)) = fillerToSpace x.
Proof.
  intros Hx Htail.
  destruct (isNamePart_head x Hx) as (c & t & E & Hc).
  destruct (isNamePart_last (length x) x (le_n _) Hx) as (u & a & E' & Ha).
  assert (Fa : (if (a =? FILLER)%N then SPACE else a) = a).
  { rewrite N.eqb_sym, (upper_not_filler a Ha). reflexivity. }
  assert (Fc : (if (c =? FILLER)%N then SPACE else c) = c).
  { rewrite N.eqb_sym, (upper_not_filler c Hc). reflexivity. }
  assert (T1 : forall l, trimStart (fillerToSpace (x ++ l)) = fillerToSpace (x ++ l)).
  { intros l. rewrite E, fillerToSpace_map. cbn [app map]. rewrite Fc.
    apply trimStart_head, upper_not_space, Hc. }
  assert (T2 : trimStart (rev (fillerToSpace x)) = rev (fillerToSpace x)).
  { rewrite E', fillerToSpace_map, map_app, rev_app_distr. cbn [map rev app].
    rewrite Fa. apply trimStart_head, upper_not_space, Ha. }
  unfold trim. rewrite T1.
  destruct Htail as [->| ->].
  - rewrite app_nil_r, T2. apply rev_involutive.
  - assert (S : fillerToSpace (x ++ [FILLER]) = fillerToSpace x ++ [SPACE]).
    { rewrite !fillerToSpace_map, map_app. reflexivity. }
    rewrite S, rev_app_distr. cbn [rev app trimStart].
    change (isSpace SPACE) with true. cbv iota.
    rewrite T2. apply rev_involutive.
Qed.

Lemma test_app_r m l1 l2 : test m l2 = true -> test m (l1 ++ l2) = true.
Proof.
  intros H. induction l1 as [|c l1 IH]; [exact H|].
  cbn [app test]. rewrite IH. apply orb_true_r.
Qed.

Lemma name_section_evidence surname given padding :
  isNamePart surname = true -> isNamePart given = true ->
  fillerEvidence (surname ++ lit "<<" ++ given ++ repeat FILLER padding) = true.
Proof.
  intros Hs Hg.
  destruct (isNamePart_last (length surname) surname (le_n _) Hs) as (u & a & -> & Ha).
  destruct (isNamePart_head given Hg) as (d & g & -> & Hd).
  unfold fillerEvidence. rewrite <- app_assoc.
  rewrite test_app_r; [reflexivity|].
  change (test sepAt (a :: FILLER :: FILLER :: d :: g ++ repeat FILLER padding) = true).
  cbn [test sepAt]. rewrite Ha, Hd. reflexivity.
Qed.

Lemma fillerToSpace_nonempty x :
  isNamePart x = true -> (length (fillerToSpace x) =? 0) = false.
Proof.
  intros H. destruct (isNamePart_head x H) as (c & t & -> & _).
  rewrite fillerToSpace_map. reflexivity.
Qed.

(** The names decoded from a well-formed first line. *)
Lemma decodeLines_names y prefix sur giv padding line2 :
  length prefix = 5 -> isNamePart sur = true -> isNamePart giv = true ->
  surname (decodeLines y (nameLine prefix sur giv padding) line2) = fillerToSpace sur
  /\ givenNames (decodeLines y (nameLine prefix sur giv padding) line2)
     = fillerToSpace giv
  /\ fullName (decodeLines y (nameLine prefix sur giv padding) line2)
     = fillerToSpace giv ++ [SPACE] ++ fillerToSpace sur.
Proof.
  intros Hp Hs Hg.
  assert (Ns : substringFrom 5 (nameLine prefix sur giv padding)
               = sur ++ lit "<<" ++ giv ++ repeat FILLER padding).
  { unfold nameLine, substringFrom. rewrite skipn_app, Hp, skipn_all2 by lia.
    reflexivity. }
  unfold decodeLines. cbn [surname givenNames fullName]. rewrite Ns.
  destruct (split_name_section sur giv padding Hs Hg) as (tail & rest & E & Ht).
  rewrite E. cbn [nth].
  assert (Ts : trim (fillerToSpace sur) = fillerToSpace sur).
  { pose proof (trim_name sur [] Hs (or_introl eq_refl)) as T.
    now rewrite app_nil_r in T. }
  rewrite Ts, (trim_name giv tail Hg Ht).
  split; [reflexivity|]. split; [reflexivity|].
  cbn [filter]. rewrite !fillerToSpace_nonempty by assumption. reflexivity.
Qed.

Lemma nameLine_untouched prefix sur giv padding :
  length prefix = 5 -> isNamePart sur = true -> isNamePart giv = true ->
  cleanMRZLine1 (nameLine prefix sur giv padding) = nameLine prefix sur giv padding.
Proof.
  intros Hp Hs Hg.
  assert (Ns : substringFrom 5 (nameLine prefix sur giv padding)
               = sur ++ lit "<<" ++ giv ++ repeat FILLER padding).
  { unfold nameLine, substringFrom. rewrite skipn_app, Hp, skipn_all2 by lia.
    reflexivity. }
  rewrite cleanMRZLine1_unfold, Ns, name_section_evidence by assumption.
  now rewrite orb_true_r.
Qed.

(** X6: a first line made of a five-character prefix, a surname, the
    separator [<<], the given names and any padding decodes to that
    surname and those given names, the fillers between words read as
    spaces, and is left untouched by the corrector. *)
Theorem parseMRZ_names_round_trip y prefix sur giv padding line2 :
  length prefix = 5 -> isNamePart sur = true -> isNamePart giv = true ->
  surname (parseMRZ y (nameLine prefix sur giv padding, line2)) = fillerToSpace sur
  /\ givenNames (parseMRZ y (nameLine prefix sur giv padding, line2)) = fillerToSpace giv
  /\ fullName (parseMRZ y (nameLine prefix sur giv padding, line2))
     = fillerToSpace giv ++ [SPACE] ++ fillerToSpace sur
  /\ mrzLine1 (parseMRZ y (nameLine prefix sur giv padding, line2))
     = nameLine prefix sur giv padding.
Proof.
  intros Hp Hs Hg. unfold parseMRZ.
  rewrite (nameLine_untouched prefix sur giv padding Hp Hs Hg).
  destruct (decodeLines_names y prefix sur giv padding line2 Hp Hs Hg) as (H1 & H2 & H3).
  repeat split; assumption.
Qed.

Lemma parseMRZ_names_round_trip_witness :
  surname (parseMRZ 2024 (icaoLine1, icaoLine2)) = lit "ERIKSSON"
  /\ givenNames (parseMRZ 2024 (icaoLine1, icaoLine2)) = lit "ANNA MARIA".
Proof.
  destruct (parseMRZ_names_round_trip 2024 (lit "P<UTO") (lit "ERIKSSON")
              (lit "ANNA<MARIA") 19 icaoLine2) as (H1 & H2 & _);
    try reflexivity.
  split; [exact H1|exact H2].
Defined.

(** *** A separator read as CC *)

Lemma sepAt_inv a t :
  sepAt (a :: t) = true ->
  isUpper a = true
  /\ exists d rest, t = FILLER :: FILLER :: d :: rest /\ isUpper d = true.
Proof.
  destruct t as [|b [|c [|d rest]]]; try discriminate. cbn [sepAt]. intros H.
  apply andb_prop in H. destruct H as [H Hd].
  apply andb_prop in H. destruct H as [H Hc].
  apply andb_prop in H. destruct H as [Ha Hb].
  apply N.eqb_eq in Hb, Hc. subst. split; [exact Ha|]. now exists d, rest.
Qed.

Lemma sepAt_fillers n : test sepAt (repeat FILLER n) = false.
Proof.
  induction n as [|n IH]; [reflexivity|]. cbn [repeat test]. rewrite IH, orb_false_r.
  destruct (sepAt (FILLER :: repeat FILLER n)) eqn:E; [|reflexivity].
  apply sepAt_inv in E. destruct E as [E _]. discriminate.
Qed.

(** Capital letters followed by fillers show no separator between letters. *)
Lemma sepAt_letters_fillers letters n :
  forallb isUpper letters = true -> test sepAt (letters ++ repeat FILLER n) = false.
Proof.
  induction letters as [|a l IH]; intros H; [apply sepAt_fillers|].
  cbn [forallb] in H. apply andb_prop in H. destruct H as [Ha Hl].
  cbn [app test]. rewrite (IH Hl), orb_false_r.
  destruct (sepAt (a :: l ++ repeat FILLER n)) eqn:E; [|reflexivity].
  apply sepAt_inv in E. destruct E as (_ & d & rest & E & Hd).
  destruct l as [|b l'].
  - cbn [app] in E. assert (In d (repeat FILLER n)) by (rewrite E; simpl; tauto).
    apply repeat_spec in H. subst d. discriminate.
  - cbn [app] in E. injection E as -> _. cbn [forallb] in Hl. discriminate.
Qed.

Lemma sepEndAt_fillers n : test sepEndAt (repeat FILLER n) = false.
Proof.
  induction n as [|n IH]; [reflexivity|]. cbn [repeat test]. rewrite IH, orb_false_r.
  destruct n as [|[|[|n]]]; reflexivity.
Qed.

Lemma sepEndAt_letters_fillers letters n :
  3 <= n -> test sepEndAt (letters ++ repeat FILLER n) = false.
Proof.
  intros Hn. induction letters as [|a l IH]; [apply sepEndAt_fillers|].
  cbn [app test]. rewrite IH, orb_false_r.
  destruct (sepEndAt (a :: l ++ repeat FILLER n)) eqn:E; [|reflexivity].
  assert (L : length (l ++ repeat FILLER n) = 2).
  { destruct (l ++ repeat FILLER n) as [|b [|c [|d r]]]; try discriminate. reflexivity. }
  rewrite length_app, repeat_length in L. lia.
Qed.

Lemma no_trailing_run u :
  test (matches trailingRunAt) (u ++ [FILLER]) = false.
Proof.
  induction u as [|c u IH]; [reflexivity|].
  cbn [app test]. rewrite IH, orb_false_r.
  unfold matches, trailingRunAt.
  rewrite (forallb_isCELA_filler (c :: u ++ [FILLER]))
    by (right; apply in_or_app; right; now left).
  now rewrite andb_false_r.
Qed.

Lemma letterCCAt_other a b t :
  (b =? LETTER_C)%N = false -> letterCCAt (a :: b :: t) = None.
Proof.
  intros H. destruct t as [|c [|d t]]; try reflexivity.
  cbn [letterCCAt]. now rewrite H, andb_false_r.
Qed.

(** The first CC between two letters is the one after the surname when the
    surname holds no C. *)
Lemma replaceFirst_letterCC sur d rest :
  sur <> [] -> forallb isUpperNotC sur = true -> isUpper d = true ->
  replaceFirst letterCCAt (sur ++ LETTER_C :: LETTER_C :: d :: rest)
  = sur ++ FILLER :: FILLER :: d :: rest.
Proof.
  intros Hne Hsur Hd. induction sur as [|a l IH]; [contradiction|].
  cbn [forallb] in Hsur. apply andb_prop in Hsur. destruct Hsur as [Ha Hl].
  unfold isUpperNotC in Ha. apply andb_prop in Ha. destruct Ha as [Ha _].
  destruct l as [|b l'].
  - cbn [app replaceFirst letterCCAt]. rewrite Ha, Hd, !N.eqb_refl. reflexivity.
  - cbn [app replaceFirst].
    assert (Hb : (b =? LETTER_C)%N = false).
    { cbn [forallb] in Hl. apply andb_prop in Hl. destruct Hl as [Hb _].
      unfold isUpperNotC in Hb. apply andb_prop in Hb. destruct Hb as [_ Hb].
      now apply negb_true_iff in Hb. }
    rewrite letterCCAt_other by exact Hb.
    f_equal. apply IH; [discriminate|exact Hl].
Qed.

Lemma isUpperNotC_upper s : forallb isUpperNotC s = true -> forallb isUpper s = true.
Proof.
  induction s as [|c s IH]; [reflexivity|]. cbn [forallb]. intros H.
  apply andb_prop in H. destruct H as [Hc Hs]. unfold isUpperNotC in Hc.
  apply andb_prop in Hc. destruct Hc as [Hc _]. now rewrite Hc, IH.
Qed.

Lemma upper_word_namePart s :
  s <> [] -> forallb isUpper s = true -> isNamePart s = true.
Proof.
  induction s as [|c s IH]; [contradiction|]. intros _ H.
  cbn [forallb] in H. apply andb_prop in H. destruct H as [Hc Hs].
  cbn [isNamePart]. rewrite Hc. cbn [andb].
  destruct s as [|d s']; [reflexivity|].
  assert (Hd : isFiller d = false).
  { cbn [forallb] in Hs. apply andb_prop in Hs. destruct Hs as [Hd _].
    unfold isFiller. rewrite N.eqb_sym. now apply upper_not_filler. }
  rewrite Hd. apply IH; [discriminate|exact Hs].
Qed.

Lemma upper_word_fillerToSpace s :
  forallb isUpper s = true -> fillerToSpace s = s.
Proof.
  intros H. rewrite fillerToSpace_map. rewrite <- (map_id s) at 2.
  apply map_ext_in. intros c Hc. rewrite forallb_forall in H.
  rewrite N.eqb_sym, (upper_not_filler c (H c Hc)). reflexivity.
Qed.

(** X7: a line of at least 44 characters whose separator was read as CC,
    between a surname and a given name that are capital letters without
    a C, and which ends in three or more fillers, is repaired to the
    line with [<<] and decodes to that surname and given name. *)
Theorem cleanMRZLine1_restores_separator y prefix sur giv padding line2 :
  length prefix = 5 -> sur <> [] -> giv <> [] ->
  forallb isUpperNotC sur = true -> forallb isUpperNotC giv = true ->
  3 <= padding ->
  44 <= length (prefix ++ sur ++ lit "CC" ++ giv ++ repeat FILLER padding) ->
  cleanMRZLine1 (prefix ++ sur ++ lit "CC" ++ giv ++ repeat FILLER padding)
  = nameLine prefix sur giv padding
  /\ surname (parseMRZ y (prefix ++ sur ++ lit "CC" ++ giv ++ repeat FILLER padding,
                          line2)) = sur
  /\ givenNames (parseMRZ y (prefix ++ sur ++ lit "CC" ++ giv ++ repeat FILLER padding,
                             line2)) = giv.
Proof.
  intros Hp Hsne Hgne Hs Hg Hpad Hlen.
  set (line := prefix ++ sur ++ lit "CC" ++ giv ++ repeat FILLER padding) in *.
  assert (Us := isUpperNotC_upper sur Hs). assert (Ug := isUpperNotC_upper giv Hg).
  assert (Ns : substringFrom 5 line = (sur ++ lit "CC" ++ giv) ++ repeat FILLER padding).
  { unfold line, substringFrom. rewrite skipn_app, Hp, skipn_all2 by lia.
    cbn [Nat.sub skipn app]. now rewrite <- !app_assoc. }
  assert (Ul : forallb isUpper (sur ++ lit "CC" ++ giv) = true).
  { rewrite !forallb_app, Us, Ug. reflexivity. }
  assert (G : fillerEvidence (substringFrom 5 line) = false).
  { unfold fillerEvidence. rewrite Ns.
    rewrite sepAt_letters_fillers by exact Ul.
    rewrite sepEndAt_letters_fillers by exact Hpad.
    destruct sur as [|a sur']; [contradiction|].
    cbn [forallb] in Us. apply andb_prop in Us. destruct Us as [Ha _].
    change (lit "<<") with [FILLER; FILLER]. cbn [app startsWith].
    now rewrite (upper_not_filler a Ha). }
  assert (C : cleanMRZLine1 line = nameLine prefix sur giv padding).
  { rewrite cleanMRZLine1_unfold, G.
    apply Nat.ltb_ge in Hlen. rewrite Hlen. cbn [orb].
    unfold nameLine. rewrite substring_0_5.
    assert (Fp : firstn 5 line = prefix).
    { unfold line. rewrite firstn_app, Hp, firstn_all2 by lia.
      cbn [Nat.sub firstn]. apply app_nil_r. }
    rewrite Fp. f_equal. unfold repairName. rewrite Ns.
    assert (T : replaceFirst trailingRunAt ((sur ++ lit "CC" ++ giv) ++ repeat FILLER padding)
                = (sur ++ lit "CC" ++ giv) ++ repeat FILLER padding).
    { apply replaceFirst_no_match.
      destruct padding as [|p]; [lia|].
      change (repeat FILLER (S p)) with (FILLER :: repeat FILLER p).
      rewrite repeat_cons, app_assoc. apply no_trailing_run. }
    rewrite T, sepAt_letters_fillers by exact Ul. cbn [negb].
    destruct giv as [|d giv']; [contradiction|].
    cbn [forallb] in Ug. apply andb_prop in Ug. destruct Ug as [Hd _].
    rewrite <- !app_assoc.
    change (lit "CC" ++ (d :: giv') ++ repeat FILLER padding)
      with (LETTER_C :: LETTER_C :: d :: giv' ++ repeat FILLER padding).
    rewrite replaceFirst_letterCC by assumption. reflexivity. }
  split; [exact C|].
  destruct (decodeLines_names y prefix sur giv padding line2 Hp
              (upper_word_namePart sur Hsne Us) (upper_word_namePart giv Hgne Ug))
    as (H1 & H2 & _).
  unfold parseMRZ. rewrite C, H1, H2.
  now rewrite !upper_word_fillerToSpace.
Qed.

Lemma cleanMRZLine1_restores_separator_witness :
  cleanMRZLine1 misreadSeparatorLine
  = lit "P<UTOERIKSSON<<ANNA<<<<<<<<<<<<<<<<<<<<<<<<<"
  /\ surname (parseMRZ 2024 (misreadSeparatorLine, icaoLine2)) = lit "ERIKSSON"
  /\ givenNames (parseMRZ 2024 (misreadSeparatorLine, icaoLine2)) = lit "ANNA".
Proof.
  apply (cleanMRZLine1_restores_separator 2024 (lit "P<UTO") (lit "ERIKSSON")
           (lit "ANNA") 25 icaoLine2);
    try reflexivity; try discriminate; vm_compute; lia.
Defined.

(* ------------------------------------------------------------------ *)
(** ** Further properties of the locator *)
(* ------------------------------------------------------------------ *)

Lemma scanPairs_none lines :
  scanPairs lines = None <-> forall k, rejected lines k.
Proof.
  induction lines as [|a rest IH].
  - split; [|reflexivity]. intros _ k u v Hu. destruct k; discriminate.
  - destruct rest as [|b rest'].
    + split; [|reflexivity]. intros _ k u v Hu Hv. destruct k as [|[|k]]; discriminate.
    + rewrite scanPairs_cons. split.
      * destruct (qualifies a b) eqn:Q; [discriminate|]. intros H k u v Hu Hv.
        destruct k as [|k].
        -- simpl in Hu, Hv. injection Hu as <-. injection Hv as <-. exact Q.
        -- apply (proj1 IH H k u v Hu Hv).
      * intros H. rewrite (H 0 a b eq_refl eq_refl).
        apply IH. intros k u v Hu Hv. apply (H (S k) u v Hu Hv).
Qed.

Lemma findFirst_none (A : Type) (m : jsstring -> option A) s :
  findFirst m s = None <-> forall n, m (skipn n s) = None.
Proof.
  induction s as [|c t IH]; cbn [findFirst].
  - split.
    + destruct (m []) eqn:E; [discriminate|]. intros _ n. now rewrite skipn_nil.
    + intros H. pose proof (H 0) as H0. cbn [skipn] in H0. now rewrite H0.
  - split.
    + destruct (m (c :: t)) eqn:E; [discriminate|]. intros H [|n]; [exact E|].
      apply (proj1 IH H n).
    + intros H. pose proof (H 0) as H0. cbn [skipn] in H0. rewrite H0.
      apply IH. intros n. apply (H (S n)).
Qed.

(** X8: the locator returns nothing exactly when no adjacent pair of
    normalised lines passes the test of the line-pair scan and the
    pattern of the fallback matches at no position of the concatenated
    lines. *)
Theorem extractMRZ_none_iff toUpperCase text :
  extractMRZ toUpperCase text = None
  <-> (forall k, rejected (normalizedLines toUpperCase text) k)
      /\ (forall n, mrzBlockAt (skipn n (concat (normalizedLines toUpperCase text)))
                    = None).
Proof.
  unfold extractMRZ, locate. rewrite <- scanPairs_none, <- findFirst_none.
  destruct (scanPairs _); split; try tauto; try discriminate.
Qed.

Lemma replaceAll_In_filler p s c :
  In c (replaceAll p (lit "<") s) -> c = FILLER \/ (In c s /\ p c = false).
Proof.
  intros H. apply replaceAll_In in H. destruct H as [[H|[]]|H]; auto.
Qed.

(** X9: whatever [toUpperCase] does, a normalised line holds no white
    space and none of the look-alikes of the filler (guillemet, brackets,
    parentheses). *)
Theorem normalizedLines_clean toUpperCase text l c :
  In l (normalizedLines toUpperCase text) -> In c l ->
  isSpace c = false /\ isLookAlike c = false.
Proof.
  unfold normalizedLines. intros Hl Hc. apply in_map_iff in Hl.
  destruct Hl as [piece [<- _]]. unfold normalizeLine in Hc.
  assert (F : isSpace FILLER = false /\ isLookAlike FILLER = false) by (split; reflexivity).
  apply replaceAll_In_filler in Hc. destruct Hc as [->|[Hc P5]]; [exact F|].
  apply replaceAll_In_filler in Hc. destruct Hc as [->|[Hc P4]]; [exact F|].
  apply replaceAll_In_filler in Hc. destruct Hc as [->|[Hc P3]]; [exact F|].
  apply replaceAll_In_filler in Hc. destruct Hc as [->|[Hc P2]]; [exact F|].
  apply replaceAll_In in Hc. destruct Hc as [Hc|[Hc P1]].
  { destruct Hc as [<-|[<-|[]]]; exact F. }
  apply replaceAll_In in Hc. destruct Hc as [[]|[_ P0]].
  split; [exact P0|]. unfold isLookAlike. now rewrite P1, P2, P3, P4, P5.
Qed.

Lemma normalizedLines_clean_witness :
  isSpace (ch "P") = false /\ isLookAlike (ch "P") = false.
Proof.
  apply (normalizedLines_clean asciiToUpperCase twoCandidates (lit "PASSPORT") (ch "P")).
  - vm_compute. tauto.
  - vm_compute. tauto.
Defined.

Lemma scanPairs_short lines : length (concat lines) < 80 -> scanPairs lines = None.
Proof.
  induction lines as [|a rest IH]; [reflexivity|].
  destruct rest as [|b rest']; [reflexivity|]. intros H.
  cbn [concat] in H. rewrite !length_app in H.
  cbn [scanPairs].
  assert (G : (40 <=? length a) && (40 <=? length b) = false).
  { destruct (Nat.leb_spec 40 (length a)); [|reflexivity].
    destruct (Nat.leb_spec 40 (length b)); [lia|reflexivity]. }
  rewrite <- andb_assoc, G, andb_false_r.
  apply IH. cbn [concat]. rewrite length_app. lia.
Qed.

Lemma mrzBlockAt_short s : length s < 88 -> mrzBlockAt s = None.
Proof.
  intros H. unfold mrzBlockAt. destruct (firstn 88 s) as [|p [|q rest]] eqn:E; try reflexivity.
  assert (L : length (p :: q :: rest) <> 88).
  { rewrite <- E, length_firstn. lia. }
  apply Nat.eqb_neq in L. now rewrite L.
Qed.

Lemma findFirst_short s : length s < 88 -> findFirst mrzBlockAt s = None.
Proof.
  intros H. apply findFirst_none. intros n. apply mrzBlockAt_short.
  rewrite length_skipn. lia.
Qed.

(** X10: a transcript whose normalised lines hold fewer than 80
    characters in all yields nothing. *)
Theorem extractMRZ_short toUpperCase text :
  length (concat (normalizedLines toUpperCase text)) < 80 ->
  extractMRZ toUpperCase text = None.
Proof.
  intros H. unfold extractMRZ, locate.
  rewrite scanPairs_short by exact H. apply findFirst_short. lia.
Qed.

Lemma extractMRZ_short_witness :
  extractMRZ asciiToUpperCase [] = None
  /\ extractMRZ asciiToUpperCase icaoLine1 = None.
Proof.
  split; apply extractMRZ_short; vm_compute; lia.
Defined.

(** *** What the locator does on a clean transcript *)

Lemma mrzChar_range c :
  isMrzChar c = true ->
  ((65 <= c <= 90) \/ (48 <= c <= 57) \/ c = 60)%N.
Proof.
  unfold isMrzChar, isUpper, isDigit, isFiller, FILLER. intros H.
  apply orb_prop in H. destruct H as [H|H]; [apply orb_prop in H; destruct H as [H|H]|].
  - apply andb_prop in H. destruct H as [H1 H2]. apply N.leb_le in H1, H2. lia.
  - apply andb_prop in H. destruct H as [H1 H2]. apply N.leb_le in H1, H2. lia.
  - apply N.eqb_eq in H. lia.
Qed.

Lemma replaceAll_id p r s :
  (forall c, In c s -> p c = false) -> replaceAll p r s = s.
Proof.
  unfold replaceAll. induction s as [|c t IH]; intros H; [reflexivity|].
  cbn [flat_map]. rewrite (H c (or_introl eq_refl)), IH; [reflexivity|].
  intros x Hx. apply H. now right.
Qed.

(** A line over the MRZ alphabet is its own normal form. *)
Lemma normalizeLine_id toUpperCase l :
  toUpperCase l = l -> forallb isMrzChar l = true -> normalizeLine toUpperCase l = l.
Proof.
  intros Hup Hl. unfold normalizeLine. rewrite Hup.
  rewrite forallb_forall in Hl.
  assert (R : forall c, In c l ->
                isSpace c = false /\ isChar GUILLEMET c = false
                /\ isChar (ch "[") c = false /\ isChar (ch "]") c = false
                /\ isChar (ch "(") c = false /\ isChar (ch ")") c = false).
  { intros c Hc. apply Hl, mrzChar_range in Hc.
    unfold isSpace, isChar, GUILLEMET.
    change (ch "[") with 91%N. change (ch "]") with 93%N.
    change (ch "(") with 40%N. change (ch ")") with 41%N.
    repeat split; decide_char_tests; try reflexivity. }
  rewrite (replaceAll_id isSpace) by (intros c Hc; apply R, Hc).
  rewrite (replaceAll_id (isChar GUILLEMET)) by (intros c Hc; apply R, Hc).
  rewrite (replaceAll_id (isChar (ch "["))) by (intros c Hc; apply R, Hc).
  rewrite (replaceAll_id (isChar (ch "]"))) by (intros c Hc; apply R, Hc).
  rewrite (replaceAll_id (isChar (ch "("))) by (intros c Hc; apply R, Hc).
  apply replaceAll_id. intros c Hc. apply R, Hc.
Qed.

Lemma split_from_line k s : forall cur rest,
  (forall c, In c s -> (k =? c)%N = false) ->
  split_from [k] 0 cur (s ++ rest) = split_from [k] 0 (rev s ++ cur) rest.
Proof.
  induction s as [|c t IH]; intros cur rest H; [reflexivity|].
  cbn [app]. rewrite split_from_keep.
  - rewrite IH by (intros x Hx; apply H; now right).
    cbn [rev]. now rewrite <- app_assoc.
  - cbn [startsWith]. now rewrite (H c (or_introl eq_refl)).
Qed.

Lemma mrzChar_not_newline l c :
  forallb isMrzChar l = true -> In c l -> (NEWLINE =? c)%N = false.
Proof.
  intros H Hc. rewrite forallb_forall in H. apply H, mrzChar_range in Hc.
  unfold NEWLINE. apply N.eqb_neq. lia.
Qed.

Lemma split_two_lines l1 l2 :
  forallb isMrzChar l1 = true -> forallb isMrzChar l2 = true ->
  split [NEWLINE] (l1 ++ [NEWLINE] ++ l2) = [l1; l2].
Proof.
  intros H1 H2. unfold split.
  rewrite split_from_line by (intros c; apply (mrzChar_not_newline l1 c H1)).
  rewrite app_nil_r. cbn [app split_from startsWith length pred].
  rewrite N.eqb_refl. cbn [andb]. rewrite rev_involutive.
  rewrite <- (app_nil_r l2) at 1.
  rewrite split_from_line by (intros c; apply (mrzChar_not_newline l2 c H2)).
  cbn [split_from]. now rewrite app_nil_r, rev_involutive.
Qed.

Lemma alphabet_whitelisted l :
  forallb isMrzChar l = true -> forallb isWhitelisted l = true.
Proof.
  rewrite !forallb_forall. intros H c Hc. unfold isWhitelisted. now rewrite (H c Hc).
Qed.

(** X11: a transcript that is exactly two lines of 44 characters of the
    MRZ alphabet, the first starting with P and the second holding more
    than five digits, is returned as those two lines. *)
Theorem extractMRZ_clean_transcript toUpperCase l1 l2 :
  (forall l, forallb isWhitelisted l = true -> toUpperCase l = l) ->
  length l1 = 44 -> length l2 = 44 ->
  forallb isMrzChar l1 = true -> forallb isMrzChar l2 = true ->
  startsWithP l1 = true -> 5 < countDigits l2 ->
  extractMRZ toUpperCase (l1 ++ [NEWLINE] ++ l2) = Some (l1, l2).
Proof.
  intros Hup L1 L2 A1 A2 P D.
  unfold extractMRZ, normalizedLines. rewrite split_two_lines by assumption.
  cbn [map].
  rewrite !normalizeLine_id
    by (try assumption; apply Hup; now apply alphabet_whitelisted).
  unfold locate. rewrite scanPairs_cons.
  assert (Q : qualifies l1 l2 = true).
  { unfold qualifies. rewrite P, L1, L2, (pad44_exact l2 L2).
    apply Nat.ltb_lt in D. now rewrite D. }
  now rewrite Q, (pad44_exact l1 L1), (pad44_exact l2 L2).
Qed.

Lemma extractMRZ_clean_transcript_witness :
  extractMRZ asciiToUpperCase (icaoLine1 ++ [NEWLINE] ++ icaoLine2)
  = Some (icaoLine1, icaoLine2).
Proof.
  apply extractMRZ_clean_transcript;
    try apply asciiToUpperCase_whitelisted; try reflexivity.
  vm_compute. lia.
Defined.

Lemma findFirst_at (A : Type) (m : jsstring -> option A) pre s x :
  (forall n, n < length pre -> m (skipn n (pre ++ s)) = None) ->
  m s = Some x -> findFirst m (pre ++ s) = Some x.
Proof.
  induction pre as [|c pre IH]; intros Hpre Hs.
  - cbn [app]. destruct s; cbn [findFirst]; now rewrite Hs.
  - cbn [app findFirst].
    pose proof (Hpre 0 ltac:(simpl; lia)) as H0. cbn [skipn app] in H0. rewrite H0.
    apply IH; [|exact Hs]. intros n Hn. apply (Hpre (S n)). simpl. lia.
Qed.

Lemma mrzBlockAt_block l1 l2 post q rest1 :
  l1 = LETTER_P :: q :: rest1 -> isUpper q || isFiller q = true ->
  length l1 = 44 -> length l2 = 44 ->
  forallb isMrzChar l1 = true -> forallb isMrzChar l2 = true ->
  mrzBlockAt (l1 ++ l2 ++ post) = Some (l1, l2).
Proof.
  intros E Hq L1 L2 A1 A2. unfold mrzBlockAt.
  assert (F : firstn 88 (l1 ++ l2 ++ post) = l1 ++ l2).
  { rewrite app_assoc, firstn_app, firstn_all2 by (rewrite length_app; lia).
    rewrite length_app. replace (88 - (length l1 + length l2)) with 0 by lia.
    cbn [firstn]. apply app_nil_r. }
  rewrite F. subst l1. cbn [app].
  cbn [length] in L1. cbn [forallb] in A1.
  apply andb_prop in A1. destruct A1 as [_ A1].
  apply andb_prop in A1. destruct A1 as [_ A1].
  assert (Len : (length (LETTER_P :: q :: rest1 ++ l2) =? 88) = true).
  { cbn [length]. rewrite length_app. apply Nat.eqb_eq. lia. }
  rewrite Len, N.eqb_refl, Hq, forallb_app, A1, A2. cbn [andb].
  f_equal. f_equal.
  - change (LETTER_P :: q :: rest1 ++ l2) with ((LETTER_P :: q :: rest1) ++ l2).
    rewrite firstn_app, firstn_all2 by (cbn [length]; lia).
    replace (44 - length (LETTER_P :: q :: rest1)) with 0 by (cbn [length]; lia).
    cbn [firstn]. apply app_nil_r.
  - change (LETTER_P :: q :: rest1 ++ l2) with ((LETTER_P :: q :: rest1) ++ l2).
    rewrite skipn_app, skipn_all2 by (cbn [length]; lia).
    replace (44 - length (LETTER_P :: q :: rest1)) with 0 by (cbn [length]; lia).
    reflexivity.
Qed.

(** X12: when no adjacent pair of lines passes the line-pair scan, the
    fallback finds the first block of 88 characters of the MRZ alphabet
    that starts with P and a letter or filler in the concatenated lines,
    wherever the line breaks fell, and returns its two halves. *)
Theorem extractMRZ_fallback toUpperCase text pre l1 l2 post q rest1 :
  scanPairs (normalizedLines toUpperCase text) = None ->
  concat (normalizedLines toUpperCase text) = pre ++ l1 ++ l2 ++ post ->
  (forall n, n < length pre -> mrzBlockAt (skipn n (pre ++ l1 ++ l2 ++ post)) = None) ->
  l1 = LETTER_P :: q :: rest1 -> isUpper q || isFiller q = true ->
  length l1 = 44 -> length l2 = 44 ->
  forallb isMrzChar l1 = true -> forallb isMrzChar l2 = true ->
  extractMRZ toUpperCase text = Some (l1, l2).
Proof.
  intros S C Hpre E Hq L1 L2 A1 A2. unfold extractMRZ, locate. rewrite S, C.
  apply findFirst_at; [exact Hpre|].
  now apply mrzBlockAt_block with q rest1.
Qed.

Lemma extractMRZ_fallback_witness :
  extractMRZ asciiToUpperCase unbrokenTranscript = Some (icaoLine1, icaoLine2).
Proof.
  apply (extractMRZ_fallback asciiToUpperCase unbrokenTranscript (lit "MRZ")
           icaoLine1 icaoLine2 [] (ch "<")
           (lit "UTOERIKSSON<<ANNA<MARIA<<<<<<<<<<<<<<<<<<<"));
    try reflexivity.
  intros n Hn. cbn [length lit] in Hn. simpl in Hn.
  destruct n as [|[|[|n]]]; [reflexivity|reflexivity|reflexivity|lia].
Defined.

(* ------------------------------------------------------------------ *)
(** ** Further properties of the threshold *)
(* ------------------------------------------------------------------ *)

Lemma histogramOf_length values : length (histogramOf values) = 256.
Proof. rewrite histogramOf_counts, length_map, length_seq. reflexivity. Qed.




Lemma sumZ_map_nonzero (f : nat -> Z) l :
  sumZ (map f l) <> 0%Z -> exists t, In t l /\ f t <> 0%Z.
Proof.
  unfold sumZ. induction l as [|x l IH]; cbn [map fold_right]; [congruence|].
  intros H. destruct (Z.eq_dec (f x) 0) as [E|E].
  - rewrite E in H. destruct IH as (t & Ht & Hf); [lia|].
    exists t. split; [now right|exact Hf].
  - exists x. split; [now left|exact E].
Qed.

Lemma pixels_In values t : Z.of_nat (pixels values t) <> 0%Z -> In t values.
Proof.
  intros H. apply (count_occ_In Nat.eq_dec). unfold pixels in H. lia.
Qed.





(* ------------------------------------------------------------------ *)
(** ** Further properties of the extraction run *)
(* ------------------------------------------------------------------ *)

Section RunMore.

Variable image : Type.
Variable w : World image.

Lemma ret_appendsOnly (A : Type) (a : A) : appendsOnly (ret (image:=image) a).
Proof. intros log. unfold ret. cbn. now rewrite app_nil_r. Qed.

Lemma call_appendsOnly (A : Type) (ev : event image) (answer : outcome A) :
  appendsOnly (call ev answer).
Proof. intros log. reflexivity. Qed.

Lemma bind_appendsOnly (A B : Type) (m : M image A) (k : A -> M image B) :
  appendsOnly m -> (forall a, appendsOnly (k a)) -> appendsOnly (bind m k).
Proof.
  intros Hm Hk log. unfold bind. rewrite (Hm log).
  destruct (m []) as [[a|e] l]; cbn [fst snd].
  - rewrite (Hk a (log ++ l)), (Hk a l). cbn [fst snd].
    now rewrite app_assoc.
  - reflexivity.
Qed.

Lemma tryOrNull_appendsOnly (A : Type) (m : M image (option A)) :
  appendsOnly m -> appendsOnly (tryOrNull m).
Proof.
  intros Hm log. unfold tryOrNull. rewrite (Hm log).
  destruct (m []) as [[a|e] l]; reflexivity.
Qed.

Lemma scanPage_appendsOnly src : appendsOnly (scanPage w src).
Proof.
  apply bind_appendsOnly.
  - apply tryOrNull_appendsOnly, bind_appendsOnly; [apply call_appendsOnly|].
    intros img. apply bind_appendsOnly; [apply call_appendsOnly|].
    intros text. apply ret_appendsOnly.
  - intros r1. apply bind_appendsOnly.
    + destruct r1; [apply ret_appendsOnly|].
      apply tryOrNull_appendsOnly, bind_appendsOnly; [apply call_appendsOnly|].
      intros img. apply bind_appendsOnly; [apply call_appendsOnly|].
      intros text. apply ret_appendsOnly.
    + intros r2. destruct r2; [apply ret_appendsOnly|].
      apply bind_appendsOnly; [apply call_appendsOnly|].
      intros text. apply ret_appendsOnly.
Qed.

(** Pages on which the three passes return without an MRZ are passed
    over. *)
Lemma scanPages_skip pre : forall rest log,
  (forall p, In p pre -> fst (scanPage w p []) = Returned None) ->
  exists trace, scanPages w (pre ++ rest) log = scanPages w rest (log ++ trace)
                /\ scanPages w pre log = (Returned None, log ++ trace).
Proof.
  induction pre as [|p pre IH]; intros rest log Hpre.
  - exists []. rewrite app_nil_r. split; reflexivity.
  - assert (Hp := Hpre p (or_introl eq_refl)).
    assert (E : scanPage w p log = (Returned None, log ++ snd (scanPage w p []))).
    { rewrite (scanPage_appendsOnly p log), Hp. reflexivity. }
    destruct (IH rest (log ++ snd (scanPage w p [])))
      as (trace & E1 & E2); [intros q Hq; apply Hpre; now right|].
    exists (snd (scanPage w p []) ++ trace).
    cbn [app scanPages]. unfold bind. rewrite E.
    rewrite app_assoc. split; assumption.
Qed.

Lemma scanPages_found src rest lines log :
  fst (scanPage w src []) = Returned (Some lines) ->
  scanPages w (src :: rest) log
  = (Returned (Some (parseMRZ (getFullYear w) lines)), log ++ snd (scanPage w src [])).
Proof.
  intros H. cbn [scanPages]. unfold bind.
  rewrite (scanPage_appendsOnly src log), H. reflexivity.
Qed.

(** X17: the first page on which a pass finds an MRZ decides the run: its
    record is the result, and the pages after it are not looked at, so
    the run is the same as if they did not exist. *)
Theorem extractData_first_page_wins pre src post lines :
  createWorker w = Returned tt -> setParameters w = Returned tt ->
  terminate w = Returned tt ->
  (forall p, In p pre -> fst (scanPage w p []) = Returned None) ->
  fst (scanPage w src []) = Returned (Some lines) ->
  extractData w (pre ++ src :: post) = extractData w (pre ++ [src])
  /\ fst (extractData w (pre ++ src :: post))
     = {| passportData := Some (parseMRZ (getFullYear w) lines); error := None |}.
Proof.
  intros Hc Hs Ht Hpre Hsrc.
  assert (E : forall rest,
             extractData w (pre ++ src :: rest)
             = ({| passportData := Some (parseMRZ (getFullYear w) lines); error := None |},
                snd (extractData w (pre ++ src :: rest)))
             /\ snd (extractData w (pre ++ src :: rest))
                = snd (extractData w (pre ++ [src]))).
  { assert (G : forall rest,
               exists trace,
                 extractData w (pre ++ src :: rest)
                 = ({| passportData := Some (parseMRZ (getFullYear w) lines);
                       error := None |},
                    (([CreateWorker; SetParameters] ++ trace)
                       ++ snd (scanPage w src [])) ++ [Terminate])
                 /\ scanPages w pre [CreateWorker; SetParameters]
                    = (Returned None, [CreateWorker; SetParameters] ++ trace)).
    { intros rest. unfold extractData, extractBody, bind at 1 2, call.
      rewrite Hc, Hs. cbn [app].
      destruct (scanPages_skip pre (src :: rest) [CreateWorker; SetParameters] Hpre)
        as (trace & E1 & E2).
      exists trace. unfold bind at 1. rewrite E1, (scanPages_found src rest lines _ Hsrc).
      unfold bind. rewrite Ht. split; [reflexivity|exact E2]. }
    intros rest. destruct (G rest) as (t1 & E1 & S1). destruct (G []) as (t2 & E2 & S2).
    rewrite E1, E2. cbn [snd]. split; [reflexivity|].
    rewrite S1 in S2. injection S2 as S2. now subst. }
  destruct (E post) as [E1 E2]. destruct (E []) as [E3 _].
  split; [|now rewrite E1].
  rewrite E1, E3, E2. reflexivity.
Qed.

End RunMore.

Lemma extractData_first_page_wins_witness :
  extractData failingWorld ([3] ++ 2 :: [1; 4]) = extractData failingWorld ([3] ++ [2])
  /\ fst (extractData failingWorld ([3] ++ 2 :: [1; 4]))
     = {| passportData := Some (parseMRZ 2024 (icaoLine1, icaoLine2)); error := None |}.
Proof.
  apply (extractData_first_page_wins nat failingWorld [3] 2 [1; 4] (icaoLine1, icaoLine2));
    try reflexivity.
  intros p [<-|[]]. vm_compute. reflexivity.
Defined.

Section RunProtocol.

Variable image : Type.
Variable w : World image.

Lemma recognitions_app (l1 l2 : list (event image)) :
  recognitions (l1 ++ l2) = recognitions l1 + recognitions l2.
Proof. unfold recognitions. now rewrite filter_app, length_app. Qed.

Lemma ret_atMostOcr (A : Type) (a : A) : atMostOcr 0 (ret (image:=image) a).
Proof. intros log r log' H. unfold ret in H. injection H as <- <-. lia. Qed.

Lemma throw_atMostOcr (A : Type) e : atMostOcr 0 (throw (image:=image) (A:=A) e).
Proof. intros log r log' H. unfold throw in H. injection H as <- <-. lia. Qed.

Lemma call_atMostOcr (A : Type) (ev : event image) (answer : outcome A) :
  atMostOcr (if isRecognize ev then 1 else 0) (call ev answer).
Proof.
  intros log r log' H. unfold call in H. injection H as <- <-.
  rewrite recognitions_app. unfold recognitions at 2. cbn [filter].
  destruct (isRecognize ev); simpl; lia.
Qed.

Lemma bind_atMostOcr (A B : Type) n1 n2 (m : M image A) (k : A -> M image B) :
  atMostOcr n1 m -> (forall a, atMostOcr n2 (k a)) -> atMostOcr (n1 + n2) (bind m k).
Proof.
  intros Hm Hk log r log'. unfold bind.
  destruct (m log) as [[a|e] l] eqn:E; apply Hm in E.
  - intros H. apply Hk in H. lia.
  - intros H. injection H as <- <-. lia.
Qed.

Lemma tryOrNull_atMostOcr (A : Type) n (m : M image (option A)) :
  atMostOcr n m -> atMostOcr n (tryOrNull m).
Proof.
  intros Hm log r log'. unfold tryOrNull.
  destruct (m log) as [[a|e] l] eqn:E; apply Hm in E;
    intros H; injection H as <- <-; exact E.
Qed.

Lemma atMostOcr_weaken (A : Type) n n' (m : M image A) :
  n <= n' -> atMostOcr n m -> atMostOcr n' m.
Proof. intros Hn Hm log r log' H. apply Hm in H. lia. Qed.

Lemma enhanced_pass_atMostOcr src crop :
  atMostOcr 1
    (tryOrNull
       (bind (call (Preprocess src crop) (preprocessImageForMRZ w src crop))
          (fun enhanced =>
             bind (call (Recognize enhanced) (recognize w enhanced))
               (fun text => ret (extractMRZ (toUpperCase w) text))))).
Proof.
  apply tryOrNull_atMostOcr.
  apply bind_atMostOcr with (n1:=0) (n2:=1); [apply (call_atMostOcr _ (Preprocess src crop))|].
  intros img. apply bind_atMostOcr with (n1:=1) (n2:=0); [apply (call_atMostOcr _ (Recognize img))|].
  intros text. apply ret_atMostOcr.
Qed.

Lemma pass3_atMostOcr src : atMostOcr 1 (pass3 w src).
Proof.
  apply bind_atMostOcr with (n1:=1) (n2:=0); [apply (call_atMostOcr _ (Recognize src))|].
  intros text. apply ret_atMostOcr.
Qed.

Lemma scanPage_atMostOcr src : atMostOcr 3 (scanPage w src).
Proof.
  apply bind_atMostOcr with (n1:=1) (n2:=2); [apply enhanced_pass_atMostOcr|].
  intros r1. apply bind_atMostOcr with (n1:=1) (n2:=1).
  - destruct r1; [|apply enhanced_pass_atMostOcr].
    apply atMostOcr_weaken with 0; [lia|apply ret_atMostOcr].
  - intros r2. destruct r2; [|apply pass3_atMostOcr].
    apply atMostOcr_weaken with 0; [lia|apply ret_atMostOcr].
Qed.

Lemma scanPages_atMostOcr imageSrcs :
  atMostOcr (3 * length imageSrcs) (scanPages w imageSrcs).
Proof.
  induction imageSrcs as [|src rest IH]; cbn [scanPages].
  - apply ret_atMostOcr.
  - replace (3 * length (src :: rest)) with (3 + 3 * length rest) by (simpl; lia).
    apply bind_atMostOcr; [apply scanPage_atMostOcr|].
    intros r. destruct r; [|exact IH].
    apply atMostOcr_weaken with 0; [lia|apply ret_atMostOcr].
Qed.

Lemma extractData_log imageSrcs :
  snd (extractData w imageSrcs) = snd (extractBody w imageSrcs []).
Proof.
  unfold extractData. destruct (extractBody w imageSrcs []) as [[d|e] l]; reflexivity.
Qed.

(** X18: a run makes at most three OCR calls per page. *)
Theorem extractData_ocr_calls imageSrcs :
  recognitions (snd (extractData w imageSrcs)) <= 3 * length imageSrcs.
Proof.
  rewrite extractData_log.
  assert (B : atMostOcr (0 + (0 + (3 * length imageSrcs + (0 + 0))))
                (extractBody w imageSrcs)).
  { apply bind_atMostOcr; [apply (call_atMostOcr _ CreateWorker)|]. intros _.
    apply bind_atMostOcr; [apply (call_atMostOcr _ SetParameters)|]. intros _.
    apply bind_atMostOcr; [apply scanPages_atMostOcr|]. intros found.
    apply bind_atMostOcr; [apply (call_atMostOcr _ Terminate)|]. intros _.
    destruct found; [apply ret_atMostOcr|apply throw_atMostOcr]. }
  destruct (extractBody w imageSrcs []) as [r l] eqn:E.
  apply B in E. cbn [snd]. unfold recognitions at 2 in E. simpl in E. lia.
Qed.

Lemma scanPages_appendsOnly imageSrcs : appendsOnly (scanPages w imageSrcs).
Proof.
  induction imageSrcs as [|src rest IH]; cbn [scanPages].
  - apply ret_appendsOnly.
  - apply bind_appendsOnly; [apply scanPage_appendsOnly|].
    intros r. destruct r; [apply ret_appendsOnly|exact IH].
Qed.

Lemma scanPages_trace imageSrcs log :
  exists r trace,
    scanPages w imageSrcs log = (r, log ++ trace) /\ releases trace = 0.
Proof.
  exists (fst (scanPages w imageSrcs [])), (snd (scanPages w imageSrcs [])).
  split; [apply scanPages_appendsOnly|].
  destruct (scanPages w imageSrcs []) as [r t] eqn:E.
  apply (scanPages_keepsWorker image w) in E. exact E.
Qed.

Lemma release_is_last (prefix l1 l2 : list (event image)) :
  releases prefix = 0 ->
  (prefix ++ [Terminate] = l1 ++ Terminate :: l2 -> l2 = [])
  /\ prefix <> l1 ++ Terminate :: l2.
Proof.
  intros Hp. split.
  - intros E. assert (R : releases l2 = 0).
    { apply (f_equal releases) in E. rewrite !releases_app in E.
      unfold releases at 2 4 in E. cbn [filter isTerminate length] in E.
      fold (releases l2) in E. lia. }
    destruct l2 as [|x l2']; [reflexivity|]. exfalso.
    destruct (exists_last (l := x :: l2')) as (u & a & Eu); [discriminate|].
    rewrite Eu in E, R.
    replace (l1 ++ Terminate :: u ++ [a]) with ((l1 ++ Terminate :: u) ++ [a]) in E
      by (rewrite <- app_assoc; reflexivity).
    apply app_inj_tail in E. destruct E as [_ <-].
    rewrite releases_app in R. unfold releases at 2 in R. simpl in R. lia.
  - intros E. rewrite E, releases_app in Hp.
    unfold releases at 2 in Hp. simpl in Hp. lia.
Qed.

(** The four shapes of the log of a run. *)
Lemma extractData_log_shape imageSrcs :
  exists trace,
    releases trace = 0
    /\ (snd (extractData w imageSrcs) = [CreateWorker]
        \/ snd (extractData w imageSrcs) = [CreateWorker; SetParameters]
        \/ snd (extractData w imageSrcs) = CreateWorker :: SetParameters :: trace
        \/ snd (extractData w imageSrcs)
           = (CreateWorker :: SetParameters :: trace) ++ [Terminate]).
Proof.
  remember (snd (extractData w imageSrcs)) as L eqn:EL.
  rewrite extractData_log in EL. unfold extractBody, bind, call in EL.
  cbn [app] in EL.
  destruct (scanPages_trace imageSrcs [CreateWorker; SetParameters])
    as (r & trace & E & R).
  rewrite E in EL. exists trace. split; [exact R|].
  destruct (createWorker w) as [[]|e1]; [|now left].
  destruct (setParameters w) as [[]|e2]; [|right; now left].
  destruct r as [found|e3]; [|right; right; now left].
  right; right; right.
  destruct (terminate w) as [[]|e4]; [destruct found|]; exact EL.
Qed.

(** X19: a call of [terminate], when there is one, is the last call of
    the run and the only one. *)
Theorem extractData_terminate_last imageSrcs l1 l2 :
  snd (extractData w imageSrcs) = l1 ++ Terminate :: l2 ->
  l2 = [] /\ releases l1 = 0.
Proof.
  destruct (extractData_log_shape imageSrcs) as (trace & R & S).
  intros E.
  assert (R' : releases (CreateWorker :: SetParameters :: trace) = 0) by exact R.
  destruct S as [S|[S|[S|S]]]; rewrite S in E.
  - exfalso. revert E. apply (release_is_last [CreateWorker] l1 l2). reflexivity.
  - exfalso. revert E.
    apply (release_is_last [CreateWorker; SetParameters] l1 l2). reflexivity.
  - exfalso. revert E. now apply release_is_last.
  - destruct (release_is_last _ l1 l2 R') as [L _].
    specialize (L E). subst l2. split; [reflexivity|].
    apply app_inj_tail in E. destruct E as [<- _]. exact R'.
Qed.

(** X20: when the worker cannot be created or configured, the run ends
    with that error before any image is preprocessed or recognised; a
    worker that was created is not released. *)
Theorem extractData_without_worker imageSrcs e :
  createWorker w = Thrown e
  \/ (createWorker w = Returned tt /\ setParameters w = Thrown e) ->
  fst (extractData w imageSrcs)
  = {| passportData := None; error := Some (orElse (message e) defaultMessage) |}
  /\ snd (extractData w imageSrcs)
     = match createWorker w with
       | Thrown _ => [CreateWorker]
       | Returned _ => [CreateWorker; SetParameters]
       end.
Proof.
  intros [H|[H1 H2]]; unfold extractData, extractBody, bind, call.
  - rewrite H. split; reflexivity.
  - rewrite H1, H2. split; reflexivity.
Qed.

(** X21: when every page is scanned without an error and without an MRZ,
    in particular when there is no page at all, the run releases the
    worker and ends with the not-found message. *)
Theorem extractData_no_page_has_mrz imageSrcs :
  createWorker w = Returned tt -> setParameters w = Returned tt ->
  terminate w = Returned tt ->
  (forall p, In p imageSrcs -> fst (scanPage w p []) = Returned None) ->
  fst (extractData w imageSrcs)
  = {| passportData := None; error := Some notFoundMessage |}
  /\ exists trace, snd (extractData w imageSrcs)
                   = (CreateWorker :: SetParameters :: trace) ++ [Terminate].
Proof.
  intros Hc Hs Ht Hall.
  destruct (scanPages_skip image w imageSrcs [] [CreateWorker; SetParameters] Hall)
    as (trace & _ & E).
  unfold extractData, extractBody, bind, call. rewrite Hc, Hs. cbn [app].
  rewrite E, Ht. cbn [fst snd]. split; [reflexivity|]. now exists trace.
Qed.

End RunProtocol.

Lemma extractData_terminate_last_witness :
  [] = ([] : list (event nat))
  /\ releases [CreateWorker; SetParameters; Preprocess 3 false; Recognize 203;
               Preprocess 3 true; Recognize 103; Recognize 3] = 0.
Proof.
  apply (extractData_terminate_last nat failingWorld [3]
           [CreateWorker; SetParameters; Preprocess 3 false; Recognize 203;
            Preprocess 3 true; Recognize 103; Recognize 3] []).
  vm_compute. reflexivity.
Defined.

Lemma extractData_without_worker_witness :
  fst (extractData unconfiguredWorld [0; 3])
  = {| passportData := None;
       error := Some (orElse (message ocrFailure) defaultMessage) |}
  /\ snd (extractData unconfiguredWorld [0; 3])
     = match createWorker unconfiguredWorld with
       | Thrown _ => [CreateWorker]
       | Returned _ => [CreateWorker; SetParameters]
       end.
Proof.
  apply (extractData_without_worker nat unconfiguredWorld [0; 3] ocrFailure).
  right. split; reflexivity.
Defined.

Lemma extractData_no_page_has_mrz_witness :
  fst (extractData failingWorld [3; 3])
  = {| passportData := None; error := Some notFoundMessage |}
  /\ exists trace, snd (extractData failingWorld [3; 3])
                   = (CreateWorker :: SetParameters :: trace) ++ [Terminate].
Proof.
  apply (extractData_no_page_has_mrz nat failingWorld [3; 3]); try reflexivity.
  intros p [<-|[<-|[]]]; vm_compute; reflexivity.
Defined.

Section RunRecord.

Variable image : Type.
Variable w : World image.

Lemma enhanced_pass_fromTranscript src crop :
  fromTranscript w
    (tryOrNull
       (bind (call (Preprocess src crop) (preprocessImageForMRZ w src crop))
          (fun enhanced =>
             bind (call (Recognize enhanced) (recognize w enhanced))
               (fun text => ret (extractMRZ (toUpperCase w) text))))).
Proof.
  intros log lines log'. unfold tryOrNull, bind, call, ret.
  destruct (preprocessImageForMRZ w src crop) as [img|e]; [|discriminate].
  destruct (recognize w img) as [text|e] eqn:R; [|discriminate].
  intros H. injection H as H <-. exists img, text.
  repeat split; [|exact R|exact H].
  apply in_or_app. right. now left.
Qed.

Lemma pass3_fromTranscript src : fromTranscript w (pass3 w src).
Proof.
  intros log lines log'. unfold pass3, bind, call, ret.
  destruct (recognize w src) as [text|e] eqn:R; [|discriminate].
  intros H. injection H as H <-. exists src, text.
  repeat split; [|exact R|exact H].
  apply in_or_app. right. now left.
Qed.

Lemma scanPage_fromTranscript src : fromTranscript w (scanPage w src).
Proof.
  intros log lines log'. unfold scanPage. unfold bind at 1.
  destruct (pass1 w src log) as [[[l|]|e] l1] eqn:P1.
  - unfold bind, ret. intros H. injection H as -> <-.
    exact (enhanced_pass_fromTranscript src false _ _ _ P1).
  - unfold bind at 1.
    destruct (pass2 w src l1) as [[[l|]|e] l2] eqn:P2.
    + unfold ret. intros H. injection H as -> <-.
      exact (enhanced_pass_fromTranscript src true _ _ _ P2).
    + apply pass3_fromTranscript.
    + discriminate.
  - discriminate.
Qed.

Lemma scanPages_fromTranscript imageSrcs : forall log data log',
  scanPages w imageSrcs log = (Returned (Some data), log') ->
  exists img text lines,
    In (Recognize img) log' /\ recognize w img = Returned text
    /\ extractMRZ (toUpperCase w) text = Some lines
    /\ data = parseMRZ (getFullYear w) lines.
Proof.
  induction imageSrcs as [|src rest IH]; intros log data log'; cbn [scanPages].
  - discriminate.
  - unfold bind.
    destruct (scanPage w src log) as [[[l|]|e] l1] eqn:S.
    + unfold ret. intros H. injection H as <- <-.
      destruct (scanPage_fromTranscript src _ _ _ S) as (img & text & I & R & E).
      now exists img, text, l.
    + apply IH.
    + discriminate.
Qed.

Lemma extractData_delivers imageSrcs r :
  passportData (fst (extractData w imageSrcs)) = Some r ->
  error (fst (extractData w imageSrcs)) = None
  /\ exists log, scanPages w imageSrcs [CreateWorker; SetParameters]
                 = (Returned (Some r), log)
                 /\ snd (extractData w imageSrcs) = log ++ [Terminate].
Proof.
  unfold extractData.
  destruct (extractBody w imageSrcs []) as [[d|e] l] eqn:B; [|discriminate].
  cbn [fst snd passportData error]. intros H. injection H as ->.
  split; [reflexivity|].
  unfold extractBody, bind, call in B. cbn [app] in B.
  destruct (createWorker w) as [[]|e1]; [|discriminate].
  destruct (setParameters w) as [[]|e2]; [|discriminate].
  destruct (scanPages w imageSrcs [CreateWorker; SetParameters])
    as [[found|e3] log]; [|discriminate].
  destruct (terminate w) as [[]|e4]; [|discriminate].
  destruct found as [d|]; [|discriminate].
  unfold ret in B. injection B as -> <-. now exists log.
Qed.

Lemma extractMRZ_lengths toUpperCase text l1 l2 :
  extractMRZ toUpperCase text = Some (l1, l2) ->
  length l1 = 44 /\ length l2 = 44 /\ startsWithP l1 = true.
Proof.
  unfold extractMRZ, locate.
  destruct (scanPairs (normalizedLines toUpperCase text)) as [[a b]|] eqn:S.
  - intros H. injection H as <- <-.
    destruct (scanPairs_shape _ _ _ S) as (L1 & L2 & P & _). auto.
  - intros H. apply findFirst_some in H. destruct H as [suffix H].
    apply mrzBlockAt_shape in H. destruct H as (L1 & L2 & P & _). auto.
Qed.

Lemma cleanMRZLine1_keeps_P line :
  44 <= length line -> startsWithP line = true ->
  startsWithP (cleanMRZLine1 line) = true.
Proof.
  intros L P. rewrite cleanMRZLine1_unfold.
  destruct (_ || _); [exact P|].
  destruct line as [|c t]; [discriminate|]. exact P.
Qed.

(** X22: a record that a run delivers is decoded from the text that one of
    the run's own OCR calls returned; both MRZ lines of the record have 44
    characters, the first starts with P, and no error is shown. *)
Theorem extractData_record imageSrcs r :
  passportData (fst (extractData w imageSrcs)) = Some r ->
  error (fst (extractData w imageSrcs)) = None
  /\ (exists img text lines,
         In (Recognize img) (snd (extractData w imageSrcs))
         /\ recognize w img = Returned text
         /\ extractMRZ (toUpperCase w) text = Some lines
         /\ r = parseMRZ (getFullYear w) lines)
  /\ length (mrzLine1 r) = 44 /\ length (mrzLine2 r) = 44
  /\ startsWithP (mrzLine1 r) = true.
Proof.
  intros H. destruct (extractData_delivers imageSrcs r H) as (E & log & S & L).
  split; [exact E|].
  destruct (scanPages_fromTranscript _ _ _ _ S) as (img & text & [l1 l2] & I & R & X & ->).
  destruct (extractMRZ_lengths _ _ _ _ X) as (L1 & L2 & P).
  split.
  - exists img, text, (l1, l2). repeat split; try assumption.
    rewrite L. apply in_or_app. now left.
  - cbn [parseMRZ decodeLines mrzLine1 mrzLine2].
    rewrite cleanMRZLine1_length. repeat split; try assumption.
    apply cleanMRZLine1_keeps_P; [lia|exact P].
Qed.

End RunRecord.

Lemma extractData_record_witness :
  error (fst (extractData failingWorld [3; 2])) = None
  /\ (exists img text lines,
         In (Recognize img) (snd (extractData failingWorld [3; 2]))
         /\ recognize failingWorld img = Returned text
         /\ extractMRZ (toUpperCase failingWorld) text = Some lines
         /\ parseMRZ 2024 (icaoLine1, icaoLine2)
            = parseMRZ (getFullYear failingWorld) lines)
  /\ length (mrzLine1 (parseMRZ 2024 (icaoLine1, icaoLine2))) = 44
  /\ length (mrzLine2 (parseMRZ 2024 (icaoLine1, icaoLine2))) = 44
  /\ startsWithP (mrzLine1 (parseMRZ 2024 (icaoLine1, icaoLine2))) = true.
Proof.
  apply (extractData_record nat failingWorld [3; 2]
           (parseMRZ 2024 (icaoLine1, icaoLine2))).
  vm_compute. reflexivity.
Defined.

(* ------------------------------------------------------------------ *)
(** ** The run of the earlier copy *)
(* ------------------------------------------------------------------ *)

Section LegacyRunFacts.

Variable image : Type.
Variable w : World image.



End LegacyRunFacts.

(* ------------------------------------------------------------------ *)
(** ** The two copies of the locator *)
(* ------------------------------------------------------------------ *)

Lemma split_from_absent s : forall cur,
  ~ In GUILLEMET s -> split_from [194%N; GUILLEMET] 0 cur s = [rev cur ++ s].
Proof.
  induction s as [|c t IH]; intros cur H.
  - cbn [split_from]. now rewrite app_nil_r.
  - assert (Ht : ~ In GUILLEMET t) by (intros X; apply H; now right).
    assert (S : startsWith [194%N; GUILLEMET] (c :: t) = false).
    { cbn [startsWith]. destruct t as [|d u]; [apply andb_false_r|].
      destruct (N.eqb_spec GUILLEMET d) as [E|E].
      - exfalso. apply H. right. left. now symmetry.
      - apply andb_false_r. }
    cbn [split_from]. rewrite S, (IH (c :: cur) Ht). cbn [rev].
    now rewrite <- app_assoc.
Qed.

Lemma normalizeLine_agree toUpperCase l :
  ~ In GUILLEMET (toUpperCase l) ->
  Legacy.normalizeLine toUpperCase l = normalizeLine toUpperCase l.
Proof.
  intros H. unfold Legacy.normalizeLine, normalizeLine.
  assert (A : ~ In GUILLEMET (replaceAll isSpace [] (toUpperCase l))).
  { intros X. apply replaceAll_In in X. destruct X as [[]|[X _]]. now apply H. }
  unfold split. rewrite (split_from_absent _ [] A). cbn [rev app join].
  rewrite (replaceAll_id (isChar GUILLEMET)); [reflexivity|].
  intros c Hc. unfold isChar. apply N.eqb_neq. intros ->. now apply A.
Qed.

(** X24: on a text none of whose upper-cased lines holds a guillemet
    (U+00AB), the two copies of the locator return the same result. *)
Theorem extractMRZ_copies_agree toUpperCase text :
  Forall (fun l => ~ In GUILLEMET (toUpperCase l)) (split [NEWLINE] text) ->
  Legacy.extractMRZ toUpperCase text = extractMRZ toUpperCase text.
Proof.
  intros H. unfold Legacy.extractMRZ, extractMRZ, Legacy.normalizedLines, normalizedLines.
  f_equal. apply map_ext_in. intros l Hl. apply normalizeLine_agree.
  rewrite Forall_forall in H. now apply H.
Qed.

Lemma extractMRZ_copies_agree_witness :
  Legacy.extractMRZ asciiToUpperCase icaoTranscript
  = extractMRZ asciiToUpperCase icaoTranscript.
Proof.
  apply (extractMRZ_copies_agree asciiToUpperCase icaoTranscript).
  apply Forall_forall. intros l Hl X.
  vm_compute in Hl.
  repeat (destruct Hl as [<-|Hl];
          [vm_compute in X;
           repeat (destruct X as [X|X]; [discriminate|]); exact X|]).
  exact Hl.
Defined.

(* ------------------------------------------------------------------ *)
(** ** Further properties of the threshold in double precision *)
(* ------------------------------------------------------------------ *)

(** X25: in double precision the threshold is at most 255. *)
Theorem double_otsuThreshold_bound values : Double.otsuThreshold values <= 255.
Proof.
  destruct (double_otsuThreshold_leastArgmax values) as [[H _]|[H _]].
  - rewrite H. lia.
  - rewrite histogramOf_length in H. lia.
Qed.

(** X26: in double precision the threshold does not depend on the order
    of the pixels. *)
Theorem double_otsuThreshold_permutation v1 v2 :
  Permutation v1 v2 -> Double.otsuThreshold v1 = Double.otsuThreshold v2.
Proof.
  intros H. unfold Double.otsuThreshold.
  rewrite (Permutation_length H). f_equal.
  rewrite !histogramOf_counts. apply map_ext. intros t. f_equal.
  unfold pixels. revert t. now apply Permutation_count_occ.
Qed.

Lemma double_otsuThreshold_permutation_witness :
  Double.otsuThreshold [0; 1; 1; 2] = Double.otsuThreshold [2; 1; 0; 1].
Proof.
  apply double_otsuThreshold_permutation.
  apply (Permutation_cons_app [2; 1] [1] 0).
  apply (Permutation_cons_app [2] [1] 1).
  apply (Permutation_cons_app [2] [] 1).
  apply Permutation_refl.
Defined.

(** X27: in double precision too, for pixel values below 256, a threshold
    other than the initial 128 has a pixel at or below it and a pixel
    above it. *)
Theorem double_otsuThreshold_splits values :
  (forall x, In x values -> x < 256) -> Double.otsuThreshold values <> 128 ->
  (exists x, In x values /\ x <= Double.otsuThreshold values)
  /\ (exists x, In x values /\ Double.otsuThreshold values < x).
Proof.
  intros Hrange Hne.
  destruct (double_otsuThreshold_leastArgmax values) as [[H _]|(Hr & vr & Hs & _)];
    [contradiction|].
  set (r := Double.otsuThreshold values) in *.
  rewrite histogramOf_length in Hr.
  unfold Double.scoreAt in Hs.
  destruct (Z.eqb_spec (weightUpTo (histogramOf values) r) 0) as [|Hw];
    [discriminate|].
  destruct (Z.eqb_spec (Z.of_nat (length values) - weightUpTo (histogramOf values) r) 0)
    as [|Hf]; [discriminate|].
  clear Hs. unfold weightUpTo in Hw, Hf.
  rewrite (histogramOf_sum_in_range values Hrange) in Hf.
  set (f := fun t => Z.of_nat (pixels values t)) in *.
  assert (D : histogramOf values = map f (seq 0 (S r)) ++ map f (seq (S r) (255 - r))).
  { rewrite histogramOf_counts, <- map_app, <- seq_app. do 2 f_equal. lia. }
  assert (F : firstn (S r) (histogramOf values) = map f (seq 0 (S r))).
  { rewrite D, firstn_app, length_map, length_seq, Nat.sub_diag.
    rewrite firstn_all2 by (rewrite length_map, length_seq; lia).
    cbn [firstn]. apply app_nil_r. }
  rewrite F in Hw, Hf. rewrite D, sumZ_app in Hf.
  split.
  - apply sumZ_map_nonzero in Hw. destruct Hw as (t & Ht & Hp).
    apply in_seq in Ht. apply pixels_In in Hp. exists t. split; [exact Hp|lia].
  - assert (Hs : sumZ (map f (seq (S r) (255 - r))) <> 0%Z) by lia.
    apply sumZ_map_nonzero in Hs. destruct Hs as (t & Ht & Hp).
    apply in_seq in Ht. apply pixels_In in Hp. exists t. split; [exact Hp|lia].
Qed.

Lemma double_otsuThreshold_splits_witness :
  (exists x, In x [0; 1; 1; 2] /\ x <= Double.otsuThreshold [0; 1; 1; 2])
  /\ (exists x, In x [0; 1; 1; 2] /\ Double.otsuThreshold [0; 1; 1; 2] < x).
Proof.
  apply double_otsuThreshold_splits.
  - intros x Hx. simpl in Hx. lia.
  - vm_compute. discriminate.
Defined.

(** X28: in double precision, on an image with exactly two intensities
    whose counts and sums are below 2^53, the test [gray < threshold] of
    the binarisation, with the threshold computed from that image, sends
    every pixel, of either intensity, to white. *)
Theorem double_binarize_two_values_white values a b x :
  a < b -> b < 256 -> In a values -> In b values ->
  (forall v, In v values -> v = a \/ v = b) ->
  (Z.of_nat (length values) * 255 < 2 ^ 53)%Z ->
  In x values -> binarize (Double.otsuThreshold values) x = 255.
Proof.
  intros Hab Hb Ia Ib Hall Hlen Hx.
  rewrite (double_otsuThreshold_two_values values a b Hab Hb Ia Ib Hall Hlen).
  unfold binarize. destruct (Hall x Hx) as [-> | ->].
  - now rewrite Nat.ltb_irrefl.
  - destruct (Nat.ltb_spec b a); [lia|reflexivity].
Qed.

Lemma double_binarize_two_values_white_witness :
  binarize (Double.otsuThreshold [40; 220; 220; 40]) 40 = 255.
Proof.
  apply (double_binarize_two_values_white [40; 220; 220; 40] 40 220 40);
    simpl; try lia; tauto.
Defined.
